(** * js-store: a shallow embedding of [store.js] and its specification

    The development embeds the [_Store] object of [store.js] and the [Store]
    facade proxy built around it: the structural validator
    ([_validateStructure]), the prop merger ([_assignProps]), the
    registration protocol, the per-key proxy handler
    ([_generateProxyHandler]) and the cache operations.

    JavaScript objects are mutable and shared; the store only ever reaches
    them through a registered key, so the heap is represented by the store
    state itself: an operation takes the state and returns the state it
    leaves behind, also when it throws. *)

From Stdlib Require Import List String Ascii ZArith Bool Arith Lia FinFun.
From Stdlib Require Import DecimalString Decimal DecimalNat.
Import ListNotations.
Local Open Scope string_scope.

(** ** JavaScript values *)

(** Numbers are integers here (the store never computes with them); a
    function is opaque and only has an identity. An object keeps its own
    properties in insertion order, an array is dense. *)
#[warnings="-register-all"]
Inductive value : Type :=
| VUndef
| VNull
| VBool (b : bool)
| VNum (n : Z)
| VStr (s : string)
| VFun (id : nat)
| VObj (fs : list (string * value))
| VArr (xs : list value).

(** The result of [typeof]. *)
Inductive jstype : Type :=
| TUndefined | TObject | TBoolean | TNumber | TString | TFunction.

Definition typeof (v : value) : jstype :=
  match v with
  | VUndef => TUndefined
  | VNull => TObject
  | VBool _ => TBoolean
  | VNum _ => TNumber
  | VStr _ => TString
  | VFun _ => TFunction
  | VObj _ => TObject
  | VArr _ => TObject
  end.

Definition jstype_eqb (a b : jstype) : bool :=
  match a, b with
  | TUndefined, TUndefined | TObject, TObject | TBoolean, TBoolean
  | TNumber, TNumber | TString, TString | TFunction, TFunction => true
  | _, _ => false
  end.

Definition is_undefined (v : value) : bool :=
  match v with VUndef => true | _ => false end.

Definition is_null (v : value) : bool :=
  match v with VNull => true | _ => false end.

(** [typeof v === 'object'] *)
Definition is_object_type (v : value) : bool := jstype_eqb (typeof v) TObject.

(** [typeof v === 'object' && v !== null] *)
Definition is_object (v : value) : bool :=
  match v with VObj _ | VArr _ => true | _ => false end.

(** [Array.isArray v] *)
Definition isArray (v : value) : bool :=
  match v with VArr _ => true | _ => false end.

(** [v === true] and [v === false] *)
Definition is_true (v : value) : bool :=
  match v with VBool true => true | _ => false end.

Definition is_false (v : value) : bool :=
  match v with VBool false => true | _ => false end.

(** ** Property names of arrays *)

Definition string_of_nat (n : nat) : string :=
  NilEmpty.string_of_uint (Nat.to_uint n).

(** A property name is an array index when it is the canonical decimal
    writing of a natural number. *)
Definition index_of_name (s : string) : option nat :=
  match NilEmpty.uint_of_string s with
  | Some u =>
      let n := Nat.of_uint u in
      if String.eqb (string_of_nat n) s then Some n else None
  | None => None
  end.

Fixpoint indexed_from (i : nat) (xs : list value) : list (string * value) :=
  match xs with
  | [] => []
  | x :: r => (string_of_nat i, x) :: indexed_from (S i) r
  end.

Fixpoint chars_of (s : string) : list value :=
  match s with
  | EmptyString => []
  | String c r => VStr (String c EmptyString) :: chars_of r
  end.

(** ** Own properties

    [entries v] lists the own properties of [v] in the order of
    [Object.getOwnPropertyNames], each with its value: the fields of an
    object, the elements of an array followed by its [length], the
    characters of a string followed by its [length], nothing for the other
    primitives. *)
Definition entries (v : value) : list (string * value) :=
  match v with
  | VObj fs => fs
  | VArr xs => indexed_from 0 xs ++ [("length", VNum (Z.of_nat (List.length xs)))]
  | VStr s =>
      indexed_from 0 (chars_of s)
        ++ [("length", VNum (Z.of_nat (String.length s)))]
  | _ => []
  end.

Definition own_names (v : value) : list string := map fst (entries v).

Fixpoint lookup {A : Type} (k : string) (l : list (string * A)) : option A :=
  match l with
  | [] => None
  | (k', a) :: r => if String.eqb k k' then Some a else lookup k r
  end.

(** [v[p]] for an own property; a property that is not an own one reads
    [undefined]. What the prototypes add ([toString], [constructor], ...
    on every object, [push], ... on arrays) is not represented: on those
    names [v[p]] is the inherited member where [v] has none of its own.
    The names of [Object.prototype] are listed in [inherited] below, and
    the statements that depend on an absent property reading [undefined]
    keep to the other names. *)
Definition getp (v : value) (p : string) : value :=
  match lookup p (entries v) with
  | Some x => x
  | None => VUndef
  end.

Fixpoint update {A : Type} (k : string) (a : A) (l : list (string * A))
  : list (string * A) :=
  match l with
  | [] => [(k, a)]
  | (k', a') :: r =>
      if String.eqb k k' then (k, a) :: r else (k', a') :: update k a r
  end.

Fixpoint remove {A : Type} (k : string) (l : list (string * A))
  : list (string * A) :=
  match l with
  | [] => []
  | (k', a') :: r =>
      if String.eqb k k' then remove k r else (k', a') :: remove k r
  end.

Fixpoint replace_nth (i : nat) (x : value) (xs : list value) : list value :=
  match xs, i with
  | [], _ => []
  | _ :: r, O => x :: r
  | y :: r, S j => y :: replace_nth j x r
  end.

(** [v[p] = x]. An existing property keeps its place, a new one goes last.
    On an array only what keeps it dense and free of named properties is
    represented: writing an element or the next index, and shortening
    [length]; [None] for the rest. A primitive ignores the assignment. *)
Definition setp (v : value) (p : string) (x : value) : option value :=
  match v with
  | VObj fs => Some (VObj (update p x fs))
  | VArr xs =>
      if String.eqb p "length" then
        match x with
        | VNum n =>
            if (0 <=? n)%Z && (n <=? Z.of_nat (List.length xs))%Z
            then Some (VArr (firstn (Z.to_nat n) xs))
            else None
        | _ => None
        end
      else
        match index_of_name p with
        | Some i =>
            if Nat.ltb i (List.length xs) then Some (VArr (replace_nth i x xs))
            else if Nat.eqb i (List.length xs) then Some (VArr (xs ++ [x]))
            else None
        | None => None
        end
  | _ => Some v
  end.

(** [delete v[p]] *)
Definition delp (v : value) (p : string) : value :=
  match v with
  | VObj fs => VObj (remove p fs)
  | _ => v
  end.

(** ** Errors

    The store throws strings; the constructors name them after the kind of
    failure. [JsTypeError] is the [TypeError] the JavaScript runtime itself
    raises (a property of [undefined] or [null], a proxy around a
    primitive). *)
Inductive error : Type :=
| InvalidHandler      (* Handler must be an Object *)
| AlreadyRegistered   (* Store.key already defined. *)
| ReservedField       (* Can not register reserved store field ... *)
| SchemaMismatch      (* Assignment in Store must have the same structure ... *)
| TypeMismatch        (* Persistent structure does not match ... *)
| InvalidAssignment   (* Assignment invalid - does not match registered structure. *)
| ImmutableField      (* Can not reassign Store.key._persisted *)
| JsTypeError.

(** How a piece of code that mutates an object in place ends: normally,
    by throwing, or outside of what the embedding represents. *)
Inductive status : Type :=
| Done
| Thrown (e : error)
| NotModelled.

(** ** The structural validator: [_validateStructure]

    The body of the inner [forEach] of [_validateStructure], for the pair
    [(a, b)], the property [p] of [b] and its value [bv]. [first] is
    [index === 0]; [rec] is the recursive call on [a[p]]. The result is
    [false] when the body throws. *)
Definition check_prop (first : bool) (a : value) (p : string) (bv : value)
    (rec : value -> bool) : bool :=
  if is_object_type a && negb (isArray a) then
    let av := getp a p in
    if is_undefined av then false
    else if negb (is_null av) && negb (is_null bv) then
      if negb (jstype_eqb (typeof av) (typeof bv)) then false
      else if first && is_object_type av then rec av else true
    else true
  else true.

(** [validateStructure a0 b0] is [true] when [_validateStructure(a0, b0)]
    returns and [false] when it throws. The first pass runs over the own
    properties of [b0] and recurses, the second runs over those of [a0]. *)
Fixpoint validateStructure (a0 b0 : value) {struct b0} : bool :=
  if is_undefined a0 || is_null a0 || is_undefined b0 || is_null b0 then true
  else if negb (is_object_type a0) || negb (is_object_type b0) then true
  else
    let pass0 :=
      match b0 with
      | VObj fs =>
          (fix loop (l : list (string * value)) : bool :=
             match l with
             | [] => true
             | (p, bv) :: r =>
                 check_prop true a0 p bv (fun av => validateStructure av bv)
                 && loop r
             end) fs
      | VArr xs =>
          (fix loop (i : nat) (l : list value) : bool :=
             match l with
             | [] => true
             | bv :: r =>
                 check_prop true a0 (string_of_nat i) bv
                   (fun av => validateStructure av bv)
                 && loop (S i) r
             end) 0%nat xs
          && check_prop true a0 "length" (VNum (Z.of_nat (List.length xs)))
               (fun _ => true)
      | _ => true
      end in
    pass0
    && forallb (fun e => check_prop false b0 (fst e) (snd e) (fun _ => true))
         (entries a0).

(** ** The prop merger: [_assignProps]

    The body of the [forEach] of [_assignProps] for the property [p] of the
    source and its value [fv]; [rec] is the recursive call on [to[p]]. The
    target is mutated in place, so what has been written stays written when
    a later property throws. *)
Definition assign_prop (to : value) (p : string) (fv : value)
    (rec : value -> value * status) : value * status :=
  let tv := getp to p in
  let plain := is_object_type to && negb (isArray to) in
  if plain && is_undefined tv then (to, Done)
  else if plain && negb (is_null tv) && negb (is_null fv)
          && negb (jstype_eqb (typeof tv) (typeof fv))
  then (to, Thrown TypeMismatch)
  else if is_object tv then
    let (tv', s) := rec tv in
    match setp to p tv' with
    | Some to' => (to', s)
    | None => (to, NotModelled)
    end
  else
    match setp to p fv with
    | Some to' => (to', Done)
    | None => (to, NotModelled)
    end.

(** [assignProps to from] returns the target as [_assignProps(to, from)]
    leaves it, and how the call ended. A string source is followed through
    its characters as long as no character has to be merged into an object
    (which only an array target allows). *)
Fixpoint assignProps (to from : value) {struct from} : value * status :=
  match from with
  | VNull => (to, Done)
  | VUndef => (to, Thrown JsTypeError)
  | VBool _ | VNum _ => (to, Done)
  | VFun _ => (to, NotModelled)
  | VObj fs =>
      (fix loop (l : list (string * value)) (to : value) : value * status :=
         match l with
         | [] => (to, Done)
         | (p, fv) :: r =>
             match assign_prop to p fv (fun tv => assignProps tv fv) with
             | (to', Done) => loop r to'
             | res => res
             end
         end) fs to
  | VArr ys =>
      match
        (fix loop (i : nat) (l : list value) (to : value) : value * status :=
           match l with
           | [] => (to, Done)
           | fv :: r =>
               match assign_prop to (string_of_nat i) fv
                       (fun tv => assignProps tv fv) with
               | (to', Done) => loop (S i) r to'
               | res => res
               end
           end) 0%nat ys to
      with
      | (to', Done) =>
          assign_prop to' "length" (VNum (Z.of_nat (List.length ys)))
            (fun tv => (tv, Done))
      | res => res
      end
  | VStr s =>
      match
        (fix loop (i : nat) (l : list value) (to : value) : value * status :=
           match l with
           | [] => (to, Done)
           | fv :: r =>
               match assign_prop to (string_of_nat i) fv
                       (fun tv => (tv, NotModelled)) with
               | (to', Done) => loop (S i) r to'
               | res => res
               end
           end) 0%nat (chars_of s) to
      with
      | (to', Done) =>
          assign_prop to' "length" (VNum (Z.of_nat (String.length s)))
            (fun tv => (tv, Done))
      | res => res
      end
  end.

(** ** Serialization

    [json v] is [JSON.parse(JSON.stringify(v))] on plain data: [None]
    stands for [undefined]. Fields holding [undefined] or a function are
    dropped, such elements of an array become [null]. A [toJSON] member,
    which [JSON.stringify] would call, is treated as any other function
    and dropped. *)
Fixpoint json (v : value) : option value :=
  match v with
  | VUndef | VFun _ => None
  | VNull | VBool _ | VNum _ | VStr _ => Some v
  | VObj fs =>
      Some (VObj
        ((fix fields (l : list (string * value)) : list (string * value) :=
            match l with
            | [] => []
            | (k, x) :: r =>
                match json x with
                | Some y => (k, y) :: fields r
                | None => fields r
                end
            end) fs))
  | VArr xs =>
      Some (VArr
        ((fix elems (l : list value) : list value :=
            match l with
            | [] => []
            | x :: r =>
                match json x with
                | Some y => y :: elems r
                | None => VNull :: elems r
                end
            end) xs))
  end.

(** ** The state of the store

    [_Store[key]] is either the proxy created by [register] around the
    handler [_registeredHandlers[key]] (the proxy and the handler are one
    object seen twice), or a value installed by assignment. *)
Inductive slot : Type :=
| SProxy
| SRaw (v : value).

(** Calls received by the durable backend. *)
Inductive event : Type :=
| EvGet (key : string)
| EvSet (key : string) (v : value).

(** [handlers] is [_Store._registeredHandlers], [props] the other
    properties added to [_Store] at run time, [storage] what the durable
    backend holds (each entry decoded), [log] the calls it has received,
    oldest first. *)
Record store : Type := mkStore {
  handlers : list (string * value);
  props : list (string * slot);
  storage : list (string * value);
  log : list event
}.

Definition empty_store : store := mkStore [] [] [] [].

Definition with_handlers (st : store) (h : list (string * value)) : store :=
  mkStore h (props st) (storage st) (log st).

Definition with_props (st : store) (p : list (string * slot)) : store :=
  mkStore (handlers st) p (storage st) (log st).

Definition with_storage (st : store) (s : list (string * value)) : store :=
  mkStore (handlers st) (props st) s (log st).

(** The members of the [_Store] literal. *)
Definition builtins : list string :=
  [ "_registeredHandlers"; "_setPersistedProperty"; "_getPersistedProperty";
    "_deproxy"; "_assignProps"; "_validateStructure"; "_setupHandler";
    "_persist"; "_generateProxyHandler"; "register"; "clearCache"; "reset";
    "clearPersistentStorage" ].

(** What [_Store] inherits from [Object.prototype]. *)
Definition inherited : list string :=
  [ "constructor"; "hasOwnProperty"; "isPrototypeOf"; "propertyIsEnumerable";
    "toLocaleString"; "toString"; "valueOf"; "__proto__";
    "__defineGetter__"; "__defineSetter__"; "__lookupGetter__";
    "__lookupSetter__" ].

Definition mem (k : string) (l : list string) : bool :=
  existsb (String.eqb k) l.

(** ** Operations: state and exceptions

    An operation ends with a result ([Ok]), with an exception ([Throw]), or
    leaves what is represented ([Unmodelled]); the first two carry the
    state left behind. *)
Inductive outcome (A : Type) : Type :=
| Ok (st : store) (a : A)
| Throw (st : store) (e : error)
| Unmodelled.

Arguments Ok {A} st a.
Arguments Throw {A} st e.
Arguments Unmodelled {A}.

Definition M (A : Type) : Type := store -> outcome A.

Definition ret {A : Type} (a : A) : M A := fun st => Ok st a.

Definition throw {A : Type} (e : error) : M A := fun st => Throw st e.

Definition unmodelled {A : Type} : M A := fun _ => Unmodelled.

Definition bind {A B : Type} (m : M A) (f : A -> M B) : M B :=
  fun st =>
    match m st with
    | Ok st' a => f a st'
    | Throw st' e => Throw st' e
    | Unmodelled => Unmodelled
    end.

Notation "x <- m ;; f" := (bind m (fun x => f))
  (at level 61, m at next level, right associativity).
Notation "m ;;; f" := (bind m (fun _ => f))
  (at level 61, right associativity).

Definition modify (f : store -> store) : M unit := fun st => Ok (f st) tt.

Definition of_option {A : Type} (o : option A) : M A :=
  match o with
  | Some a => ret a
  | None => unmodelled
  end.

(** ** The durable backend *)

Definition add_log (e : event) (st : store) : store :=
  mkStore (handlers st) (props st) (storage st) (log st ++ [e]).

(** What the backend holds for [key], decoded; an absent entry reads
    [null]. *)
Definition stored (key : string) (st : store) : value :=
  match lookup key (storage st) with
  | Some v => v
  | None => VNull
  end.

(** [_getPersistedProperty] *)
Definition getPersistedProperty (key : string) : M value :=
  fun st => Ok (add_log (EvGet key) st) (stored key st).

(** [_setPersistedProperty] *)
Definition setPersistedProperty (key : string) (v : value) : M unit :=
  fun st =>
    Ok (add_log (EvSet key v) (with_storage st (update key v (storage st))))
       tt.

(** ** Reaching the object behind a key *)

Definition reserved (p : string) : bool :=
  String.eqb p "_cached" || String.eqb p "_persisted".

(** The object [_Store[key]] rests on: the handler behind the proxy, or the
    installed value. *)
Definition root (key : string) : M value :=
  fun st =>
    match lookup key (props st) with
    | Some SProxy =>
        match lookup key (handlers st) with
        | Some h => Ok st h
        | None => Unmodelled
        end
    | Some (SRaw v) => Ok st v
    | None => Throw st JsTypeError
    end.

Definition set_root (key : string) (v : value) : M unit :=
  fun st =>
    match lookup key (props st) with
    | Some SProxy => Ok (with_handlers st (update key v (handlers st))) tt
    | Some (SRaw _) => Ok (with_props st (update key (SRaw v) (props st))) tt
    | None => Throw st JsTypeError
    end.

(** Following [path] from [v] through objects and arrays. A step onto
    [undefined] or [null] makes the next access a [TypeError]; a step onto
    another primitive leaves the store. *)
Fixpoint descend (v : value) (path : list string) : M value :=
  match path with
  | [] => ret v
  | q :: r =>
      let c := getp v q in
      if is_object c then descend c r
      else if is_undefined c || is_null c then throw JsTypeError
      else unmodelled
  end.

(** [v.q1...qn.p = x] on the tree: the object at [path] is mutated in
    place, and every object on the way to it keeps its place. *)
Fixpoint set_in (v : value) (path : list string) (p : string) (x : value)
  : option value :=
  match path with
  | [] => setp v p x
  | q :: r =>
      let c := getp v q in
      if is_object c then
        match set_in c r p x with
        | Some c' => setp v q c'
        | None => None
        end
      else None
  end.

Definition raw_target (key : string) (path : list string) : M value :=
  r <- root key ;; descend r path.

Definition raw_set (key : string) (path : list string) (p : string)
    (x : value) : M unit :=
  r <- root key ;;
  r' <- of_option (set_in r path p x) ;;
  set_root key r'.

(** ** The proxy handler: [_generateProxyHandler] *)

Definition finish {A : Type} (a : A) (s : status) : M A :=
  match s with
  | Done => ret a
  | Thrown e => throw e
  | NotModelled => unmodelled
  end.

(** The condition of the cache miss:
    [target['_cached'] === false && target['_persisted'] === true]. *)
Definition cold (h : value) : bool :=
  is_false (getp h "_cached") && is_true (getp h "_persisted").

(** The cache miss of the [get] trap, taken when the target is the
    registered handler. *)
Definition load (key : string) : M unit :=
  h <- root key ;;
  if cold h then
    v1 <- getPersistedProperty key ;;
    (if is_undefined v1 then ret tt
     else
       v2 <- getPersistedProperty key ;;
       set_root key (fst (assignProps h v2)) ;;;
       finish tt (snd (assignProps h v2))) ;;;
    h2 <- root key ;;
    h3 <- of_option (setp h2 "_cached" (VBool true)) ;;
    set_root key h3
  else ret tt.

(** The first trap a view of [key] runs into: only the proxy of the
    handler has the handler as its target. *)
Definition first_trap (key : string) : M unit :=
  fun st =>
    match lookup key (props st) with
    | Some SProxy => load key st
    | _ => Ok st tt
    end.

(** [_Store[key][p]] *)
Definition store_get (key : string) (p : string) : M value :=
  fun st =>
    match lookup key (props st) with
    | Some SProxy => (load key ;;; h <- root key ;; ret (getp h p)) st
    | Some (SRaw v) =>
        if is_undefined v || is_null v then Throw st JsTypeError
        else Ok st (getp v p)
    | None => Throw st JsTypeError
    end.

(** [delete r['_cached']; delete r['_persisted']] *)
Definition strip (r : value) : value := delp (delp r "_cached") "_persisted".

(** [_persist] *)
Definition persist (key : string) : M unit :=
  x <- store_get key "_persisted" ;;
  if is_true x then
    r <- root key ;;
    set_root key (strip r) ;;;
    r0 <- root key ;;
    data <- of_option (json r0) ;;
    setPersistedProperty key data ;;;
    r1 <- root key ;;
    r2 <- of_option (setp r1 "_cached" (VBool true)) ;;
    r3 <- of_option (setp r2 "_persisted" (VBool true)) ;;
    set_root key r3
  else ret tt.

(** [Store[key]] for a registered key: a new proxy around [_Store[key]],
    which has to be an object. A proxy around a function is not
    represented. *)
Definition view (key : string) : M unit :=
  fun st =>
    match lookup key (handlers st) with
    | None => Unmodelled
    | Some _ =>
        match lookup key (props st) with
        | Some SProxy => Ok st tt
        | Some (SRaw (VFun _)) => Unmodelled
        | Some (SRaw v) => if is_object v then Ok st tt else Throw st JsTypeError
        | None => Throw st JsTypeError
        end
    end.

(** [Store.key.q1...qn.p] *)
Definition view_read (key : string) (path : list string) (p : string)
  : M value :=
  view key ;;;
  first_trap key ;;;
  tgt <- raw_target key path ;;
  ret (getp tgt p).

(** [typeof target === 'object' && !Array.isArray(target) &&
    target[p] === undefined] *)
Definition unknown_field (tgt : value) (p : string) : bool :=
  is_object_type tgt && negb (isArray tgt) && is_undefined (getp tgt p).

(** One [set] trap on the object at [path]. [is_handler] is
    [target === _Store._registeredHandlers[key]]; [assign] is what
    [target[property] = value] does: the trap of the proxy below, or the
    assignment itself. *)
Definition set_layer (key : string) (path : list string) (p : string)
    (x : value) (is_handler : bool) (assign : M unit) : M unit :=
  tgt <- raw_target key path ;;
  if negb (validateStructure (getp tgt p) x) then throw SchemaMismatch
  else if is_handler && reserved p then raw_set key path p x
  else
    (if is_handler && is_true (getp tgt "_persisted")
     then raw_set key path "_cached" (VBool true)
     else ret tt) ;;;
    tgt' <- raw_target key path ;;
    if unknown_field tgt' p then throw InvalidAssignment
    else assign ;;; persist key.

Definition is_nil {A : Type} (l : list A) : bool :=
  match l with [] => true | _ => false end.

(** [Store.key.q1...qn.p = x]. Behind the proxy of the handler the
    assignment passes two traps, the view's and the proxy's. *)
Definition view_write (key : string) (path : list string) (p : string)
    (x : value) : M unit :=
  view key ;;;
  first_trap key ;;;
  fun st =>
    match lookup key (props st) with
    | Some SProxy =>
        set_layer key path p x false
          (set_layer key path p x (is_nil path) (raw_set key path p x)) st
    | _ => set_layer key path p x false (raw_set key path p x) st
    end.

(** ** Registration *)

(** [_Store[key] !== undefined] *)
Definition store_defined (st : store) (key : string) : bool :=
  mem key builtins || mem key inherited
  || match lookup key (props st) with
     | Some SProxy => true
     | Some (SRaw v) => negb (is_undefined v)
     | None => false
     end.

(** [_setupHandler]: the handler as the call leaves it, and how it ended.
    [_cached] is written before [_persisted] is checked. *)
Definition setupHandler (h : value) : value * status :=
  if negb (is_object_type h) then (h, Thrown InvalidHandler)
  else if is_null h then (h, Thrown JsTypeError)
  else if negb (is_undefined (getp h "_cached")) then (h, Thrown ReservedField)
  else
    match setp h "_cached" (VBool false) with
    | None => (h, NotModelled)
    | Some h1 =>
        match getp h1 "_persisted" with
        | VUndef =>
            match setp h1 "_persisted" (VBool false) with
            | Some h2 => (h2, Done)
            | None => (h1, NotModelled)
            end
        | VBool _ => (h1, Done)
        | _ => (h1, Thrown ReservedField)
        end
    end.

Definition install (key : string) (h : value) : M unit :=
  modify (fun st =>
    mkStore (update key h (handlers st)) (update key SProxy (props st))
      (storage st) (log st)).

(** [register]. [_setupHandler] mutates the handler it is given, also when
    it throws; [keep] records the mutation where the handler already lives
    in the store, and does nothing for a handler of the caller. *)
Definition register_obj (key : string) (h : value) (keep : value -> M unit)
  : M unit :=
  fun st =>
    if store_defined st key then Throw st AlreadyRegistered
    else
      (keep (fst (setupHandler h)) ;;;
       finish tt (snd (setupHandler h)) ;;;
       install key (fst (setupHandler h))) st.

Definition register (key : string) (h : value) : M unit :=
  register_obj key h (fun _ => ret tt).

Fixpoint forEach {A : Type} (l : list A) (f : A -> M unit) : M unit :=
  match l with
  | [] => ret tt
  | a :: r => f a ;;; forEach r f
  end.

Definition registered_keys (st : store) : list string :=
  map fst (handlers st).

(** The body of the [forEach] of [clearCache]. *)
Definition clear_one (key : string) : M unit :=
  view key ;;;
  r <- root key ;;
  set_root key (delp r "_cached") ;;;
  modify (fun st => with_props st (remove key (props st))) ;;;
  fun st =>
    match lookup key (handlers st) with
    | Some h =>
        register_obj key h
          (fun h' =>
             modify (fun s => with_handlers s (update key h' (handlers s))))
          st
    | None => register key VUndef st
    end.

Definition clearCache : M unit :=
  fun st => forEach (registered_keys st) clear_one st.

(** [reset] *)
Definition reset : M unit :=
  fun st =>
    forEach (registered_keys st)
      (fun key =>
         modify (fun s =>
           mkStore (remove key (handlers s)) (remove key (props s))
             (storage s) (log s)))
      st.

(** [clearPersistentStorage] *)
Definition clearPersistentStorage : M unit :=
  fun st =>
    forEach (registered_keys st) (fun key => setPersistedProperty key VNull) st.

(** ** The facade: assignment to [Store.key] *)

(** [!!v] *)
Definition truthy (v : value) : bool :=
  match v with
  | VUndef | VNull | VBool false => false
  | VNum n => negb (n =? 0)%Z
  | VStr s => negb (String.eqb s "")
  | _ => true
  end.

(** [x == y], where it needs neither a string read as a number nor an
    object turned into a primitive. Two objects are equal when they are the
    same object, which a value handed to the store and one kept by it are
    not. *)
Definition loose_eq (x y : value) : option bool :=
  match x, y with
  | (VUndef | VNull), (VUndef | VNull) => Some true
  | (VUndef | VNull), _ | _, (VUndef | VNull) => Some false
  | VBool a, VBool b => Some (Bool.eqb a b)
  | VNum a, VNum b => Some (a =? b)%Z
  | VStr a, VStr b => Some (String.eqb a b)
  | VBool a, VNum n | VNum n, VBool a => Some (n =? (if a then 1 else 0))%Z
  | VFun a, VFun b => Some (Nat.eqb a b)
  | (VObj _ | VArr _), (VObj _ | VArr _ | VFun _)
  | VFun _, (VObj _ | VArr _) => Some false
  | _, _ => None
  end.

(** The [set] trap of the facade. Assigning to a member of [_Store] itself
    is left out. *)
Definition facade_set (key : string) (x : value) : M unit :=
  fun st =>
    if mem key builtins || mem key inherited then Unmodelled
    else
      match lookup key (handlers st) with
      | None => Ok (with_props st (update key (SRaw x) (props st))) tt
      | Some _ =>
          (persisted <- store_get key "_persisted" ;;
           (if is_undefined x || is_null x then throw JsTypeError else ret tt) ;;;
           (if is_undefined (getp x "_persisted") then ret tt
            else
              match loose_eq (getp x "_persisted") persisted with
              | Some true => ret tt
              | Some false => throw ImmutableField
              | None => unmodelled
              end) ;;;
           if truthy persisted then
             x1 <- of_option (setp x "_persisted" (VBool true)) ;;
             x2 <- of_option (setp x1 "_cached" (VBool true)) ;;
             modify (fun s => with_props s (update key (SRaw x2) (props s))) ;;;
             persist key
           else
             modify (fun s => with_props s (update key (SRaw x) (props s))))
            st
      end.

(** ** Observations *)

Fixpoint gets (key : string) (l : list event) : nat :=
  match l with
  | [] => 0
  | EvGet k :: r => (if String.eqb k key then 1 else 0) + gets key r
  | EvSet _ _ :: r => gets key r
  end.

Fixpoint sets (key : string) (l : list event) : nat :=
  match l with
  | [] => 0
  | EvSet k _ :: r => (if String.eqb k key then 1 else 0) + sets key r
  | EvGet _ :: r => sets key r
  end.

Definition state_of {A : Type} (o : outcome A) (d : store) : store :=
  match o with
  | Ok st _ => st
  | Throw st _ => st
  | Unmodelled => d
  end.


(** ** Notions used by the statements *)

(** The loop of [_assignProps] over a list of source properties, [rec fv]
    being the recursive call for the property of value [fv]. *)
Fixpoint assign_all (rec : value -> value -> value * status)
    (l : list (string * value)) (to : value) : value * status :=
  match l with
  | [] => (to, Done)
  | (p, fv) :: r =>
      match assign_prop to p fv (rec fv) with
      | (to', Done) => assign_all rec r to'
      | res => res
      end
  end.

(** The recursive call [_assignProps(to[p], from[p])] as [assignProps]
    takes it for a property of value [fv] of the source [from]. *)
Definition rec_of (from fv tv : value) : value * status :=
  match from, fv with
  | VStr _, VStr _ => (tv, NotModelled)
  | _, _ => assignProps tv fv
  end.

Fixpoint nodupb (l : list string) : bool :=
  match l with
  | [] => true
  | a :: r => negb (mem a r) && nodupb r
  end.

(** Decoded JSON never names a field twice in one object. *)
Fixpoint uniq_keys (v : value) : bool :=
  match v with
  | VObj fs =>
      nodupb (map fst fs)
      && (fix all (l : list (string * value)) : bool :=
            match l with
            | [] => true
            | (_, x) :: r => uniq_keys x && all r
            end) fs
  | VArr xs =>
      (fix all (l : list value) : bool :=
         match l with
         | [] => true
         | x :: r => uniq_keys x && all r
         end) xs
  | _ => true
  end.

(** The value found by following [path] through nested non-array objects
    only. *)
Fixpoint sub_at (v : value) (path : list string) : option value :=
  match path with
  | [] => Some v
  | q :: r =>
      match v with
      | VObj fs =>
          match lookup q fs with
          | Some c => sub_at c r
          | None => None
          end
      | _ => None
      end
  end.

(** [v.q1...qn], [undefined] when the path breaks off. *)
Fixpoint src_at (v : value) (path : list string) : value :=
  match path with
  | [] => v
  | q :: r => src_at (getp v q) r
  end.

(** The state after the object behind [key] has become [v]. *)
Definition put_root (key : string) (v : value) (st : store) : store :=
  match lookup key (props st) with
  | Some SProxy => with_handlers st (update key v (handlers st))
  | Some (SRaw _) => with_props st (update key (SRaw v) (props st))
  | None => st
  end.

(** The object behind [key], if there is one. *)
Definition root_of (key : string) (st : store) : option value :=
  match lookup key (props st) with
  | Some SProxy => lookup key (handlers st)
  | Some (SRaw v) => Some v
  | None => None
  end.

(** [type_clash a b]: somewhere in the object [b], below fields that are
    objects on both sides and no arrays in [a], a field has a [typeof]
    other than the one of the same field of [a], neither being [null] or
    absent from [a]. *)
Inductive type_clash : value -> value -> Prop :=
| clash_here fs b p bv av :
    is_object b = true ->
    In (p, bv) (entries b) ->
    lookup p fs = Some av ->
    is_undefined av = false -> is_null av = false -> is_null bv = false ->
    typeof av <> typeof bv ->
    type_clash (VObj fs) b
| clash_deep fs b p bv av :
    is_object b = true ->
    In (p, bv) (entries b) ->
    lookup p fs = Some av ->
    type_clash av bv ->
    type_clash (VObj fs) b.

(** A registered key whose view can be taken: [Store[key]] does not throw. *)
Definition viewable (key : string) (st : store) : Prop :=
  lookup key (handlers st) <> None
  /\ match lookup key (props st) with
     | Some SProxy => True
     | Some (SRaw v) => is_object v = true
     | None => False
     end.

(** No cache miss is pending behind [key]. *)
Definition warm (key : string) (st : store) : Prop :=
  match lookup key (props st) with
  | Some SProxy =>
      match lookup key (handlers st) with
      | Some h => cold h = false
      | None => False
      end
  | _ => True
  end.

(** The object of [key] once [_persist] has put the reserved fields
    back. *)
Definition restore (r : value) : value :=
  match r with
  | VObj fs =>
      VObj (update "_persisted" (VBool true) (update "_cached" (VBool true) fs))
  | _ => r
  end.

(** The state after [_persist] has written [data] for [key] and left the
    object [r] behind it. *)
Definition write_through (key : string) (r data : value) (st : store) : store :=
  put_root key r
    (add_log (EvSet key data) (with_storage st (update key data (storage st)))).

(** What [_persist] makes of a state in which no cache miss is pending. *)
Definition persisted_step (key : string) (st : store) : store :=
  match root_of key st with
  | Some (VObj fs) =>
      if is_true (getp (VObj fs) "_persisted") then
        match json (strip (VObj fs)) with
        | Some data => write_through key (restore (strip (VObj fs))) data st
        | None => st
        end
      else st
  | _ => st
  end.

(** A write that the [set] trap does not treat as bookkeeping: below the
    top level, or to a property other than the two reserved ones. *)
Definition plain_write (path : list string) (p : string) : bool :=
  negb (is_nil path) || negb (reserved p).

(** [target['_cached'] = true], which the [set] trap of the proxy does
    before a write to a persisted handler. *)
Definition touch (path : list string) (r : value) : value :=
  match r with
  | VObj fs =>
      if is_nil path && is_true (getp r "_persisted")
      then VObj (update "_cached" (VBool true) fs)
      else r
  | _ => r
  end.

(** Property accesses through the view of a key, and a program that makes
    them one after the other, catching what is thrown. *)
Inductive access : Type :=
| Read (path : list string) (p : string)
| Write (path : list string) (p : string) (x : value).

Definition run_access (key : string) (a : access) : M unit :=
  match a with
  | Read path p => view_read key path p ;;; ret tt
  | Write path p x => view_write key path p x
  end.

Fixpoint run_all (key : string) (l : list access) (st : store)
  : option store :=
  match l with
  | [] => Some st
  | a :: r =>
      match run_access key a st with
      | Ok st' _ => run_all key r st'
      | Throw st' _ => run_all key r st'
      | Unmodelled => None
      end
  end.

(** Every access but [Store.key._persisted = x]. *)
Definition spares_flag (a : access) : bool :=
  match a with
  | Read _ _ => true
  | Write path p _ => negb (is_nil path && String.eqb p "_persisted")
  end.

(** The key is behind its proxy, its handler is an object and is not
    persisted. *)
Definition plain_key (key : string) (st : store) : Prop :=
  lookup key (props st) = Some SProxy
  /\ exists hfs,
       lookup key (handlers st) = Some (VObj hfs)
       /\ getp (VObj hfs) "_persisted" = VBool false.

(** The first property name an access [Store.key.q1...qn.p] uses. *)
Definition first_name (path : list string) (p : string) : string :=
  match path with
  | [] => p
  | q :: _ => q
  end.

(** The store states [st] and [st'] have the same entry for [key], the
    same durable storage and the same log. *)
Definition same_for (key : string) (st st' : store) : Prop :=
  lookup key (handlers st') = lookup key (handlers st)
  /\ lookup key (props st') = lookup key (props st)
  /\ storage st' = storage st
  /\ log st' = log st.

(** Whatever state the operation ends in is related to the one it started
    from. *)
Definition keeps {A : Type} (R : store -> store -> Prop) (m : M A) : Prop :=
  forall st,
    match m st with
    | Ok st' _ => R st st'
    | Throw st' _ => R st st'
    | Unmodelled => True
    end.

(** The handler a successful [clearCache] leaves for a handler with the
    fields [fs]. *)
Definition recached (fs : list (string * value)) : value :=
  VObj (update "_cached" (VBool false) (remove "_cached" fs)).








(** [b] is the flag a schema with the fields [hfs] fixes at registration:
    the [_persisted] it gives, [false] if it gives none. *)
Definition registered_flag (hfs : list (string * value)) (b : bool) : Prop :=
  match getp (VObj hfs) "_persisted" with
  | VUndef => b = false
  | v => v = VBool b
  end.

(** ** Notions used by the further properties *)

(** [field_clash a b]: the objects [a] and [b] do not have the same
    fields. Somewhere below fields that hold non-array objects in [a] and
    objects in [b], [b] has a property that [a], a non-array object, lacks,
    or [a] has a property that [b], a non-array object, lacks. A property
    named like a member of [Object.prototype] is never lacking, every
    object inherits one: such names do not make a clash. *)
Inductive field_clash : value -> value -> Prop :=
| clash_extra fs b p bv :
    is_object b = true ->
    In (p, bv) (entries b) ->
    mem p inherited = false ->
    getp (VObj fs) p = VUndef ->
    field_clash (VObj fs) b
| clash_missing a gs p av :
    is_object a = true ->
    In (p, av) (entries a) ->
    mem p inherited = false ->
    getp (VObj gs) p = VUndef ->
    field_clash a (VObj gs)
| clash_below fs b p bv av :
    is_object b = true ->
    In (p, bv) (entries b) ->
    lookup p fs = Some av ->
    field_clash av bv ->
    field_clash (VObj fs) b.

(** The key a call to the durable backend is about. *)
Definition event_key (e : event) : string :=
  match e with
  | EvGet k => k
  | EvSet k _ => k
  end.

(** Between [st] and [st'] the durable backend has been called about [key]
    only, and the durable entry of every other name is as it was. *)
Definition backend_confined (key : string) (st st' : store) : Prop :=
  (forall k, k <> key -> lookup k (storage st') = lookup k (storage st))
  /\ exists l,
       log st' = (log st ++ l)%list
       /\ Forall (fun e => event_key e = key) l.

(** No object in [v], at any depth, has a property named like a member of
    [Object.prototype]. On such a name [obj[name]] finds the inherited
    member where the object has none of its own, which [getp] does not
    represent: the statements about what an absent property reads keep to
    the other names. *)
Fixpoint plain_names (v : value) : bool :=
  match v with
  | VObj fs =>
      (fix all (l : list (string * value)) : bool :=
         match l with
         | [] => true
         | (k, x) :: r => negb (mem k inherited) && plain_names x && all r
         end) fs
  | VArr xs =>
      (fix all (l : list value) : bool :=
         match l with
         | [] => true
         | x :: r => plain_names x && all r
         end) xs
  | _ => true
  end.


(** ** Running examples: the keys of the test suite *)

Module Examples.

(** [Store.register('mock', { foo: '', _persisted: true })] *)
Definition persisted_mock : value :=
  VObj [("foo", VStr ""); ("_persisted", VBool true)].

(** [Store.register('mock', { foo: '' })] *)
Definition plain_mock : value := VObj [("foo", VStr "")].

Definition after {A : Type} (m : M A) (st : store) : store :=
  state_of (m st) st.

Definition st_persisted : store :=
  after (register "mock" persisted_mock) empty_store.

Definition st_plain : store :=
  after (register "mock" plain_mock) empty_store.

(** The persisted key before its first access, with
    [{ bar: 'also a new string' }] in durable storage. *)
Definition st_stale : store :=
  with_storage st_persisted
    [("mock", VObj [("bar", VStr "also a new string")])].



(** [Store.register('cfg', { sub: { x: '' } })] *)
Definition st_nested : store :=
  after (register "cfg" (VObj [("sub", VObj [("x", VStr "")])])) empty_store.

(** The persisted key after [Store.mock.foo = 'x']. *)
Definition st_written : store :=
  after (view_write "mock" [] "foo" (VStr "x")) st_persisted.

(** Reads and writes at several depths on the key that is not persisted,
    one of them rejected. *)
Definition plain_session : list access :=
  [ Read [] "foo"; Write [] "foo" (VStr "mock string");
    Write [] "bar" (VStr "hello"); Write [] "_cached" (VBool true);
    Read [] "foo" ].

(** [Store.register('mock', { foo: 'default', _persisted: true })] *)
Definition st_default : store :=
  after (register "mock"
           (VObj [("foo", VStr "default"); ("_persisted", VBool true)]))
    empty_store.

(** [Store.mock.foo = 'x'; Store.clearPersistentStorage();
    Store.clearCache()] *)
Definition st_cleared : store :=
  after (view_write "mock" [] "foo" (VStr "x") ;;;
         clearPersistentStorage ;;; clearCache) st_default.




(** The persisted key before its first access, with [{ foo: 5 }] in
    durable storage where the schema has a string. *)
Definition st_clash : store :=
  with_storage st_persisted [("mock", VObj [("foo", VNum 5)])].

(** The key that is not persisted after [Store.mock = { foo: 'y' }]. *)
Definition st_reassigned : store :=
  after (facade_set "mock" (VObj [("foo", VStr "y")])) st_plain.

(** Durable storage before the key is registered: [{ bar: 'also a new
    string' }] under [mock]. *)
Definition st_before : store :=
  with_storage empty_store
    [("mock", VObj [("bar", VStr "also a new string")])].

(** A persisted key whose schema leaves [a] open,
    [{ a: null, _persisted: true }], before its first access, with
    [{ a: { x: 1 } }] in durable storage. *)
Definition st_open : store :=
  with_storage
    (after (register "mock" (VObj [("a", VNull); ("_persisted", VBool true)]))
       empty_store)
    [("mock", VObj [("a", VObj [("x", VNum 1)])])].

(** [Store.register('deep', { sub: { x: 'd' }, data: [1],
    _persisted: true })] *)
Definition st_deep : store :=
  after (register "deep"
           (VObj [("sub", VObj [("x", VStr "d")]); ("data", VArr [VNum 1]);
                  ("_persisted", VBool true)])) empty_store.

(** The same key after [Store.clearCache()], durable storage holding by
    then [{ sub: { x: 's' }, data: [7, 8] }] for it. *)
Definition st_deep_cleared : store :=
  with_storage (after clearCache st_deep)
    [("deep", VObj [("sub", VObj [("x", VStr "s")]);
                    ("data", VArr [VNum 7; VNum 8])])].

End Examples.

(** * Verification *)

Import Examples.

(** ** C10: registering a name the store object already has *)

Lemma mem_In (k : string) (l : list string) : In k l -> mem k l = true.
Proof.
  intros H. unfold mem. apply existsb_exists.
  exists k. split; [exact H | apply String.eqb_refl].
Qed.

(** C10. [register(key, schema)] throws the already-defined error for every
    key that names a member of the store object itself ([register],
    [reset], [clearCache], [clearPersistentStorage], [_registeredHandlers],
    ...), in every state and for every schema, whether or not the key is in
    the handler map: the check is [_Store[key] !== undefined]. The state is
    left as it was. *)
Theorem C10_register_collides_with_store_members :
  forall (st : store) (key : string) (schema : value),
    In key builtins ->
    register key schema st = Throw st AlreadyRegistered.
Proof.
  intros st key schema Hin.
  unfold register, register_obj, store_defined.
  rewrite (mem_In _ _ Hin). reflexivity.
Qed.

Lemma C10_witness :
  In "clearCache" builtins
  /\ register "clearCache" plain_mock empty_store
     = Throw empty_store AlreadyRegistered.
Proof.
  split.
  - unfold builtins. simpl. tauto.
  - apply (C10_register_collides_with_store_members empty_store "clearCache"
             plain_mock).
    unfold builtins. simpl. tauto.
Defined.

(** ** Association lists *)

Section Assoc.
Context {A : Type}.
Implicit Types (l : list (string * A)) (k : string) (a : A).

Lemma lookup_update_same k a l : lookup k (update k a l) = Some a.
Proof.
  induction l as [|[k' a'] l IH]; simpl.
  - now rewrite String.eqb_refl.
  - destruct (String.eqb k k') eqn:E; simpl.
    + now rewrite String.eqb_refl.
    + now rewrite E.
Qed.

Lemma lookup_update_other k k' a l :
  k' <> k -> lookup k' (update k a l) = lookup k' l.
Proof.
  intros Hne. apply String.eqb_neq in Hne.
  induction l as [|[k0 a0] l IH]; simpl.
  - now rewrite Hne.
  - destruct (String.eqb k k0) eqn:E; simpl.
    + apply String.eqb_eq in E. subst k0. now rewrite Hne.
    + now rewrite IH.
Qed.

Lemma update_names k a a0 l :
  lookup k l = Some a0 -> map fst (update k a l) = map fst l.
Proof.
  induction l as [|[k' a'] l IH]; simpl; [discriminate|].
  destruct (String.eqb k k') eqn:E; simpl; intros H.
  - apply String.eqb_eq in E. now subst.
  - now rewrite IH.
Qed.

Lemma lookup_None k l : lookup k l = None <-> ~ In k (map fst l).
Proof.
  induction l as [|[k' a'] l IH]; simpl; [tauto|].
  destruct (String.eqb k k') eqn:E.
  - apply String.eqb_eq in E. subst. split; [discriminate | tauto].
  - apply String.eqb_neq in E. rewrite IH. split.
    + intros H [H1 | H1]; [now apply E | now apply H].
    + tauto.
Qed.

Lemma lookup_In k a l : lookup k l = Some a -> In (k, a) l.
Proof.
  induction l as [|[k' a'] l IH]; simpl; [discriminate|].
  destruct (String.eqb k k') eqn:E; intros H.
  - apply String.eqb_eq in E. left. congruence.
  - right. now apply IH.
Qed.

Lemma lookup_unique k a l :
  NoDup (map fst l) -> In (k, a) l -> lookup k l = Some a.
Proof.
  induction l as [|[k' a'] l IH]; simpl; [tauto|].
  intros Hnd [H | H].
  - inversion H; subst. now rewrite String.eqb_refl.
  - inversion Hnd as [|? ? Hnot Hnd']; subst.
    destruct (String.eqb k k') eqn:E.
    + apply String.eqb_eq in E. subst. exfalso. apply Hnot.
      change k' with (fst (k', a)). now apply in_map.
    + now apply IH.
Qed.

Lemma lookup_remove_same k l : lookup k (remove k l) = None.
Proof.
  induction l as [|[k' a'] l IH]; simpl; [reflexivity|].
  destruct (String.eqb k k') eqn:E; simpl; [exact IH | now rewrite E].
Qed.

Lemma lookup_remove_other k k' l :
  k' <> k -> lookup k' (remove k l) = lookup k' l.
Proof.
  intros Hne. apply String.eqb_neq in Hne.
  induction l as [|[k0 a0] l IH]; simpl; [reflexivity|].
  destruct (String.eqb k k0) eqn:E; simpl.
  - apply String.eqb_eq in E. subst k0. now rewrite Hne.
  - now rewrite IH.
Qed.

End Assoc.

Lemma nodupb_NoDup (l : list string) : nodupb l = true -> NoDup l.
Proof.
  induction l as [|a l IH]; simpl; intros H; [constructor|].
  apply andb_prop in H. destruct H as [H1 H2]. constructor.
  - intros Hin. apply mem_In in Hin. rewrite Hin in H1. discriminate.
  - now apply IH.
Qed.

(** ** The prop merger on a non-array target *)

Lemma assign_prop_obj tfs p fv rec r s :
  assign_prop (VObj tfs) p fv rec = (r, s) ->
  exists tfs',
    r = VObj tfs'
    /\ map fst tfs' = map fst tfs
    /\ (forall n, n <> p -> lookup n tfs' = lookup n tfs)
    /\ (s = Done -> forall c, lookup p tfs = Some c ->
          (is_object c = true ->
             exists c', rec c = (c', Done) /\ lookup p tfs' = Some c')
          /\ (is_object c = false -> c <> VUndef -> lookup p tfs' = Some fv)).
Proof.
  unfold assign_prop, getp. simpl.
  destruct (lookup p tfs) as [c|] eqn:Hl.
  2:{ simpl. intros H. inversion H; subst. exists tfs.
      repeat split; auto; discriminate. }
  destruct (is_undefined c) eqn:Hu.
  { intros H. inversion H; subst. exists tfs.
    split; [reflexivity|]. split; [reflexivity|]. split; [auto|].
    intros _ c0 Hc0. inversion Hc0; subst c0.
    destruct c; try discriminate. split; [discriminate | congruence]. }
  destruct (negb (is_null c) && negb (is_null fv)
            && negb (jstype_eqb (typeof c) (typeof fv))) eqn:Hm.
  { intros H. inversion H; subst. exists tfs.
    repeat split; auto; discriminate. }
  destruct (is_object c) eqn:Ho.
  - destruct (rec c) as [c' s'] eqn:Hr. simpl.
    intros H. inversion H; subst. exists (update p c' tfs).
    split; [reflexivity|]. split; [eapply update_names; eauto|].
    split; [intros n Hn; now apply lookup_update_other|].
    intros -> c0 Hc0. inversion Hc0; subst c0. split.
    + intros _. exists c'. split; [exact Hr | apply lookup_update_same].
    + congruence.
  - simpl. intros H. inversion H; subst. exists (update p fv tfs).
    split; [reflexivity|]. split; [eapply update_names; eauto|].
    split; [intros n Hn; now apply lookup_update_other|].
    intros _ c0 Hc0. inversion Hc0; subst c0. split.
    + congruence.
    + intros _ _. apply lookup_update_same.
Qed.

Lemma assign_all_obj rec l :
  NoDup (map fst l) ->
  forall tfs r s,
    assign_all rec l (VObj tfs) = (r, s) ->
    exists tfs',
      r = VObj tfs'
      /\ map fst tfs' = map fst tfs
      /\ (forall n, ~ In n (map fst l) -> lookup n tfs' = lookup n tfs)
      /\ (s = Done -> forall n fv c, In (n, fv) l -> lookup n tfs = Some c ->
            (is_object c = true ->
               exists c', rec fv c = (c', Done) /\ lookup n tfs' = Some c')
            /\ (is_object c = false -> c <> VUndef ->
                  lookup n tfs' = Some fv)).
Proof.
  induction l as [|[p fv] l IH]; intros Hnd tfs r s H; simpl in *.
  - inversion H; subst. exists tfs. repeat split; auto; contradiction.
  - destruct (assign_prop (VObj tfs) p fv (rec fv)) as [to1 s1] eqn:Hp.
    destruct (assign_prop_obj _ _ _ _ _ _ Hp) as (tfs1 & -> & Hn1 & Hf1 & Hc1).
    inversion Hnd as [|? ? Hnot Hnd']; subst.
    destruct s1.
    + destruct (IH Hnd' tfs1 r s H) as (tfs' & -> & Hn & Hf & Hc).
      exists tfs'. split; [reflexivity|]. split; [congruence|]. split.
      * intros n Hn'. rewrite Hf by tauto. apply Hf1. intros ->. tauto.
      * intros -> n fv' c [Hin | Hin] Hl.
        -- inversion Hin; subst.
           destruct (Hc1 eq_refl c Hl) as [Ha Hb].
           assert (Hk : lookup n tfs' = lookup n tfs1) by (apply Hf; exact Hnot).
           split.
           ++ intros Ho. destruct (Ha Ho) as (c' & Hr & Hl').
              exists c'. split; [exact Hr | congruence].
           ++ intros Ho Hu. rewrite Hk. auto.
        -- assert (Hne : n <> p).
           { intros ->. apply Hnot. change p with (fst (p, fv')).
             now apply in_map. }
           apply (Hc eq_refl n fv' c Hin). rewrite Hf1; auto.
    + inversion H; subst. exists tfs1. split; [reflexivity|].
      split; [exact Hn1|]. split.
      * intros n Hn'. apply Hf1. intros ->. tauto.
      * discriminate.
    + inversion H; subst. exists tfs1. split; [reflexivity|].
      split; [exact Hn1|]. split.
      * intros n Hn'. apply Hf1. intros ->. tauto.
      * discriminate.
Qed.

Lemma assign_all_app rec l1 l2 to :
  assign_all rec (l1 ++ l2) to
  = match assign_all rec l1 to with
    | (to', Done) => assign_all rec l2 to'
    | res => res
    end.
Proof.
  revert to. induction l1 as [|[p fv] l1 IH]; intros to; simpl.
  - reflexivity.
  - destruct (assign_prop to p fv (rec fv)) as [to1 [| |]]; auto.
Qed.

Lemma assign_prop_ext to p fv r1 r2 :
  (forall tv, r1 tv = r2 tv) ->
  assign_prop to p fv r1 = assign_prop to p fv r2.
Proof. intros H. unfold assign_prop. now rewrite H. Qed.

Lemma assign_all_ext r1 r2 l to :
  (forall p fv tv, In (p, fv) l -> r1 fv tv = r2 fv tv) ->
  assign_all r1 l to = assign_all r2 l to.
Proof.
  revert to. induction l as [|[p fv] l IH]; intros to H; simpl.
  - reflexivity.
  - rewrite (assign_prop_ext to p fv (r1 fv) (r2 fv)).
    + destruct (assign_prop to p fv (r2 fv)) as [t1 [| |]]; auto.
      apply IH. intros. eapply H. right. eauto.
    + intros tv. eapply H. left. reflexivity.
Qed.

Lemma assign_all_last rec p fv to :
  assign_all rec [(p, fv)] to = assign_prop to p fv (rec fv).
Proof.
  simpl. destruct (assign_prop to p fv (rec fv)) as [t1 [| |]]; reflexivity.
Qed.

Lemma indexed_from_values i l p fv :
  In (p, fv) (indexed_from i l) -> In fv l.
Proof.
  revert i. induction l as [|x l IH]; intros i; simpl; [tauto|].
  intros [H | H]; [inversion H; auto | right; eauto].
Qed.

Lemma chars_of_strings s x : In x (chars_of s) -> exists c, x = VStr c.
Proof.
  induction s as [|c s IH]; simpl; [tauto|].
  intros [H | H]; [eexists; symmetry; exact H | auto].
Qed.

(** [assignProps] is the loop over the own properties of its source. *)
Lemma assignProps_entries to from :
  match from with
  | VObj _ | VArr _ | VStr _ | VBool _ | VNum _ =>
      assignProps to from = assign_all (rec_of from) (entries from) to
  | _ => True
  end.
Proof.
  destruct from as [| | b | n | s | f | fs | ys]; trivial.
  - (* string *)
    cbn [assignProps entries].
    rewrite assign_all_app.
    assert (E : forall l i t,
      (fix loop (i : nat) (l : list value) (to : value) : value * status :=
         match l with
         | [] => (to, Done)
         | fv :: r =>
             match assign_prop to (string_of_nat i) fv
                     (fun tv => (tv, NotModelled)) with
             | (to', Done) => loop (S i) r to'
             | res => res
             end
         end) i l t
      = assign_all (fun _ tv => (tv, NotModelled)) (indexed_from i l) t).
    { induction l as [|c l IH]; intros i t; simpl; [reflexivity|].
      destruct (assign_prop t (string_of_nat i) c _) as [t1 [| |]]; auto. }
    rewrite E.
    rewrite (assign_all_ext _ (rec_of (VStr s))).
    2:{ intros p fv tv Hin. apply indexed_from_values in Hin.
        apply chars_of_strings in Hin. destruct Hin as [c ->]. reflexivity. }
    destruct (assign_all _ _ to) as [t1 [| |]]; auto.
    rewrite assign_all_last. apply assign_prop_ext. reflexivity.
  - (* object *)
    cbn [assignProps entries].
    rewrite (assign_all_ext _ (fun fv tv => assignProps tv fv))
      by reflexivity.
    revert to. induction fs as [|[p fv] fs IH]; intros to; simpl.
    + reflexivity.
    + destruct (assign_prop to p fv _) as [t1 [| |]]; auto.
  - (* array *)
    cbn [assignProps entries].
    rewrite (assign_all_ext _ (fun fv tv => assignProps tv fv))
      by reflexivity.
    rewrite assign_all_app.
    assert (E : forall l i t,
      (fix loop (i : nat) (l : list value) (to : value) : value * status :=
         match l with
         | [] => (to, Done)
         | fv :: r =>
             match assign_prop to (string_of_nat i) fv
                     (fun tv => assignProps tv fv) with
             | (to', Done) => loop (S i) r to'
             | res => res
             end
         end) i l t
      = assign_all (fun fv tv => assignProps tv fv) (indexed_from i l) t).
    { induction l as [|c l IH]; intros i t; simpl; [reflexivity|].
      destruct (assign_prop t (string_of_nat i) c _) as [t1 [| |]]; auto. }
    rewrite E.
    destruct (assign_all _ _ to) as [t1 [| |]]; auto.
    rewrite assign_all_last. apply assign_prop_ext. reflexivity.
Qed.

(** ** Array indices as property names *)

Lemma string_of_nat_inj a b : string_of_nat a = string_of_nat b -> a = b.
Proof.
  unfold string_of_nat. intros H.
  apply (f_equal NilEmpty.uint_of_string) in H.
  rewrite !NilEmpty.usu in H. inversion H as [H'].
  apply (f_equal Nat.of_uint) in H'.
  now rewrite !DecimalNat.Unsigned.of_to in H'.
Qed.

Lemma index_of_name_string_of_nat i : index_of_name (string_of_nat i) = Some i.
Proof.
  unfold index_of_name. unfold string_of_nat at 1.
  rewrite NilEmpty.usu, DecimalNat.Unsigned.of_to.
  now rewrite String.eqb_refl.
Qed.

Lemma string_of_nat_not_length i : string_of_nat i <> "length".
Proof.
  intros H. pose proof (index_of_name_string_of_nat i) as E.
  rewrite H in E. discriminate E.
Qed.

Lemma indexed_from_names i xs :
  map fst (indexed_from i xs) = map string_of_nat (seq i (List.length xs)).
Proof.
  revert i. induction xs as [|x xs IH]; intros i; simpl; [reflexivity|].
  now rewrite IH.
Qed.

Lemma indexed_names_NoDup xs n :
  NoDup (map fst (indexed_from 0 xs ++ [("length", VNum n)])).
Proof.
  rewrite map_app, indexed_from_names. simpl.
  apply NoDup_app.
  - apply Injective_map_NoDup; [|apply seq_NoDup].
    intros a b. apply string_of_nat_inj.
  - repeat constructor. simpl. tauto.
  - intros x Hin [<- | []]. apply in_map_iff in Hin.
    destruct Hin as (j & Hj & _). exact (string_of_nat_not_length j Hj).
Qed.

(** ** Decoded JSON *)

Lemma uniq_keys_names v : uniq_keys v = true -> NoDup (own_names v).
Proof.
  unfold own_names.
  destruct v as [| | b | n | s | f | fs | xs]; simpl; intros H;
    try constructor.
  - apply indexed_names_NoDup.
  - apply andb_prop in H. now apply nodupb_NoDup.
  - apply indexed_names_NoDup.
Qed.

Lemma uniq_keys_entry v p x :
  uniq_keys v = true -> In (p, x) (entries v) -> uniq_keys x = true.
Proof.
  destruct v as [| | b | n | s | f | fs | xs]; simpl; try tauto; intros H Hin.
  - apply in_app_or in Hin. destruct Hin as [Hin | [Hin | []]].
    + apply indexed_from_values, chars_of_strings in Hin.
      destruct Hin as [c ->]. reflexivity.
    + inversion Hin. reflexivity.
  - apply andb_prop in H. destruct H as [_ H].
    induction fs as [|[k y] fs IH]; simpl in *; [tauto|].
    apply andb_prop in H. destruct H as [H1 H2].
    destruct Hin as [Hin | Hin]; [inversion Hin; subst; exact H1 | auto].
  - apply in_app_or in Hin. destruct Hin as [Hin | [Hin | []]].
    + apply indexed_from_values in Hin.
      induction xs as [|y xs IH]; simpl in *; [tauto|].
      apply andb_prop in H. destruct H as [H1 H2].
      destruct Hin as [Hin | Hin]; [subst; exact H1 | auto].
    + inversion Hin. reflexivity.
Qed.

Lemma uniq_keys_getp v p : uniq_keys v = true -> uniq_keys (getp v p) = true.
Proof.
  intros H. unfold getp. destruct (lookup p (entries v)) as [x|] eqn:E.
  - apply lookup_In in E. eapply uniq_keys_entry; eauto.
  - reflexivity.
Qed.

(** ** Hydration of a non-array object, one level and in depth *)

Lemma own_names_entry from n :
  In n (own_names from) -> exists fv, In (n, fv) (entries from).
Proof.
  unfold own_names. intros H. apply in_map_iff in H.
  destruct H as ([k fv] & Hk & Hin). simpl in Hk. subst. eauto.
Qed.

Lemma getp_entry from n fv :
  NoDup (own_names from) -> In (n, fv) (entries from) -> getp from n = fv.
Proof.
  intros Hnd Hin. unfold getp. now rewrite (lookup_unique _ _ _ Hnd Hin).
Qed.

Lemma rec_of_done from fv c c' :
  rec_of from fv c = (c', Done) -> assignProps c fv = (c', Done).
Proof.
  unfold rec_of. destruct from; auto. destruct fv; auto. discriminate.
Qed.

Lemma assignProps_obj_level tfs from r :
  uniq_keys from = true ->
  assignProps (VObj tfs) from = (r, Done) ->
  exists tfs',
    r = VObj tfs'
    /\ map fst tfs' = map fst tfs
    /\ (forall n, ~ In n (own_names from) -> lookup n tfs' = lookup n tfs)
    /\ (forall n c, In n (own_names from) -> lookup n tfs = Some c ->
          is_object c = true ->
          exists c', assignProps c (getp from n) = (c', Done)
                     /\ lookup n tfs' = Some c')
    /\ (forall n c, In n (own_names from) -> lookup n tfs = Some c ->
          is_object c = false -> c <> VUndef ->
          lookup n tfs' = Some (getp from n)).
Proof.
  intros Hu H.
  assert (Hnd : NoDup (own_names from)) by now apply uniq_keys_names.
  assert (Hgen :
    assign_all (rec_of from) (entries from) (VObj tfs) = (r, Done) ->
    exists tfs',
      r = VObj tfs'
      /\ map fst tfs' = map fst tfs
      /\ (forall n, ~ In n (own_names from) -> lookup n tfs' = lookup n tfs)
      /\ (forall n c, In n (own_names from) -> lookup n tfs = Some c ->
            is_object c = true ->
            exists c', assignProps c (getp from n) = (c', Done)
                       /\ lookup n tfs' = Some c')
      /\ (forall n c, In n (own_names from) -> lookup n tfs = Some c ->
            is_object c = false -> c <> VUndef ->
            lookup n tfs' = Some (getp from n))).
  { intros Ha.
    destruct (assign_all_obj _ _ Hnd _ _ _ Ha) as (tfs' & -> & Hn & Hf & Hc).
    exists tfs'. split; [reflexivity|]. split; [exact Hn|].
    split; [exact Hf|]. split.
    - intros n c Hin Hl Ho. destruct (own_names_entry _ _ Hin) as [fv Hfv].
      destruct (Hc eq_refl n fv c Hfv Hl) as [Ha' _].
      destruct (Ha' Ho) as (c' & Hr & Hl'). exists c'.
      rewrite (getp_entry _ _ _ Hnd Hfv). split; [|exact Hl'].
      eapply rec_of_done; eauto.
    - intros n c Hin Hl Ho Hne. destruct (own_names_entry _ _ Hin) as [fv Hfv].
      destruct (Hc eq_refl n fv c Hfv Hl) as [_ Hb].
      rewrite (getp_entry _ _ _ Hnd Hfv). auto. }
  pose proof (assignProps_entries (VObj tfs) from) as E.
  destruct from as [| | b | n | s | f | fs | ys];
    try (rewrite E in H; exact (Hgen H)); try discriminate.
  simpl in H. inversion H; subst.
  exists tfs. repeat split; auto; simpl; intros; contradiction.
Qed.

Lemma src_at_undefined path : src_at VUndef path = VUndef.
Proof. induction path; simpl; auto. Qed.

Lemma sub_at_object v q path x :
  sub_at v (q :: path) = Some x ->
  exists fs c, v = VObj fs /\ lookup q fs = Some c /\ sub_at c path = Some x.
Proof.
  simpl. destruct v; try discriminate.
  destruct (lookup q fs) as [c|] eqn:E; try discriminate. eauto.
Qed.

Lemma sub_at_head_object c path fs :
  sub_at c path = Some (VObj fs) -> is_object c = true.
Proof.
  destruct path; simpl.
  - intros H. inversion H. reflexivity.
  - destruct c; try discriminate. reflexivity.
Qed.

(** The merger keeps the key set of every non-array object of the target
    and leaves alone what the source does not name. *)
Lemma assignProps_deep path :
  forall to from r,
    uniq_keys from = true ->
    assignProps to from = (r, Done) ->
    forall fs, sub_at to path = Some (VObj fs) ->
    exists fs',
      sub_at r path = Some (VObj fs')
      /\ map fst fs' = map fst fs
      /\ (forall n, ~ In n (own_names (src_at from path)) ->
            lookup n fs' = lookup n fs).
Proof.
  induction path as [|q path IH]; intros to from r Hu H fs Hs.
  - simpl in Hs. inversion Hs; subst.
    destruct (assignProps_obj_level _ _ _ Hu H) as (fs' & -> & Hn & Hf & _).
    exists fs'. simpl. auto.
  - destruct (sub_at_object _ _ _ _ Hs) as (tfs & c & -> & Hl & Hc).
    pose proof (sub_at_head_object _ _ _ Hc) as Ho.
    destruct (assignProps_obj_level _ _ _ Hu H) as (tfs' & -> & Hn & Hf & Hd & _).
    destruct (in_dec string_dec q (own_names from)) as [Hin | Hnin].
    + destruct (Hd q c Hin Hl Ho) as (c' & Hr & Hl').
      destruct (IH c (getp from q) c' (uniq_keys_getp _ q Hu) Hr fs Hc)
        as (fs' & Hs' & Hn' & Hf').
      exists fs'. simpl. rewrite Hl'. auto.
    + exists fs. simpl. rewrite (Hf q Hnin), Hl. split; [exact Hc|].
      split; [reflexivity|]. intros n _. reflexivity.
Qed.

(** ** The object behind a key *)

Lemma update_update {A : Type} k (a b : A) l :
  update k a (update k b l) = update k a l.
Proof.
  induction l as [|[k' a'] l IH]; simpl.
  - now rewrite String.eqb_refl.
  - destruct (String.eqb k k') eqn:E; simpl.
    + now rewrite String.eqb_refl.
    + now rewrite E, IH.
Qed.

Lemma root_eq key st v : root_of key st = Some v -> root key st = Ok st v.
Proof.
  unfold root_of, root. destruct (lookup key (props st)) as [[|w]|];
    try discriminate.
  - now intros ->.
  - now intros [= ->].
Qed.

Lemma set_root_eq key st v v0 :
  root_of key st = Some v0 -> set_root key v st = Ok (put_root key v st) tt.
Proof.
  unfold root_of, set_root, put_root.
  destruct (lookup key (props st)) as [[|w]|]; try discriminate; reflexivity.
Qed.

Lemma root_of_put key v st v0 :
  root_of key st = Some v0 -> root_of key (put_root key v st) = Some v.
Proof.
  unfold root_of, put_root.
  destruct (lookup key (props st)) as [[|w]|] eqn:E; try discriminate;
    intros _; simpl.
  - rewrite E. apply lookup_update_same.
  - now rewrite lookup_update_same.
Qed.

Lemma put_put key a b st :
  put_root key a (put_root key b st) = put_root key a st.
Proof.
  unfold put_root.
  destruct (lookup key (props st)) as [[|w]|] eqn:E; simpl.
  - rewrite E. unfold with_handlers. simpl. now rewrite update_update.
  - rewrite lookup_update_same. unfold with_props. simpl.
    now rewrite update_update.
  - now rewrite E.
Qed.

Lemma storage_put key v st : storage (put_root key v st) = storage st.
Proof.
  unfold put_root. now destruct (lookup key (props st)) as [[|w]|].
Qed.

Lemma log_put key v st : log (put_root key v st) = log st.
Proof.
  unfold put_root. now destruct (lookup key (props st)) as [[|w]|].
Qed.

Lemma slot_put_proxy key v st :
  lookup key (props st) = Some SProxy ->
  lookup key (props (put_root key v st)) = Some SProxy.
Proof. unfold put_root. intros E. now rewrite E. Qed.

Lemma handlers_put_raw key v st w :
  lookup key (props st) = Some (SRaw w) ->
  handlers (put_root key v st) = handlers st.
Proof. unfold put_root. intros E. now rewrite E. Qed.

Lemma root_of_add_log key e st : root_of key (add_log e st) = root_of key st.
Proof. reflexivity. Qed.


Lemma put_add_log key v e st :
  put_root key v (add_log e st) = add_log e (put_root key v st).
Proof.
  unfold put_root, add_log. simpl.
  now destruct (lookup key (props st)) as [[|w]|].
Qed.

(** ** The cache miss *)

Lemma load_eq key st h :
  root_of key st = Some h ->
  load key st =
    if cold h then
      let st2 := add_log (EvGet key) (add_log (EvGet key) st) in
      if is_undefined (stored key st) then
        match setp h "_cached" (VBool true) with
        | Some h2 => Ok (put_root key h2 (add_log (EvGet key) st)) tt
        | None => Unmodelled
        end
      else
        match snd (assignProps h (stored key st)) with
        | Done =>
            match setp (fst (assignProps h (stored key st))) "_cached"
                    (VBool true) with
            | Some h2 => Ok (put_root key h2 st2) tt
            | None => Unmodelled
            end
        | Thrown e =>
            Throw (put_root key (fst (assignProps h (stored key st))) st2) e
        | NotModelled => Unmodelled
        end
    else Ok st tt.
Proof.
  intros Hr. unfold load, bind. rewrite (root_eq _ _ _ Hr).
  destruct (cold h); [|reflexivity].
  unfold getPersistedProperty at 1.
  destruct (is_undefined (stored key st)) eqn:Hu.
  - unfold ret. rewrite (root_eq _ _ h) by exact Hr.
    destruct (setp h "_cached" (VBool true)) as [h2|]; simpl; [|reflexivity].
    now rewrite (set_root_eq _ _ _ h).
  - unfold getPersistedProperty.
    rewrite (set_root_eq _ _ _ h) by exact Hr.
    assert (E : stored key (add_log (EvGet key) st) = stored key st)
      by reflexivity.
    rewrite E.
    destruct (assignProps h (stored key st)) as [h1 [|e|]]; simpl.
    + unfold ret. erewrite root_eq by (eapply root_of_put; exact Hr).
      destruct (setp h1 "_cached" (VBool true)) as [h2|]; simpl;
        [|reflexivity].
      erewrite set_root_eq by (eapply root_of_put; exact Hr).
      now rewrite put_put.
    + reflexivity.
    + reflexivity.
Qed.

(** ** Reading the handler behind its proxy *)

Lemma getp_obj fs n :
  getp (VObj fs) n = match lookup n fs with Some x => x | None => VUndef end.
Proof. reflexivity. Qed.

Lemma lookup_names_eq {A B : Type} (l : list (string * A))
    (l' : list (string * B)) n :
  map fst l' = map fst l -> lookup n l = None -> lookup n l' = None.
Proof.
  intros E H. apply lookup_None. rewrite E. now apply lookup_None.
Qed.

Lemma cold_cached_field hfs :
  cold (VObj hfs) = true -> lookup "_cached" hfs = Some (VBool false).
Proof.
  unfold cold. rewrite !getp_obj. intros H. apply andb_prop in H.
  destruct H as [H _].
  destruct (lookup "_cached" hfs) as [[| |[|]| | | | |]|]; try discriminate.
  reflexivity.
Qed.

Lemma own_names_src_at_null path : own_names (src_at VNull path) = [].
Proof.
  destruct path as [|q path]; simpl; [reflexivity|].
  now rewrite src_at_undefined.
Qed.

Lemma root_of_proxy key st h :
  lookup key (props st) = Some SProxy ->
  lookup key (handlers st) = Some h ->
  root_of key st = Some h.
Proof. unfold root_of. now intros -> ->. Qed.

Lemma handlers_put_proxy key v st :
  lookup key (props st) = Some SProxy ->
  lookup key (handlers (put_root key v st)) = Some v.
Proof.
  unfold put_root. intros ->. simpl. apply lookup_update_same.
Qed.

Lemma view_proxy key st h :
  lookup key (props st) = Some SProxy ->
  lookup key (handlers st) = Some h ->
  view key st = Ok st tt.
Proof. unfold view. now intros -> ->. Qed.

Lemma first_trap_proxy key st :
  lookup key (props st) = Some SProxy -> first_trap key st = load key st.
Proof. unfold first_trap. now intros ->. Qed.

(** ** C7: arrays under the merger *)

Lemma lookup_indexed_in i l (tl : list (string * value)) :
  forall j, (j <= i < j + List.length l)%nat ->
    lookup (string_of_nat i) (indexed_from j l ++ tl)
    = Some (nth (i - j) l VUndef).
Proof.
  induction l as [|x l IH]; intros j Hij; simpl in *; [lia|].
  destruct (String.eqb_spec (string_of_nat i) (string_of_nat j)) as [E | E].
  - apply string_of_nat_inj in E. subst j. now rewrite Nat.sub_diag.
  - assert (i <> j) by congruence.
    rewrite IH by lia.
    replace (i - j)%nat with (S (i - S j)) by lia. reflexivity.
Qed.

Lemma lookup_indexed_out i l (tl : list (string * value)) :
  forall j, (j + List.length l <= i)%nat ->
    lookup (string_of_nat i) (indexed_from j l ++ tl)
    = lookup (string_of_nat i) tl.
Proof.
  induction l as [|x l IH]; intros j Hij; simpl in *; [reflexivity|].
  destruct (String.eqb_spec (string_of_nat i) (string_of_nat j)) as [E | E].
  - apply string_of_nat_inj in E. lia.
  - apply IH. lia.
Qed.

Lemma getp_arr_index l i : getp (VArr l) (string_of_nat i) = nth i l VUndef.
Proof.
  unfold getp. simpl.
  destruct (Nat.lt_ge_cases i (List.length l)) as [Hlt | Hge].
  - rewrite lookup_indexed_in by lia. now rewrite Nat.sub_0_r.
  - rewrite lookup_indexed_out by (simpl; lia). simpl.
    destruct (String.eqb_spec (string_of_nat i) "length") as [E | E].
    + now apply string_of_nat_not_length in E.
    + now rewrite nth_overflow.
Qed.

Lemma lookup_cons {A : Type} k k' (a : A) r :
  lookup k ((k', a) :: r) = if String.eqb k k' then Some a else lookup k r.
Proof. reflexivity. Qed.

Lemma lookup_length_indexed j l (x : value) :
  lookup "length" (indexed_from j l ++ [("length", x)]) = Some x.
Proof.
  revert j. induction l as [|y l IH]; intros j.
  - reflexivity.
  - cbn [indexed_from]. rewrite <- app_comm_cons, lookup_cons.
    destruct (String.eqb_spec "length" (string_of_nat j)) as [E | E].
    + symmetry in E. now apply string_of_nat_not_length in E.
    + apply IH.
Qed.

Lemma getp_arr_length l :
  getp (VArr l) "length" = VNum (Z.of_nat (List.length l)).
Proof. unfold getp. simpl. now rewrite lookup_length_indexed. Qed.

Lemma setp_arr_length l n :
  (n <= List.length l)%nat ->
  setp (VArr l) "length" (VNum (Z.of_nat n)) = Some (VArr (firstn n l)).
Proof.
  intros H. simpl.
  destruct (Z.leb_spec 0 (Z.of_nat n)); [|lia].
  destruct (Z.leb_spec (Z.of_nat n) (Z.of_nat (List.length l))); [|lia].
  simpl. now rewrite Nat2Z.id.
Qed.

Lemma setp_arr_index l i x :
  setp (VArr l) (string_of_nat i) x
  = if (i <? List.length l)%nat then Some (VArr (replace_nth i x l))
    else if (i =? List.length l)%nat then Some (VArr (l ++ [x]))
    else None.
Proof.
  simpl.
  destruct (String.eqb_spec (string_of_nat i) "length") as [E | E].
  - now apply string_of_nat_not_length in E.
  - now rewrite index_of_name_string_of_nat.
Qed.

Lemma nth_middle_or_end (pre suf : list value) :
  nth (List.length pre) (pre ++ suf) VUndef
  = match suf with [] => VUndef | z :: _ => z end.
Proof.
  induction pre as [|a pre IH]; simpl; [now destruct suf | exact IH].
Qed.

Lemma replace_nth_app pre x y suf :
  replace_nth (List.length pre) x (pre ++ y :: suf) = (pre ++ x :: suf)%list.
Proof. induction pre as [|a pre IH]; simpl; [reflexivity | now rewrite IH]. Qed.

Lemma assign_prop_arr_scalar l p fv rec :
  is_object (getp (VArr l) p) = false ->
  assign_prop (VArr l) p fv rec
  = match setp (VArr l) p fv with
    | Some t => (t, Done)
    | None => (VArr l, NotModelled)
    end.
Proof.
  intros H. unfold assign_prop.
  change (is_object_type (VArr l) && negb (isArray (VArr l))) with false.
  cbv zeta. cbn [andb]. now rewrite H.
Qed.

(** The loop over the elements of the source, on a target array whose
    remaining elements are no objects: each element is overwritten or
    appended. *)
Lemma assign_all_scalar_array rec rest :
  forall pre suf,
    Forall (fun x => is_object x = false) suf ->
    assign_all rec (indexed_from (List.length pre) rest) (VArr (pre ++ suf))
    = (VArr (pre ++ rest ++ skipn (List.length rest) suf), Done).
Proof.
  induction rest as [|y rest IH]; intros pre suf Hs.
  - reflexivity.
  - cbn [indexed_from assign_all].
    assert (Ho : is_object (getp (VArr (pre ++ suf))
                   (string_of_nat (List.length pre))) = false).
    { rewrite getp_arr_index, nth_middle_or_end.
      destruct suf as [|z suf]; [reflexivity|].
      now inversion Hs. }
    rewrite (assign_prop_arr_scalar _ _ _ _ Ho), setp_arr_index.
    destruct suf as [|z suf].
    + rewrite app_nil_r, Nat.ltb_irrefl, Nat.eqb_refl.
      specialize (IH (pre ++ [y])%list [] (Forall_nil _)).
      rewrite length_app in IH. cbn [List.length] in IH.
      rewrite Nat.add_1_r in IH. rewrite app_nil_r in IH. rewrite IH.
      rewrite !skipn_nil, <- !app_assoc. reflexivity.
    + inversion Hs as [|? ? Hz Hs']; subst.
      destruct (Nat.ltb_spec (List.length pre) (List.length (pre ++ z :: suf)))
        as [_ | Hlt];
        [|rewrite length_app in Hlt; cbn [List.length] in Hlt; lia].
      rewrite replace_nth_app.
      specialize (IH (pre ++ [y])%list suf Hs').
      rewrite length_app in IH. cbn [List.length] in IH.
      rewrite Nat.add_1_r in IH.
      rewrite <- !app_assoc in IH. cbn [app] in IH.
      cbn [app List.length skipn]. exact IH.
Qed.

(** A target array without object elements becomes the source array. *)
Lemma assignProps_scalar_array xs ys :
  Forall (fun x => is_object x = false) xs ->
  assignProps (VArr xs) (VArr ys) = (VArr ys, Done).
Proof.
  intros Hs.
  pose proof (assignProps_entries (VArr xs) (VArr ys)) as E.
  cbv beta iota in E. rewrite E. cbn [entries].
  rewrite assign_all_app.
  rewrite (assign_all_scalar_array _ ys [] xs Hs).
  rewrite assign_all_last.
  rewrite assign_prop_arr_scalar by (now rewrite getp_arr_length).
  rewrite app_nil_l.
  rewrite setp_arr_length by (rewrite length_app; lia).
  now rewrite firstn_app, firstn_all, Nat.sub_diag, app_nil_r.
Qed.




(** ** C2: what the structural validator rejects *)

Lemma check_prop_ext first a p bv r1 r2 :
  (forall av, r1 av = r2 av) ->
  check_prop first a p bv r1 = check_prop first a p bv r2.
Proof. intros H. unfold check_prop. now rewrite H. Qed.

Lemma validateStructure_scalar av n : validateStructure av (VNum n) = true.
Proof.
  simpl. destruct (is_undefined av || is_null av || false || false);
    [reflexivity|].
  now rewrite orb_true_r.
Qed.

(** The validator on two objects is its two passes over their own
    properties. *)
Lemma validateStructure_entries a0 b0 :
  is_object a0 = true -> is_object b0 = true ->
  validateStructure a0 b0
  = forallb (fun e => check_prop true a0 (fst e) (snd e)
                        (fun av => validateStructure av (snd e)))
      (entries b0)
    && forallb (fun e => check_prop false b0 (fst e) (snd e) (fun _ => true))
         (entries a0).
Proof.
  intros Ha Hb.
  assert (G : is_undefined a0 || is_null a0 || is_undefined b0 || is_null b0
              = false) by (destruct a0, b0; try discriminate; reflexivity).
  assert (G' : negb (is_object_type a0) || negb (is_object_type b0) = false)
    by (destruct a0, b0; try discriminate; reflexivity).
  destruct b0 as [| | | | | | fs | xs]; try discriminate.
  - cbn [validateStructure]. rewrite G, G'. f_equal. cbn [entries].
    clear. induction fs as [|[p bv] fs IH]; [reflexivity|].
    cbn [forallb fst snd]. now rewrite IH.
  - cbn [validateStructure]. rewrite G, G'. f_equal. cbn [entries].
    rewrite forallb_app. cbn [forallb fst snd]. rewrite andb_true_r. f_equal.
    + generalize 0%nat. clear. induction xs as [|bv xs IH]; intros i;
        [reflexivity|].
      cbn [indexed_from forallb fst snd]. now rewrite IH.
    + apply check_prop_ext. intros av.
      now rewrite validateStructure_scalar.
Qed.

Lemma forallb_false {A : Type} (f : A -> bool) l x :
  In x l -> f x = false -> forallb f l = false.
Proof.
  intros Hin Hf. destruct (forallb f l) eqn:E; [|reflexivity].
  rewrite forallb_forall in E. rewrite (E x Hin) in Hf. discriminate.
Qed.

Lemma type_clash_objects a b :
  type_clash a b -> is_object a = true /\ isArray a = false /\ is_object b = true.
Proof. intros H. destruct H; auto. Qed.

Lemma jstype_eqb_neq a b : a <> b -> jstype_eqb a b = false.
Proof. destruct a, b; simpl; congruence. Qed.


(** A clash of types below two objects makes [_validateStructure] throw. *)
Lemma validateStructure_clash a b :
  type_clash a b -> validateStructure a b = false.
Proof.
  induction 1 as [fs b p bv av Hb Hin Hl Hu Hna Hnb Ht
                 | fs b p bv av Hb Hin Hl Hc IH].
  - rewrite validateStructure_entries by auto.
    apply andb_false_intro1.
    apply (forallb_false _ _ (p, bv) Hin). cbn [fst snd].
    unfold check_prop. cbn [is_object_type typeof jstype_eqb isArray negb andb].
    rewrite getp_obj, Hl, Hu, Hna, Hnb. cbn [negb andb].
    now rewrite (jstype_eqb_neq _ _ Ht).
  - destruct (type_clash_objects _ _ Hc) as (Hoa & _ & Hob).
    rewrite validateStructure_entries by auto.
    apply andb_false_intro1.
    apply (forallb_false _ _ (p, bv) Hin). cbn [fst snd].
    unfold check_prop. cbn [is_object_type typeof jstype_eqb isArray negb andb].
    rewrite getp_obj, Hl.
    destruct av; try discriminate; destruct bv; try discriminate;
      cbn; exact IH.
Qed.

Lemma view_ok key st : viewable key st -> view key st = Ok st tt.
Proof.
  unfold viewable, view. intros [Hh Hs].
  destruct (lookup key (handlers st)) as [h|]; [|congruence].
  destruct (lookup key (props st)) as [[|w]|]; try tauto.
  destruct w; try discriminate; reflexivity.
Qed.

Lemma first_trap_warm key st :
  warm key st -> first_trap key st = Ok st tt.
Proof.
  unfold warm, first_trap.
  destruct (lookup key (props st)) as [[|v]|] eqn:Hp; try reflexivity.
  destruct (lookup key (handlers st)) as [h|] eqn:Hh; [|tauto].
  intros Hc. rewrite (load_eq _ _ h) by (now apply root_of_proxy).
  now rewrite Hc.
Qed.

Lemma raw_target_eq key path st r :
  root_of key st = Some r -> raw_target key path st = descend r path st.
Proof.
  intros Hr. unfold raw_target, bind. now rewrite (root_eq _ _ _ Hr).
Qed.

(** C2, as stated, fails at a scalar leaf: [_validateStructure] returns at
    once unless both values are objects, so [Store.mock.foo = 5] is
    accepted although [foo] was registered as a string. *)
Lemma C2_counterexample :
  view_write "mock" [] "foo" (VNum 5) st_plain
  = Ok (after (view_write "mock" [] "foo" (VNum 5)) st_plain) tt
  /\ typeof (VNum 5) <> typeof (getp plain_mock "foo")
  /\ view_read "mock" [] "foo"
       (after (view_write "mock" [] "foo" (VNum 5)) st_plain)
     = Ok (after (view_write "mock" [] "foo" (VNum 5)) st_plain) (VNum 5).
Proof. repeat split; try reflexivity. discriminate. Qed.

(** C2, amended. For every registered key and every path to an object of
    it, with no cache miss pending: assigning an object or array whose
    fields clash in type with those of the current non-array object at
    that place, at any depth below it, is rejected with the structure
    error, and the store is left as it was. A value that is not an object,
    or a scalar currently at the assigned path, is not checked. *)
Theorem C2_nested_type_clash_rejected :
  forall st key path p x r tgt,
    viewable key st ->
    warm key st ->
    root_of key st = Some r ->
    descend r path st = Ok st tgt ->
    type_clash (getp tgt p) x ->
    view_write key path p x st = Throw st SchemaMismatch.
Proof.
  intros st key path p x r tgt Hv Hw Hr Hd Hc.
  unfold view_write, bind.
  rewrite (view_ok _ _ Hv), (first_trap_warm _ _ Hw).
  assert (E : forall b m,
    set_layer key path p x b m st = Throw st SchemaMismatch).
  { intros b m. unfold set_layer, bind.
    rewrite (raw_target_eq _ _ _ _ Hr), Hd.
    now rewrite (validateStructure_clash _ _ Hc). }
  destruct (lookup key (props st)) as [[|v]|]; apply E.
Qed.

Lemma C2_witness :
  view_write "cfg" [] "sub" (VObj [("x", VNum 5)]) st_nested
  = Throw st_nested SchemaMismatch.
Proof.
  apply (C2_nested_type_clash_rejected st_nested "cfg" [] "sub"
           (VObj [("x", VNum 5)])
           (VObj [("sub", VObj [("x", VStr "")]); ("_cached", VBool false);
                  ("_persisted", VBool false)])
           (VObj [("sub", VObj [("x", VStr "")]); ("_cached", VBool false);
                  ("_persisted", VBool false)])).
  - split; [discriminate | exact I].
  - reflexivity.
  - reflexivity.
  - reflexivity.
  - apply (clash_here _ _ "x" (VNum 5) (VStr "")); try reflexivity.
    + simpl. tauto.
    + discriminate.
Defined.

(** ** Reading [_Store[key]] and persisting *)

Lemma root_of_with_storage key st s :
  root_of key (with_storage st s) = root_of key st.
Proof. reflexivity. Qed.

Lemma put_with_storage key v st s :
  put_root key v (with_storage st s) = with_storage (put_root key v st) s.
Proof.
  unfold put_root, with_storage. simpl.
  now destruct (lookup key (props st)) as [[|w]|].
Qed.

Lemma store_get_eq key p st fs :
  root_of key st = Some (VObj fs) ->
  warm key st ->
  store_get key p st = Ok st (getp (VObj fs) p).
Proof.
  intros Hr Hw. unfold store_get.
  pose proof (first_trap_warm _ _ Hw) as Hl. unfold first_trap in Hl.
  unfold root_of in Hr.
  destruct (lookup key (props st)) as [[|w]|] eqn:Hp; try discriminate.
  - unfold bind. rewrite Hl. rewrite (root_eq _ _ (VObj fs)); [reflexivity|].
    unfold root_of. now rewrite Hp.
  - inversion Hr; subst. reflexivity.
Qed.

Lemma json_obj fs : exists data, json (VObj fs) = Some data.
Proof. simpl. eexists. reflexivity. Qed.

Lemma persist_eq key st fs :
  root_of key st = Some (VObj fs) ->
  warm key st ->
  persist key st =
    if is_true (getp (VObj fs) "_persisted") then
      match json (strip (VObj fs)) with
      | Some data =>
          Ok (write_through key (restore (strip (VObj fs))) data st) tt
      | None => Unmodelled
      end
    else Ok st tt.
Proof.
  intros Hr Hw. unfold persist, bind.
  rewrite (store_get_eq _ _ _ _ Hr Hw).
  destruct (is_true (getp (VObj fs) "_persisted")); [|reflexivity].
  rewrite (root_eq _ _ _ Hr).
  rewrite (set_root_eq _ _ _ _ Hr).
  pose proof (root_of_put key (strip (VObj fs)) st _ Hr) as Hr1.
  rewrite (root_eq _ _ _ Hr1).
  destruct (json (strip (VObj fs))) as [data|] eqn:Hj; [|reflexivity].
  cbn [of_option ret]. unfold setPersistedProperty.
  set (st2 := add_log (EvSet key data)
                (with_storage (put_root key (strip (VObj fs)) st)
                   (update key data
                      (storage (put_root key (strip (VObj fs)) st))))).
  assert (Hr2 : root_of key st2 = Some (strip (VObj fs))) by exact Hr1.
  rewrite (root_eq _ _ _ Hr2).
  cbn [strip delp setp of_option ret].
  rewrite (set_root_eq _ _ _ _ Hr2).
  unfold write_through, st2. f_equal.
  rewrite put_add_log, put_with_storage, put_put, storage_put.
  rewrite <- put_with_storage, <- put_add_log. reflexivity.
Qed.

(** ** Assignment to [Store.key] *)

Lemma root_of_install_raw key x st :
  root_of key (with_props st (update key (SRaw x) (props st))) = Some x.
Proof. unfold root_of. simpl. now rewrite lookup_update_same. Qed.

Lemma warm_raw key st x :
  lookup key (props st) = Some (SRaw x) -> warm key st.
Proof. unfold warm. now intros ->. Qed.

Lemma slot_write_through_raw key r data st x :
  lookup key (props st) = Some (SRaw x) ->
  lookup key (props (write_through key r data st)) = Some (SRaw r)
  /\ handlers (write_through key r data st) = handlers st.
Proof.
  intros Hp. unfold write_through, put_root. simpl. rewrite Hp. simpl.
  split; [apply lookup_update_same | reflexivity].
Qed.


(** The assignment up to the comparison of the two [_persisted] flags. *)
Lemma facade_set_flag key st hfs x :
  mem key builtins || mem key inherited = false ->
  lookup key (props st) = Some SProxy ->
  lookup key (handlers st) = Some (VObj hfs) ->
  cold (VObj hfs) = false ->
  is_undefined x || is_null x = false ->
  facade_set key x st =
    let persisted := getp (VObj hfs) "_persisted" in
    ((if is_undefined (getp x "_persisted") then ret tt
      else
        match loose_eq (getp x "_persisted") persisted with
        | Some true => ret tt
        | Some false => throw ImmutableField
        | None => unmodelled
        end) ;;;
     if truthy persisted then
       x1 <- of_option (setp x "_persisted" (VBool true)) ;;
       x2 <- of_option (setp x1 "_cached" (VBool true)) ;;
       modify (fun s => with_props s (update key (SRaw x2) (props s))) ;;;
       persist key
     else
       modify (fun s => with_props s (update key (SRaw x) (props s)))) st.
Proof.
  intros Hm Hp Hh Hc Hx. unfold facade_set. rewrite Hm, Hh.
  unfold bind at 1.
  rewrite (store_get_eq key "_persisted" st hfs)
    by (try (now apply root_of_proxy); unfold warm; now rewrite Hp, Hh).
  rewrite Hx. reflexivity.
Qed.

Lemma install_persisted key xfs st :
  (x1 <- of_option (setp (VObj xfs) "_persisted" (VBool true)) ;;
   x2 <- of_option (setp x1 "_cached" (VBool true)) ;;
   modify (fun s => with_props s (update key (SRaw x2) (props s))) ;;;
   persist key) st
  = persist key
      (with_props st
         (update key
            (SRaw (VObj (update "_cached" (VBool true)
                           (update "_persisted" (VBool true) xfs))))
            (props st))).
Proof. reflexivity. Qed.

(** Persisting a value that has just been installed with both reserved
    fields set. *)
Lemma persist_installed key x st :
  match x with
  | VObj xfs =>
      let st1 :=
        with_props st
          (update key
             (SRaw (VObj (update "_cached" (VBool true)
                            (update "_persisted" (VBool true) xfs))))
             (props st)) in
      exists data r,
        persist key st1 = Ok (write_through key (VObj r) data st1) tt
        /\ lookup key (props (write_through key (VObj r) data st1))
           = Some (SRaw (VObj r))
        /\ handlers (write_through key (VObj r) data st1) = handlers st
        /\ getp (VObj r) "_cached" = VBool true
        /\ getp (VObj r) "_persisted" = VBool true
  | _ => True
  end.
Proof.
  destruct x as [| | | | | | xfs |]; trivial. cbv zeta.
  set (x2 := update "_cached" (VBool true)
               (update "_persisted" (VBool true) xfs)).
  set (st1 := with_props st (update key (SRaw (VObj x2)) (props st))).
  assert (Hp1 : lookup key (props st1) = Some (SRaw (VObj x2)))
    by (simpl; apply lookup_update_same).
  rewrite (persist_eq key st1 x2 (root_of_install_raw _ _ _))
    by (eapply warm_raw; exact Hp1).
  assert (Ht : is_true (getp (VObj x2) "_persisted") = true).
  { rewrite getp_obj. unfold x2.
    rewrite lookup_update_other by discriminate.
    now rewrite lookup_update_same. }
  rewrite Ht.
  destruct (json_obj (remove "_persisted" (remove "_cached" x2))) as [data Hj].
  cbn [strip delp]. rewrite Hj. cbn [restore].
  exists data. eexists. split; [reflexivity|].
  destruct (slot_write_through_raw key
              (VObj (update "_persisted" (VBool true)
                       (update "_cached" (VBool true)
                          (remove "_persisted" (remove "_cached" x2)))))
              data st1 _ Hp1) as [Hs Hhd].
  split; [exact Hs|]. split; [exact Hhd|]. split.
  - rewrite getp_obj. rewrite lookup_update_other by discriminate.
    now rewrite lookup_update_same.
  - rewrite getp_obj. now rewrite lookup_update_same.
Qed.

(** ** Writes through a view, with no cache miss pending *)

Lemma persist_step key st fs :
  root_of key st = Some (VObj fs) ->
  warm key st ->
  persist key st = Ok (persisted_step key st) tt.
Proof.
  intros Hr Hw. rewrite (persist_eq _ _ _ Hr Hw). unfold persisted_step.
  rewrite Hr. destruct (is_true _); [|reflexivity].
  destruct (json_obj (remove "_persisted" (remove "_cached" fs))) as [d Hd].
  cbn [strip delp]. now rewrite Hd.
Qed.

Lemma descend_state r path st :
  match descend r path st with
  | Ok st' _ => st' = st
  | Throw st' e => st' = st /\ e = JsTypeError
  | Unmodelled => True
  end.
Proof.
  revert r. induction path as [|q path IH]; intros r; simpl.
  - reflexivity.
  - destruct (is_object (getp r q)); [apply IH|].
    destruct (is_undefined (getp r q) || is_null (getp r q)); simpl; auto.
Qed.


Lemma setp_obj fs p x : setp (VObj fs) p x = Some (VObj (update p x fs)).
Proof. reflexivity. Qed.

Lemma setp_is_object v p x v' :
  is_object v = true -> setp v p x = Some v' -> is_object v' = true.
Proof.
  destruct v; try discriminate; intros _.
  - simpl. intros [= <-]. reflexivity.
  - simpl. destruct (String.eqb p "length").
    + destruct x; try discriminate.
      destruct (_ && _); [|discriminate]. intros [= <-]. reflexivity.
    + destruct (index_of_name p); [|discriminate].
      destruct (Nat.ltb _ _); [intros [= <-]; reflexivity|].
      destruct (Nat.eqb _ _); [intros [= <-]; reflexivity | discriminate].
Qed.

Lemma set_in_is_object path : forall v p x v',
  is_object v = true -> set_in v path p x = Some v' -> is_object v' = true.
Proof.
  induction path as [|q path IH]; intros v p x v' Hv; simpl.
  - now apply setp_is_object.
  - destruct (is_object (getp v q)) eqn:Hq; [|discriminate].
    destruct (set_in (getp v q) path p x) as [c|] eqn:Hc; [|discriminate].
    now apply setp_is_object.
Qed.

(** A plain write to an object leaves it an object and does not make a
    cache miss pending. *)
Lemma set_in_root fs path p x r2 :
  set_in (VObj fs) path p x = Some r2 ->
  plain_write path p = true ->
  exists fs2,
    r2 = VObj fs2
    /\ (cold (VObj fs) = false -> cold r2 = false)
    /\ (is_object (getp (VObj fs) "_persisted") = false ->
        getp r2 "_persisted" = getp (VObj fs) "_persisted").
Proof.
  destruct path as [|q path]; simpl.
  - intros [= <-] Hpl. unfold plain_write in Hpl. simpl in Hpl.
    unfold reserved in Hpl. apply negb_true_iff, orb_false_elim in Hpl.
    destruct Hpl as [H1 H2].
    apply String.eqb_neq in H1, H2.
    exists (update p x fs). split; [reflexivity|]. unfold cold.
    rewrite !getp_obj.
    rewrite !lookup_update_other by congruence. auto.
  - intros H _. destruct (is_object (getp (VObj fs) q)) eqn:Hq;
      [|discriminate].
    destruct (set_in (getp (VObj fs) q) path p x) as [c|] eqn:Hc;
      [|discriminate].
    inversion H; subst.
    pose proof (set_in_is_object _ _ _ _ _ Hq Hc) as Ho.
    exists (update q c fs). split; [reflexivity|]. unfold cold.
    rewrite !getp_obj. split.
    + destruct (String.eqb_spec q "_cached") as [-> | Hn1].
      * rewrite lookup_update_same. destruct c; try discriminate; reflexivity.
      * rewrite (lookup_update_other q "_cached") by congruence.
        destruct (String.eqb_spec q "_persisted") as [-> | Hn2].
        -- rewrite lookup_update_same. intros _.
           destruct c; try discriminate; apply andb_false_r.
        -- now rewrite (lookup_update_other q "_persisted") by congruence.
    + intros Hnp. destruct (String.eqb_spec q "_persisted") as [-> | Hn2].
      * rewrite getp_obj in Hq. congruence.
      * now rewrite lookup_update_other by congruence.
Qed.

Lemma set_layer_plain key path p x assign st rfs :
  root_of key st = Some (VObj rfs) ->
  set_layer key path p x false assign st
  = match descend (VObj rfs) path st with
    | Ok _ tgt =>
        if negb (validateStructure (getp tgt p) x) then Throw st SchemaMismatch
        else if unknown_field tgt p then Throw st InvalidAssignment
        else (assign ;;; persist key) st
    | Throw _ e => Throw st e
    | Unmodelled => Unmodelled
    end.
Proof.
  intros Hr. unfold set_layer, bind at 1.
  rewrite (raw_target_eq _ _ _ _ Hr).
  pose proof (descend_state (VObj rfs) path st) as Hd.
  destruct (descend (VObj rfs) path st) as [st' tgt | st' e |] eqn:E;
    [subst st' | destruct Hd; subst; reflexivity | reflexivity].
  destruct (negb (validateStructure (getp tgt p) x)); [reflexivity|].
  cbn [andb]. unfold bind at 1, ret. unfold bind at 1.
  rewrite (raw_target_eq _ _ _ _ Hr), E.
  destruct (unknown_field tgt p); reflexivity.
Qed.

Lemma raw_set_eq key path p x st r :
  root_of key st = Some r ->
  raw_set key path p x st
  = match set_in r path p x with
    | Some r2 => Ok (put_root key r2 st) tt
    | None => Unmodelled
    end.
Proof.
  intros Hr. unfold raw_set, bind. rewrite (root_eq _ _ _ Hr).
  destruct (set_in r path p x) as [r2|]; [|reflexivity].
  cbn [of_option ret]. apply (set_root_eq _ _ _ _ Hr).
Qed.

Lemma put_root_proxy key v st :
  lookup key (props st) = Some SProxy ->
  put_root key v st = with_handlers st (update key v (handlers st)).
Proof. unfold put_root. now intros ->. Qed.

Lemma warm_put key r2 st :
  (lookup key (props st) = Some SProxy -> cold r2 = false) ->
  warm key (put_root key r2 st).
Proof.
  intros H. unfold warm, put_root.
  destruct (lookup key (props st)) as [[|w]|] eqn:Hp; simpl.
  - rewrite Hp, lookup_update_same. now apply H.
  - now rewrite lookup_update_same.
  - now rewrite Hp.
Qed.

Lemma root_of_write_through key r data st r0 :
  root_of key st = Some r0 ->
  root_of key (write_through key r data st) = Some r.
Proof.
  intros Hr. unfold write_through. apply root_of_put with (v0 := r0).
  exact Hr.
Qed.

Lemma slot_kind_put key v st :
  match lookup key (props (put_root key v st)) with
  | Some SProxy => lookup key (props st) = Some SProxy
  | Some (SRaw _) => exists w, lookup key (props st) = Some (SRaw w)
  | None => lookup key (props st) = None
  end.
Proof.
  unfold put_root. destruct (lookup key (props st)) as [[|w]|] eqn:Hp; simpl.
  - now rewrite Hp.
  - rewrite lookup_update_same. eauto.
  - now rewrite Hp.
Qed.

Lemma cold_restore fs : cold (restore (VObj fs)) = false.
Proof.
  unfold cold. cbn [restore]. rewrite getp_obj.
  rewrite lookup_update_other by discriminate.
  now rewrite lookup_update_same.
Qed.

(** [_persist] keeps an object behind the key and leaves no cache miss
    pending. *)
Lemma persisted_step_root key st fs :
  root_of key st = Some (VObj fs) ->
  warm key st ->
  exists fs',
    root_of key (persisted_step key st) = Some (VObj fs')
    /\ warm key (persisted_step key st).
Proof.
  intros Hr Hw. unfold persisted_step. rewrite Hr.
  destruct (is_true _); [|eauto].
  destruct (json _) as [data|]; [|eauto].
  cbn [strip delp restore].
  eexists. split.
  - eapply root_of_write_through. exact Hr.
  - unfold write_through. apply warm_put. intros _.
    apply (cold_restore (remove "_persisted" (remove "_cached" fs))).
Qed.

Lemma warm_cold key st fs :
  lookup key (props st) = Some SProxy ->
  root_of key st = Some (VObj fs) ->
  warm key st -> cold (VObj fs) = false.
Proof.
  unfold warm, root_of. intros Hp. rewrite Hp. now intros ->.
Qed.

Lemma cold_touch path fs :
  cold (VObj fs) = false -> cold (touch path (VObj fs)) = false.
Proof.
  intros Hc. unfold touch.
  destruct (is_nil path && is_true (getp (VObj fs) "_persisted")); [|exact Hc].
  unfold cold. rewrite getp_obj. now rewrite lookup_update_same.
Qed.

Lemma touch_obj path fs : exists fs1, touch path (VObj fs) = VObj fs1.
Proof.
  unfold touch. destruct (_ && _); eauto.
Qed.

(** The assignment itself followed by the [_persist] of the trap that made
    it. *)
Lemma write_and_persist key path p x st fs1 :
  root_of key st = Some (VObj fs1) ->
  (lookup key (props st) = Some SProxy -> cold (VObj fs1) = false) ->
  plain_write path p = true ->
  (raw_set key path p x ;;; persist key) st
  = match set_in (VObj fs1) path p x with
    | Some r2 => Ok (persisted_step key (put_root key r2 st)) tt
    | None => Unmodelled
    end.
Proof.
  intros Hr Hc Hpl. unfold bind.
  rewrite (raw_set_eq _ _ _ _ _ _ Hr).
  destruct (set_in (VObj fs1) path p x) as [r2|] eqn:Hs; [|reflexivity].
  destruct (set_in_root _ _ _ _ _ Hs Hpl) as (fs2 & -> & Hcold & _).
  apply (persist_step _ _ fs2).
  - eapply root_of_put; exact Hr.
  - apply warm_put. intros Hp. apply Hcold. now apply Hc.
Qed.

Lemma persist_again key st fs :
  root_of key st = Some (VObj fs) ->
  warm key st ->
  persist key (persisted_step key st)
  = Ok (persisted_step key (persisted_step key st)) tt.
Proof.
  intros Hr Hw.
  destruct (persisted_step_root _ _ _ Hr Hw) as (fs' & Hr' & Hw').
  exact (persist_step _ _ _ Hr' Hw').
Qed.

Lemma plain_root p : plain_write [] p = true -> reserved p = false.
Proof. unfold plain_write. simpl. now intros H%negb_true_iff. Qed.

Lemma unknown_field_touch fs p :
  reserved p = false ->
  unknown_field (VObj (update "_cached" (VBool true) fs)) p
  = unknown_field (VObj fs) p.
Proof.
  intros Hres. unfold reserved in Hres. apply orb_false_elim in Hres.
  destruct Hres as [H1 _]. apply String.eqb_neq in H1.
  unfold unknown_field. rewrite !getp_obj.
  now rewrite lookup_update_other by exact H1.
Qed.

(** The proxy's own trap at the top level, for a property that is not
    reserved. *)
Lemma inner_root key p x st rfs :
  lookup key (props st) = Some SProxy ->
  root_of key st = Some (VObj rfs) ->
  cold (VObj rfs) = false ->
  reserved p = false ->
  validateStructure (getp (VObj rfs) p) x = true ->
  unknown_field (VObj rfs) p = false ->
  set_layer key [] p x true (raw_set key [] p x) st
  = match set_in (touch [] (VObj rfs)) [] p x with
    | Some r2 => Ok (persisted_step key (put_root key r2 st)) tt
    | None => Unmodelled
    end.
Proof.
  intros Hp Hr Hc Hres Hv Hu.
  unfold set_layer. unfold bind at 1.
  rewrite (raw_target_eq _ _ _ _ Hr). cbn [descend ret].
  rewrite Hv, Hres. cbn [negb andb].
  unfold touch. cbn [is_nil andb].
  destruct (is_true (getp (VObj rfs) "_persisted")) eqn:Ht.
  - unfold bind at 1. rewrite (raw_set_eq _ _ _ _ _ _ Hr).
    cbn [set_in setp].
    set (r1 := update "_cached" (VBool true) rfs).
    assert (Hr1 : root_of key (put_root key (VObj r1) st) = Some (VObj r1))
      by (eapply root_of_put; exact Hr).
    unfold bind at 1. rewrite (raw_target_eq _ _ _ _ Hr1). cbn [descend ret].
    unfold r1 at 1. rewrite (unknown_field_touch _ _ Hres), Hu.
    rewrite (write_and_persist key [] p x _ r1 Hr1).
    + cbn [set_in setp]. now rewrite put_put.
    + intros _. unfold cold, r1. rewrite getp_obj.
      now rewrite lookup_update_same.
    + unfold plain_write. now rewrite Hres, orb_true_r.
  - unfold bind at 1. cbn [ret]. unfold bind at 1.
    rewrite (raw_target_eq _ _ _ _ Hr). cbn [descend ret]. rewrite Hu.
    apply (write_and_persist key [] p x st rfs Hr).
    + intros _. exact Hc.
    + unfold plain_write. now rewrite Hres, orb_true_r.
Qed.

Lemma warm_then_cold_false key st fs :
  warm key st -> root_of key st = Some (VObj fs) ->
  lookup key (props st) = Some SProxy -> cold (VObj fs) = false.
Proof. intros Hw Hr Hp. eapply warm_cold; eauto. Qed.

(** A plain write through a view, with no cache miss pending: the two
    checks, then the assignment, then [_persist] once per trap. *)
Lemma view_write_warm key path p x st rfs :
  viewable key st ->
  warm key st ->
  root_of key st = Some (VObj rfs) ->
  plain_write path p = true ->
  view_write key path p x st
  = match descend (VObj rfs) path st with
    | Ok _ tgt =>
        if negb (validateStructure (getp tgt p) x) then Throw st SchemaMismatch
        else if unknown_field tgt p then Throw st InvalidAssignment
        else
          match lookup key (props st) with
          | Some SProxy =>
              match set_in (touch path (VObj rfs)) path p x with
              | Some r2 =>
                  Ok (persisted_step key
                        (persisted_step key (put_root key r2 st))) tt
              | None => Unmodelled
              end
          | _ =>
              match set_in (VObj rfs) path p x with
              | Some r2 => Ok (persisted_step key (put_root key r2 st)) tt
              | None => Unmodelled
              end
          end
    | Throw _ e => Throw st e
    | Unmodelled => Unmodelled
    end.
Proof.
  intros Hv Hw Hr Hpl. unfold view_write, bind at 1.
  rewrite (view_ok _ _ Hv). unfold bind at 1.
  rewrite (first_trap_warm _ _ Hw).
  destruct (lookup key (props st)) as [[|w]|] eqn:Hp.
  - (* behind the proxy: two traps *)
    rewrite (set_layer_plain _ _ _ _ _ _ _ Hr).
    pose proof (descend_state (VObj rfs) path st) as Hds.
    destruct (descend (VObj rfs) path st) as [st' tgt | st' e |] eqn:E;
      try reflexivity.
    subst st'.
    destruct (validateStructure (getp tgt p) x) eqn:Hval; [|reflexivity].
    cbn [negb].
    destruct (unknown_field tgt p) eqn:Hun; [reflexivity|].
    pose proof (warm_cold _ _ _ Hp Hr Hw) as Hc.
    assert (Hinner :
      set_layer key path p x (is_nil path) (raw_set key path p x) st
      = match set_in (touch path (VObj rfs)) path p x with
        | Some r2 => Ok (persisted_step key (put_root key r2 st)) tt
        | None => Unmodelled
        end).
    { destruct path as [|q path].
      - cbn [descend] in E. unfold ret in E.
        assert (tgt = VObj rfs) by congruence. subst tgt.
        apply inner_root; auto. now apply plain_root.
      - cbn [is_nil]. rewrite (set_layer_plain _ _ _ _ _ _ _ Hr), E, Hval.
        cbn [negb]. rewrite Hun.
        unfold touch. cbn [is_nil andb].
        apply (write_and_persist _ _ _ _ _ _ Hr); auto. }
    unfold bind. rewrite Hinner.
    destruct (touch_obj path rfs) as [fs1 Ht].
    destruct (set_in (touch path (VObj rfs)) path p x) as [r2|] eqn:Hs;
      [|reflexivity].
    rewrite Ht in Hs.
    destruct (set_in_root _ _ _ _ _ Hs Hpl) as (fs2 & -> & Hcold & _).
    apply (persist_again _ _ fs2).
    + eapply root_of_put; exact Hr.
    + apply warm_put. intros _. apply Hcold. rewrite <- Ht.
      now apply cold_touch.
  - (* an installed value: one trap *)
    rewrite (set_layer_plain _ _ _ _ _ _ _ Hr).
    destruct (descend (VObj rfs) path st) as [st' tgt | st' e |] eqn:E;
      try reflexivity.
    destruct (validateStructure (getp tgt p) x) eqn:Hval; [|reflexivity].
    cbn [negb].
    destruct (unknown_field tgt p) eqn:Hun; [reflexivity|].
    apply (write_and_persist _ _ _ _ _ _ Hr); auto.
    intros Hp'. congruence.
  - unfold viewable in Hv. rewrite Hp in Hv. tauto.
Qed.

(** ** The state a cache miss leaves *)

Lemma assign_all_shape rec l : forall tfs,
  exists tfs', fst (assign_all rec l (VObj tfs)) = VObj tfs'.
Proof.
  induction l as [|[p fv] l IH]; intros tfs; simpl.
  - eauto.
  - destruct (assign_prop (VObj tfs) p fv (rec fv)) as [to1 s1] eqn:Hp.
    destruct (assign_prop_obj _ _ _ _ _ _ Hp) as (tfs1 & -> & _).
    destruct s1; simpl; eauto.
Qed.

Lemma assignProps_obj_shape tfs from :
  exists tfs', fst (assignProps (VObj tfs) from) = VObj tfs'.
Proof.
  pose proof (assignProps_entries (VObj tfs) from) as E.
  destruct from; try (rewrite E; apply assign_all_shape); simpl; eauto.
Qed.

Lemma viewable_put key v st :
  viewable key st ->
  lookup key (props st) = Some SProxy ->
  viewable key (put_root key v st).
Proof.
  intros [Hh Hs] Hp. unfold viewable, put_root. rewrite Hp. simpl.
  rewrite Hp, lookup_update_same. split; [discriminate | exact I].
Qed.

(** When the first trap of a view returns, an object is behind the key, no
    cache miss is pending any more, and durable storage is as it was. *)
Lemma first_trap_result key st st1 hfs :
  viewable key st ->
  root_of key st = Some (VObj hfs) ->
  first_trap key st = Ok st1 tt ->
  viewable key st1
  /\ warm key st1
  /\ lookup key (props st1) = lookup key (props st)
  /\ storage st1 = storage st
  /\ (exists rfs, root_of key st1 = Some (VObj rfs))
  /\ (warm key st -> st1 = st).
Proof.
  intros Hv Hr Ht.
  destruct (lookup key (props st)) as [[|w]|] eqn:Hp.
  - rewrite (first_trap_proxy _ _ Hp), (load_eq _ _ _ Hr) in Ht.
    destruct (cold (VObj hfs)) eqn:Hc.
    + cbv zeta in Ht.
      assert (Hgen : forall h1fs st0 s1,
        root_of key st0 = Some (VObj hfs) ->
        lookup key (props st0) = Some SProxy ->
        viewable key st0 ->
        storage st0 = storage st ->
        s1 = put_root key (VObj (update "_cached" (VBool true) h1fs)) st0 ->
        viewable key s1 /\ warm key s1
        /\ lookup key (props s1) = Some SProxy
        /\ storage s1 = storage st
        /\ (exists rfs, root_of key s1 = Some (VObj rfs))
        /\ (warm key st -> s1 = st)).
      { intros h1fs st0 s1 Hr0 Hp0 Hv0 Hs0 ->.
        split; [now apply viewable_put|].
        split.
        { apply warm_put. intros _. unfold cold. rewrite getp_obj.
          now rewrite lookup_update_same. }
        split; [now apply slot_put_proxy|].
        split; [now rewrite storage_put|].
        split; [eexists; eapply root_of_put; exact Hr0|].
        intros Hw. pose proof (warm_cold _ _ _ Hp Hr Hw). congruence. }
      destruct (is_undefined (stored key st)).
      * cbn [setp] in Ht. inversion Ht.
        apply (Hgen hfs (add_log (EvGet key) st)); auto.
      * destruct (assignProps_obj_shape hfs (stored key st)) as [h1fs Hh1].
        destruct (snd (assignProps (VObj hfs) (stored key st)));
          try discriminate.
        rewrite Hh1 in Ht. cbn [setp] in Ht. inversion Ht.
        apply (Hgen h1fs (add_log (EvGet key) (add_log (EvGet key) st)));
          auto.
    + inversion Ht; subst st1.
      repeat split; auto; try apply Hv.
      * unfold warm. rewrite Hp. unfold root_of in Hr. rewrite Hp in Hr.
        now rewrite Hr.
      * eauto.
  - unfold first_trap in Ht. rewrite Hp in Ht. inversion Ht; subst st1.
    repeat split; auto; try apply Hv.
    + unfold warm. now rewrite Hp.
    + eauto.
  - unfold viewable in Hv. rewrite Hp in Hv. tauto.
Qed.

Lemma view_write_after_trap key path p x st st1 :
  viewable key st ->
  first_trap key st = Ok st1 tt ->
  viewable key st1 ->
  warm key st1 ->
  view_write key path p x st = view_write key path p x st1.
Proof.
  intros Hv Ht Hv1 Hw1. unfold view_write, bind.
  now rewrite (view_ok _ _ Hv), Ht, (view_ok _ _ Hv1), (first_trap_warm _ _ Hw1).
Qed.

(** ** C3: rejected writes *)




(** ** C9: keys that are not persisted *)

Lemma view_read_warm key path p st r :
  viewable key st -> warm key st -> root_of key st = Some r ->
  view_read key path p st
  = match descend r path st with
    | Ok _ tgt => Ok st (getp tgt p)
    | Throw _ e => Throw st e
    | Unmodelled => Unmodelled
    end.
Proof.
  intros Hv Hw Hr. unfold view_read, bind.
  rewrite (view_ok _ _ Hv), (first_trap_warm _ _ Hw).
  rewrite (raw_target_eq _ _ _ _ Hr).
  pose proof (descend_state r path st) as Hd.
  destruct (descend r path st) as [s tgt | s e |]; try reflexivity.
  - now subst.
  - destruct Hd. now subst.
Qed.


Lemma plain_key_facts key st :
  plain_key key st ->
  exists hfs,
    viewable key st /\ warm key st
    /\ root_of key st = Some (VObj hfs)
    /\ lookup key (props st) = Some SProxy
    /\ getp (VObj hfs) "_persisted" = VBool false.
Proof.
  intros (Hp & hfs & Hh & Hf). exists hfs.
  split; [split; [congruence | now rewrite Hp]|].
  split; [unfold warm, cold; rewrite Hp, Hh, Hf; apply andb_false_r|].
  split; [now apply root_of_proxy|]. auto.
Qed.

Lemma plain_key_put key st fs2 :
  lookup key (props st) = Some SProxy ->
  getp (VObj fs2) "_persisted" = VBool false ->
  plain_key key (put_root key (VObj fs2) st).
Proof.
  intros Hp Hf. split; [now apply slot_put_proxy|].
  exists fs2. split; [now apply handlers_put_proxy | exact Hf].
Qed.

Lemma persisted_step_plain key st :
  plain_key key st -> persisted_step key st = st.
Proof.
  intros H. destruct (plain_key_facts _ _ H) as (hfs & _ & _ & Hr & _ & Hf).
  unfold persisted_step. now rewrite Hr, Hf.
Qed.

(** [Store.key._cached = x] on a key that is not persisted. *)
Lemma view_write_cached_plain key x st hfs :
  plain_key key st ->
  root_of key st = Some (VObj hfs) ->
  match view_write key [] "_cached" x st with
  | Ok st' _ => st' = put_root key (VObj (update "_cached" x hfs)) st
  | Throw st' _ => st' = st
  | Unmodelled => True
  end.
Proof.
  intros Hk Hr.
  destruct (plain_key_facts _ _ Hk) as (hfs' & Hv & Hw & Hr' & Hp & Hf).
  assert (hfs' = hfs) by congruence. subst hfs'.
  unfold view_write, bind at 1. rewrite (view_ok _ _ Hv). unfold bind at 1.
  rewrite (first_trap_warm _ _ Hw), Hp.
  rewrite (set_layer_plain _ _ _ _ _ _ _ Hr). cbn [descend ret].
  destruct (validateStructure (getp (VObj hfs) "_cached") x) eqn:Hval;
    [|reflexivity].
  cbn [negb]. destruct (unknown_field (VObj hfs) "_cached"); [reflexivity|].
  unfold bind at 1. unfold set_layer, bind at 1.
  rewrite (raw_target_eq _ _ _ _ Hr). cbn [descend ret]. rewrite Hval.
  cbn [negb is_nil andb reserved String.eqb orb].
  change (reserved "_cached") with true. cbv iota.
  rewrite (raw_set_eq _ _ _ _ _ _ Hr). cbn [set_in setp].
  assert (Hk1 : plain_key key (put_root key (VObj (update "_cached" x hfs)) st)).
  { apply plain_key_put; [exact Hp|]. rewrite getp_obj.
    rewrite lookup_update_other by discriminate.
    now rewrite <- getp_obj. }
  destruct (plain_key_facts _ _ Hk1) as (h1 & _ & Hw1 & Hr1 & _).
  rewrite (persist_step _ _ _ Hr1 Hw1).
  now rewrite (persisted_step_plain _ _ Hk1).
Qed.

Lemma not_plain_write path p :
  plain_write path p = false -> path = [] /\ reserved p = true.
Proof.
  unfold plain_write. intros H. apply orb_false_elim in H.
  destruct H as [H1 H2]. apply negb_false_iff in H1, H2.
  destruct path; [auto | discriminate].
Qed.

(** One access that is not [Store.key._persisted = x] keeps the key as it
    is described by [plain_key], the log and durable storage. *)
Lemma plain_access_step key a st :
  plain_key key st ->
  spares_flag a = true ->
  match run_access key a st with
  | Ok st' _ | Throw st' _ =>
      plain_key key st' /\ log st' = log st /\ storage st' = storage st
  | Unmodelled => True
  end.
Proof.
  intros Hk Hsp.
  destruct (plain_key_facts _ _ Hk) as (hfs & Hv & Hw & Hr & Hp & Hf).
  destruct a as [path p | path p x]; cbn [run_access].
  - unfold bind. rewrite (view_read_warm _ _ _ _ _ Hv Hw Hr).
    destruct (descend (VObj hfs) path st); cbn [ret]; auto.
  - destruct (plain_write path p) eqn:Hpl.
    + rewrite (view_write_warm _ _ _ _ _ _ Hv Hw Hr Hpl).
      destruct (descend (VObj hfs) path st) as [s tgt | s e |]; auto.
      destruct (negb (validateStructure (getp tgt p) x)); [auto|].
      destruct (unknown_field tgt p); [auto|].
      rewrite Hp.
      assert (Ht : touch path (VObj hfs) = VObj hfs).
      { unfold touch. rewrite Hf. cbn [is_true]. now rewrite andb_false_r. }
      rewrite Ht.
      destruct (set_in (VObj hfs) path p x) as [r2|] eqn:Hs; [|exact I].
      destruct (set_in_root _ _ _ _ _ Hs Hpl) as (fs2 & -> & _ & Hflag).
      assert (Hk2 : plain_key key (put_root key (VObj fs2) st)).
      { apply plain_key_put; [exact Hp|]. rewrite Hflag; [exact Hf|].
        now rewrite Hf. }
      rewrite !(persisted_step_plain _ _ Hk2).
      split; [exact Hk2|]. now rewrite log_put, storage_put.
    + destruct (not_plain_write _ _ Hpl) as [-> Hres].
      assert (p = "_cached").
      { cbn [spares_flag is_nil andb] in Hsp.
        apply negb_true_iff in Hsp. unfold reserved in Hres.
        rewrite Hsp, orb_false_r in Hres. now apply String.eqb_eq. }
      subst p.
      pose proof (view_write_cached_plain key x st hfs Hk Hr) as Hc.
      destruct (view_write key [] "_cached" x st) as [s u | s e |];
        [subst s | subst s; auto | exact I].
      split; [|now rewrite log_put, storage_put].
      apply plain_key_put; [exact Hp|]. rewrite getp_obj.
      rewrite lookup_update_other by discriminate.
      now rewrite <- getp_obj.
Qed.

(** C9, as stated, fails: [Store.mock._persisted = true] is a property
    write through the view of a key registered without [_persisted]; the
    proxy's trap stores the flag, and the [_persist] of the view's trap then
    loads from and writes to the durable backend. *)
Lemma C9_counterexample :
  root_of "mock" st_plain
  = Some (VObj [("foo", VStr ""); ("_cached", VBool false);
                ("_persisted", VBool false)])
  /\ log st_plain = []
  /\ view_write "mock" [] "_persisted" (VBool true) st_plain
     = Ok (after (view_write "mock" [] "_persisted" (VBool true)) st_plain) tt
  /\ log (after (view_write "mock" [] "_persisted" (VBool true)) st_plain)
     = [EvGet "mock"; EvGet "mock"; EvSet "mock" (VObj [("foo", VStr "")])]
  /\ storage (after (view_write "mock" [] "_persisted" (VBool true)) st_plain)
     <> storage st_plain.
Proof. repeat split; try reflexivity. discriminate. Qed.

(** C9, amended. For every registered key that is not persisted, no
    sequence of property reads and writes at any depth on its view, none of
    them the assignment [Store.key._persisted = x] itself, invokes the
    durable backend: the log of its calls and its contents are unchanged,
    and the key is still not persisted. *)
Theorem C9_plain_key_never_touches_backend :
  forall key l st st',
    plain_key key st ->
    forallb spares_flag l = true ->
    run_all key l st = Some st' ->
    log st' = log st /\ storage st' = storage st /\ plain_key key st'.
Proof.
  intros key l. induction l as [|a l IH]; intros st st' Hk Hsp Hrun.
  - inversion Hrun; subst. auto.
  - cbn [forallb] in Hsp. apply andb_prop in Hsp. destruct Hsp as [Ha Hl].
    cbn [run_all] in Hrun.
    pose proof (plain_access_step key a st Hk Ha) as Hstep.
    destruct (run_access key a st) as [s u | s e |]; [| |discriminate];
      destruct Hstep as (Hk' & Hlog & Hsto);
      destruct (IH s st' Hk' Hl Hrun) as (H1 & H2 & H3);
      (split; [congruence|]); (split; [congruence | exact H3]).
Qed.

Lemma C9_witness :
  log (match run_all "mock" plain_session st_plain with
       | Some s => s
       | None => st_plain
       end) = log st_plain
  /\ storage (match run_all "mock" plain_session st_plain with
              | Some s => s
              | None => st_plain
              end) = storage st_plain
  /\ plain_key "mock" (match run_all "mock" plain_session st_plain with
                       | Some s => s
                       | None => st_plain
                       end).
Proof.
  apply (C9_plain_key_never_touches_backend "mock" plain_session st_plain).
  - split; [reflexivity|].
    exists [("foo", VStr ""); ("_cached", VBool false);
            ("_persisted", VBool false)].
    split; reflexivity.
  - reflexivity.
  - reflexivity.
Defined.

(** ** C1: calls to the backend's [get] *)

Lemma gets_app key l1 l2 :
  gets key (l1 ++ l2)%list = gets key l1 + gets key l2.
Proof.
  induction l1 as [|[k|k v] l1 IH]; simpl; [reflexivity | | exact IH].
  rewrite IH. lia.
Qed.

Lemma gets_two key l :
  gets key ((l ++ [EvGet key]) ++ [EvGet key])%list = gets key l + 2.
Proof.
  rewrite !gets_app. simpl. rewrite String.eqb_refl. lia.
Qed.

(** A cache miss asks the backend twice: once to see whether there is
    something, once for the data to merge. *)
Lemma first_trap_cold_log key st hfs :
  lookup key (props st) = Some SProxy ->
  root_of key st = Some (VObj hfs) ->
  cold (VObj hfs) = true ->
  is_undefined (stored key st) = false ->
  match first_trap key st with
  | Ok st1 _ | Throw st1 _ =>
      log st1 = ((log st ++ [EvGet key]) ++ [EvGet key])%list
  | Unmodelled => True
  end.
Proof.
  intros Hp Hr Hc Hu.
  rewrite (first_trap_proxy _ _ Hp), (load_eq _ _ _ Hr), Hc, Hu.
  cbv zeta.
  destruct (snd (assignProps (VObj hfs) (stored key st))); [| |exact I].
  - destruct (setp _ "_cached" (VBool true)); [|exact I].
    now rewrite log_put.
  - now rewrite log_put.
Qed.

Lemma gets_persisted_step key st :
  gets key (log (persisted_step key st)) = gets key (log st).
Proof.
  unfold persisted_step.
  destruct (root_of key st) as [[| | | | | | fs |]|]; try reflexivity.
  destruct (is_true _); [|reflexivity].
  destruct (json _); [|reflexivity].
  unfold write_through. rewrite log_put. cbn [add_log log with_storage].
  rewrite gets_app. simpl. lia.
Qed.

(** With no cache miss pending, a read or a plain write asks the backend
    nothing. *)
Lemma warm_access_gets key a st rfs :
  viewable key st -> warm key st -> root_of key st = Some (VObj rfs) ->
  match a with Read _ _ => True | Write path p _ => plain_write path p = true end ->
  match run_access key a st with
  | Ok st' _ | Throw st' _ => gets key (log st') = gets key (log st)
  | Unmodelled => True
  end.
Proof.
  intros Hv Hw Hr Hpl. destruct a as [path p | path p x]; cbn [run_access].
  - unfold bind. rewrite (view_read_warm _ _ _ _ _ Hv Hw Hr).
    destruct (descend (VObj rfs) path st); cbn [ret]; auto.
  - rewrite (view_write_warm _ _ _ _ _ _ Hv Hw Hr Hpl).
    destruct (descend (VObj rfs) path st) as [s tgt | s e |]; auto.
    destruct (negb (validateStructure (getp tgt p) x)); [auto|].
    destruct (unknown_field tgt p); [auto|].
    destruct (lookup key (props st)) as [[|w]|];
      destruct (set_in _ path p x); auto;
      rewrite !gets_persisted_step; now rewrite log_put.
Qed.

Lemma run_access_after_trap key a st st1 :
  viewable key st ->
  first_trap key st = Ok st1 tt ->
  viewable key st1 -> warm key st1 ->
  run_access key a st = run_access key a st1.
Proof.
  intros Hv Ht Hv1 Hw1. destruct a as [path p | path p x]; cbn [run_access].
  - unfold view_read, bind.
    now rewrite (view_ok _ _ Hv), Ht, (view_ok _ _ Hv1),
      (first_trap_warm _ _ Hw1).
  - now apply view_write_after_trap.
Qed.

Lemma run_access_trap_throws key a st st1 e :
  viewable key st ->
  first_trap key st = Throw st1 e ->
  run_access key a st = Throw st1 e.
Proof.
  intros Hv Ht. destruct a as [path p | path p x]; cbn [run_access].
  - unfold view_read, bind. now rewrite (view_ok _ _ Hv), Ht.
  - unfold view_write, bind. now rewrite (view_ok _ _ Hv), Ht.
Qed.

Lemma run_access_trap_unmodelled key a st :
  viewable key st ->
  first_trap key st = Unmodelled ->
  run_access key a st = Unmodelled.
Proof.
  intros Hv Ht. destruct a as [path p | path p x]; cbn [run_access].
  - unfold view_read, bind. now rewrite (view_ok _ _ Hv), Ht.
  - unfold view_write, bind. now rewrite (view_ok _ _ Hv), Ht.
Qed.

Lemma viewable_put_obj key v st :
  viewable key st -> is_object v = true -> viewable key (put_root key v st).
Proof.
  intros [Hh Hs] Hv. unfold viewable, put_root.
  destruct (lookup key (props st)) as [[|w]|] eqn:Hp; simpl.
  - rewrite Hp, lookup_update_same. split; [discriminate | exact I].
  - rewrite lookup_update_same. split; [exact Hh | exact Hv].
  - tauto.
Qed.

Lemma viewable_persisted_step key st :
  viewable key st -> viewable key (persisted_step key st).
Proof.
  intros Hv. unfold persisted_step.
  destruct (root_of key st) as [[| | | | | | fs |]|]; try exact Hv.
  destruct (is_true _); [|exact Hv].
  destruct (json _); [|exact Hv].
  unfold write_through. now apply viewable_put_obj.
Qed.

(** What a read or a plain write leaves when it returns: a key that can be
    viewed, with an object behind it and no cache miss pending. *)
Lemma warm_access_keeps key a st rfs :
  viewable key st -> warm key st -> root_of key st = Some (VObj rfs) ->
  match a with Read _ _ => True | Write path p _ => plain_write path p = true end ->
  match run_access key a st with
  | Ok st' _ =>
      viewable key st' /\ warm key st'
      /\ exists fs, root_of key st' = Some (VObj fs)
  | _ => True
  end.
Proof.
  intros Hv Hw Hr Hpl. destruct a as [path p | path p x]; cbn [run_access].
  - unfold bind. rewrite (view_read_warm _ _ _ _ _ Hv Hw Hr).
    destruct (descend (VObj rfs) path st); cbn [ret]; eauto.
  - rewrite (view_write_warm _ _ _ _ _ _ Hv Hw Hr Hpl).
    destruct (descend (VObj rfs) path st) as [s tgt | s e |]; auto.
    destruct (negb (validateStructure (getp tgt p) x)); [auto|].
    destruct (unknown_field tgt p); [auto|].
    assert (Hgen : forall fs1 r2,
      set_in (VObj fs1) path p x = Some r2 ->
      (lookup key (props st) = Some SProxy -> cold (VObj fs1) = false) ->
      exists fs2,
        viewable key (put_root key r2 st)
        /\ warm key (put_root key r2 st)
        /\ root_of key (put_root key r2 st) = Some (VObj fs2)).
    { intros fs1 r2 Hs Hc.
      destruct (set_in_root _ _ _ _ _ Hs Hpl) as (fs2 & -> & Hcold & _).
      exists fs2. split; [now apply viewable_put_obj|].
      split; [apply warm_put; auto|]. eapply root_of_put; exact Hr. }
    destruct (lookup key (props st)) as [[|w]|] eqn:Hp.
    + destruct (touch_obj path rfs) as [fs1 Ht]. rewrite Ht.
      destruct (set_in (VObj fs1) path p x) as [r2|] eqn:Hs; [|exact I].
      destruct (Hgen fs1 r2 Hs) as (fs2 & Hv2 & Hw2 & Hr2).
      { intros _. rewrite <- Ht. apply cold_touch.
        eapply warm_cold; eauto. }
      destruct (persisted_step_root _ _ _ Hr2 Hw2) as (fs3 & Hr3 & Hw3).
      destruct (persisted_step_root _ _ _ Hr3 Hw3) as (fs4 & Hr4 & Hw4).
      split; [now do 2 apply viewable_persisted_step|]. eauto.
    + destruct (set_in (VObj rfs) path p x) as [r2|] eqn:Hs; [|exact I].
      destruct (Hgen rfs r2 Hs) as (fs2 & Hv2 & Hw2 & Hr2);
        [discriminate|].
      destruct (persisted_step_root _ _ _ Hr2 Hw2) as (fs3 & Hr3 & Hw3).
      split; [now apply viewable_persisted_step|]. eauto.
    + destruct (set_in (VObj rfs) path p x) as [r2|] eqn:Hs; [|exact I].
      destruct (Hgen rfs r2 Hs) as (fs2 & Hv2 & Hw2 & Hr2);
        [discriminate|].
      destruct (persisted_step_root _ _ _ Hr2 Hw2) as (fs3 & Hr3 & Hw3).
      split; [now apply viewable_persisted_step|]. eauto.
Qed.

(** C1, as stated, fails on the count: the cache miss calls
    [_getPersistedProperty] twice, once in its condition and once for the
    data. The first read of the freshly registered persisted key makes two
    [get] calls. *)
Lemma C1_counterexample :
  gets "mock" (log st_persisted) = 0
  /\ view_read "mock" [] "foo" st_persisted
     = Ok (after (view_read "mock" [] "foo") st_persisted) (VStr "")
  /\ gets "mock" (log (after (view_read "mock" [] "foo") st_persisted)) = 2
  /\ gets "mock" (log (after (view_read "mock" [] "foo") st_persisted)) <> 1.
Proof. repeat split; try reflexivity. discriminate. Qed.

(** C1, amended. For every registered persisted key whose cache miss is
    pending (as registration and [clearCache] leave it): the first property
    read, or write other than to a reserved top-level field, performs the
    lazy load once, and that load calls [get] on the backend exactly twice,
    whether the access then returns or throws. Once the access has
    returned, every later read makes no call at all, whatever durable
    storage has become in the meantime. *)
Theorem C1_first_access_loads_once :
  forall st key hfs a,
    lookup key (props st) = Some SProxy ->
    lookup key (handlers st) = Some (VObj hfs) ->
    cold (VObj hfs) = true ->
    is_undefined (stored key st) = false ->
    match a with
    | Read _ _ => True
    | Write path p _ => plain_write path p = true
    end ->
    match run_access key a st with
    | Ok st1 _ =>
        gets key (log st1) = gets key (log st) + 2
        /\ forall sto path p,
             match view_read key path p (with_storage st1 sto) with
             | Ok st2 _ | Throw st2 _ => log st2 = log st1
             | Unmodelled => True
             end
    | Throw st1 _ => gets key (log st1) = gets key (log st) + 2
    | Unmodelled => True
    end.
Proof.
  intros st key hfs a Hp Hh Hc Hu Hpl.
  pose proof (root_of_proxy _ _ _ Hp Hh) as Hr.
  assert (Hv : viewable key st).
  { split; [congruence | now rewrite Hp]. }
  pose proof (first_trap_cold_log _ _ _ Hp Hr Hc Hu) as Hlog.
  destruct (first_trap key st) as [st1 [] | st1 e |] eqn:Ht.
  - destruct (first_trap_result _ _ _ _ Hv Hr Ht)
      as (Hv1 & Hw1 & _ & _ & (rfs & Hr1) & _).
    rewrite (run_access_after_trap _ _ _ _ Hv Ht Hv1 Hw1).
    pose proof (warm_access_gets key a st1 rfs Hv1 Hw1 Hr1 Hpl) as Hg.
    pose proof (warm_access_keeps key a st1 rfs Hv1 Hw1 Hr1 Hpl) as Hk.
    assert (Hg1 : gets key (log st1) = gets key (log st) + 2)
      by (rewrite Hlog; apply gets_two).
    destruct (run_access key a st1) as [s u | s e |]; [|congruence|exact I].
    split; [congruence|].
    intros sto path p. destruct Hk as (Hvs & Hws & fs & Hrs).
    rewrite (view_read_warm key path p (with_storage s sto) (VObj fs) Hvs Hws Hrs).
    destruct (descend (VObj fs) path (with_storage s sto)); auto.
  - rewrite (run_access_trap_throws _ _ _ _ _ Hv Ht).
    rewrite Hlog. apply gets_two.
  - now rewrite (run_access_trap_unmodelled _ _ _ Hv Ht).
Qed.

Lemma C1_witness :
  gets "mock" (log (after (run_access "mock" (Read [] "foo")) st_stale))
  = gets "mock" (log st_stale) + 2
  /\ forall sto path p,
       match view_read "mock" path p
               (with_storage
                  (after (run_access "mock" (Read [] "foo")) st_stale) sto)
       with
       | Ok st2 _ | Throw st2 _ =>
           log st2 = log (after (run_access "mock" (Read [] "foo")) st_stale)
       | Unmodelled => True
       end.
Proof.
  exact (C1_first_access_loads_once st_stale "mock"
           [("foo", VStr ""); ("_persisted", VBool true);
            ("_cached", VBool false)]
           (Read [] "foo") eq_refl eq_refl eq_refl eq_refl I).
Defined.

(** ** C8: reading back *)

Lemma sub_at_child c path tfs :
  sub_at c path = Some (VObj tfs) -> exists cfs, c = VObj cfs.
Proof.
  destruct path; simpl.
  - intros [= ->]. eauto.
  - destruct c; try discriminate. eauto.
Qed.

Lemma set_in_sub_at path : forall fs tfs p x,
  sub_at (VObj fs) path = Some (VObj tfs) ->
  exists fs2,
    set_in (VObj fs) path p x = Some (VObj fs2)
    /\ sub_at (VObj fs2) path = Some (VObj (update p x tfs)).
Proof.
  induction path as [|q path IH]; intros fs tfs p x Hs.
  - simpl in Hs. inversion Hs; subst. exists (update p x tfs). auto.
  - simpl in Hs. destruct (lookup q fs) as [c|] eqn:Hq; [|discriminate].
    destruct (sub_at_child _ _ _ Hs) as [cfs ->].
    destruct (IH cfs tfs p x Hs) as (c2 & Hset & Hsub).
    exists (update q (VObj c2) fs). split.
    + cbn [set_in]. rewrite getp_obj, Hq. cbn [is_object].
      now rewrite Hset.
    + cbn [sub_at]. now rewrite lookup_update_same.
Qed.

Lemma descend_sub_at path : forall v tgt st,
  sub_at v path = Some (VObj tgt) -> descend v path st = Ok st (VObj tgt).
Proof.
  induction path as [|q path IH]; intros v tgt st Hs.
  - simpl in Hs. inversion Hs. reflexivity.
  - simpl in Hs. destruct v; try discriminate.
    destruct (lookup q fs) as [c|] eqn:Hq; [|discriminate].
    destruct (sub_at_child _ _ _ Hs) as [cfs ->].
    cbn [descend]. rewrite getp_obj, Hq. cbn [is_object]. now apply IH.
Qed.

(** [_persist] changes nothing but the two reserved fields of the
    object. *)
Lemma persisted_step_data key st fs :
  root_of key st = Some (VObj fs) ->
  exists fs',
    root_of key (persisted_step key st) = Some (VObj fs')
    /\ forall q, reserved q = false -> lookup q fs' = lookup q fs.
Proof.
  intros Hr. unfold persisted_step. rewrite Hr.
  destruct (is_true _); [|eauto].
  destruct (json _) as [data|]; [|eauto].
  cbn [strip delp restore]. eexists. split.
  - eapply root_of_write_through. exact Hr.
  - intros q Hq. unfold reserved in Hq. apply orb_false_elim in Hq.
    destruct Hq as [H1 H2]. apply String.eqb_neq in H1, H2.
    rewrite !lookup_update_other by congruence.
    now rewrite !lookup_remove_other by congruence.
Qed.

(** Two objects with the same fields, the reserved ones apart, read the
    same along every access that does not start at a reserved field. *)
Lemma read_same_data fs fs' path p st :
  (forall q, reserved q = false -> lookup q fs' = lookup q fs) ->
  reserved (first_name path p) = false ->
  match descend (VObj fs') path st with
  | Ok _ tgt => Ok st (getp tgt p)
  | Throw _ e => Throw st e
  | Unmodelled => Unmodelled
  end
  = match descend (VObj fs) path st with
    | Ok _ tgt => Ok st (getp tgt p)
    | Throw _ e => Throw st e
    | Unmodelled => Unmodelled
    end.
Proof.
  intros Hsame Hres. destruct path as [|q path]; cbn [first_name] in Hres.
  - cbn [descend ret]. rewrite !getp_obj. now rewrite (Hsame p Hres).
  - cbn [descend]. rewrite !getp_obj. now rewrite (Hsame q Hres).
Qed.

Lemma touch_sub_at path rfs tfs :
  sub_at (VObj rfs) path = Some (VObj tfs) ->
  exists fs1 tfs1,
    touch path (VObj rfs) = VObj fs1
    /\ sub_at (VObj fs1) path = Some (VObj tfs1).
Proof.
  intros Hs. unfold touch. destruct path as [|q path].
  - destruct (is_nil [] && is_true (getp (VObj rfs) "_persisted"));
      eexists; eexists; split; reflexivity.
  - cbn [is_nil andb]. eauto.
Qed.

Lemma first_name_plain path p :
  reserved (first_name path p) = false -> plain_write path p = true.
Proof.
  unfold plain_write. destruct path as [|q path]; cbn [first_name is_nil negb].
  - now intros ->.
  - reflexivity.
Qed.

(** A plain write followed by a read of the same place, with no cache
    miss pending at the write. *)
Lemma write_then_read key path p x st rfs tfs st1 :
  viewable key st ->
  warm key st ->
  root_of key st = Some (VObj rfs) ->
  sub_at (VObj rfs) path = Some (VObj tfs) ->
  reserved (first_name path p) = false ->
  view_write key path p x st = Ok st1 tt ->
  view_read key path p st1 = Ok st1 x.
Proof.
  intros Hv Hw Hr Hs Hres Hwrite.
  pose proof (first_name_plain _ _ Hres) as Hpl.
  pose proof (warm_access_keeps key (Write path p x) st rfs Hv Hw Hr Hpl) as Hk.
  cbn [run_access] in Hk. rewrite Hwrite in Hk.
  destruct Hk as (Hv1 & Hw1 & fs4 & Hr4).
  rewrite (view_read_warm _ _ _ _ _ Hv1 Hw1 Hr4).
  rewrite (view_write_warm _ _ _ _ _ _ Hv Hw Hr Hpl) in Hwrite.
  rewrite (descend_sub_at _ _ _ st Hs) in Hwrite.
  destruct (negb (validateStructure (getp (VObj tfs) p) x)); [discriminate|].
  destruct (unknown_field (VObj tfs) p); [discriminate|].
  assert (Hgen : forall fs1 tfs1 s,
    sub_at (VObj fs1) path = Some (VObj tfs1) ->
    root_of key s = Some (VObj rfs) ->
    match set_in (VObj fs1) path p x with
    | Some r2 => exists fs2, r2 = VObj fs2
                 /\ sub_at (VObj fs2) path = Some (VObj (update p x tfs1))
    | None => False
    end).
  { intros fs1 tfs1 s Hs1 _.
    destruct (set_in_sub_at path fs1 tfs1 p x Hs1) as (fs2 & -> & Hsub).
    eauto. }
  assert (Hfin : forall fs2 tfs1,
    sub_at (VObj fs2) path = Some (VObj (update p x tfs1)) ->
    (forall q, reserved q = false -> lookup q fs4 = lookup q fs2) ->
    match descend (VObj fs4) path st1 with
    | Ok _ tgt => Ok st1 (getp tgt p)
    | Throw _ e => Throw st1 e
    | Unmodelled => Unmodelled
    end = Ok st1 x).
  { intros fs2 tfs1 Hsub Hsame.
    rewrite (read_same_data fs2 fs4 path p st1 Hsame Hres).
    rewrite (descend_sub_at _ _ _ st1 Hsub).
    rewrite getp_obj. now rewrite lookup_update_same. }
  destruct (lookup key (props st)) as [[|w]|] eqn:Hp.
  - destruct (touch_sub_at _ _ _ Hs) as (fs1 & tfs1 & Ht & Hs1).
    rewrite Ht in Hwrite.
    pose proof (Hgen fs1 tfs1 st Hs1 Hr) as Hg.
    destruct (set_in (VObj fs1) path p x) as [r2|]; [|tauto].
    destruct Hg as (fs2 & -> & Hsub).
    injection Hwrite as Hst1.
    destruct (persisted_step_data key (put_root key (VObj fs2) st) fs2)
      as (fs3 & Hr3 & Hsame3); [eapply root_of_put; exact Hr|].
    destruct (persisted_step_data key _ fs3 Hr3) as (fs4' & Hr4' & Hsame4).
    rewrite Hst1 in Hr4'. assert (fs4' = fs4) by congruence. subst fs4'.
    apply (Hfin fs2 tfs1 Hsub).
    intros q Hq. now rewrite Hsame4, Hsame3.
  - pose proof (Hgen rfs tfs st Hs Hr) as Hg.
    destruct (set_in (VObj rfs) path p x) as [r2|]; [|tauto].
    destruct Hg as (fs2 & -> & Hsub).
    injection Hwrite as Hst1.
    destruct (persisted_step_data key (put_root key (VObj fs2) st) fs2)
      as (fs3 & Hr3 & Hsame3); [eapply root_of_put; exact Hr|].
    rewrite Hst1 in Hr3. assert (fs3 = fs4) by congruence. subst fs3.
    now apply (Hfin fs2 tfs Hsub).
  - unfold viewable in Hv. rewrite Hp in Hv. tauto.
Qed.

(** ** [clearCache] *)

Lemma same_for_refl key st : same_for key st st.
Proof. repeat split. Qed.

Lemma same_for_trans key s1 s2 s3 :
  same_for key s1 s2 -> same_for key s2 s3 -> same_for key s1 s3.
Proof.
  intros (A1 & A2 & A3 & A4) (B1 & B2 & B3 & B4).
  repeat split; congruence.
Qed.

Lemma keeps_bind {A B : Type} key (m : M A) (f : A -> M B) :
  keeps (same_for key) m ->
  (forall a, keeps (same_for key) (f a)) ->
  keeps (same_for key) (bind m f).
Proof.
  intros Hm Hf st. unfold bind. specialize (Hm st).
  destruct (m st) as [s a | s e |]; auto.
  specialize (Hf a s).
  destruct (f a s) as [s' b | s' e |]; auto;
    eapply same_for_trans; eauto.
Qed.

Lemma keeps_pure {A : Type} key (m : M A) :
  (forall st, match m st with
              | Ok st' _ | Throw st' _ => st' = st
              | Unmodelled => True
              end) ->
  keeps (same_for key) m.
Proof.
  intros H st. specialize (H st).
  destruct (m st); subst; auto using same_for_refl.
Qed.

Lemma keeps_view key k : keeps (same_for key) (view k).
Proof.
  apply keeps_pure. intros st. unfold view.
  destruct (lookup k (handlers st)); auto.
  destruct (lookup k (props st)) as [[|w]|]; auto.
  destruct w; cbn [is_object]; auto.
Qed.

Lemma keeps_root key k : keeps (same_for key) (root k).
Proof.
  apply keeps_pure. intros st. unfold root.
  destruct (lookup k (props st)) as [[|w]|]; auto.
  destruct (lookup k (handlers st)); auto.
Qed.

Lemma keeps_finish key s : keeps (same_for key) (finish tt s).
Proof. apply keeps_pure. intros st. destruct s; simpl; auto. Qed.

Lemma keeps_set_root key k v :
  k <> key -> keeps (same_for key) (set_root k v).
Proof.
  intros Hne st. unfold set_root.
  destruct (lookup k (props st)) as [[|w]|]; try apply same_for_refl.
  - repeat split. simpl. now apply lookup_update_other.
  - repeat split. simpl. now apply lookup_update_other.
Qed.

Lemma keeps_register_obj key k h keep :
  k <> key ->
  (forall h', keeps (same_for key) (keep h')) ->
  keeps (same_for key) (register_obj k h keep).
Proof.
  intros Hne Hk st. unfold register_obj.
  destruct (store_defined st k); [apply same_for_refl|].
  revert st. apply keeps_bind; [apply Hk|]. intros _.
  apply keeps_bind; [apply keeps_finish|]. intros _.
  intros st. unfold install, modify. repeat split; simpl;
    now apply lookup_update_other.
Qed.

Lemma keeps_clear_one key k :
  k <> key -> keeps (same_for key) (clear_one k).
Proof.
  intros Hne. unfold clear_one.
  apply keeps_bind; [apply keeps_view|]. intros _.
  apply keeps_bind; [apply keeps_root|]. intros r.
  apply keeps_bind; [now apply keeps_set_root|]. intros _.
  apply keeps_bind.
  { intros st. unfold modify. repeat split. simpl.
    now apply lookup_remove_other. }
  intros _ st.
  destruct (lookup k (handlers st)) as [h|].
  - revert st. apply keeps_register_obj; [exact Hne|].
    intros h' st. unfold modify. repeat split. simpl.
    now apply lookup_update_other.
  - revert st. apply keeps_register_obj; [exact Hne|].
    intros h'. apply keeps_pure. reflexivity.
Qed.

Lemma setupHandler_recached fs b :
  lookup "_persisted" fs = Some (VBool b) ->
  setupHandler (VObj (remove "_cached" fs)) = (recached fs, Done).
Proof.
  intros Hb. unfold setupHandler, recached.
  cbn [is_object_type typeof jstype_eqb negb is_null].
  rewrite getp_obj, lookup_remove_same. cbn [is_undefined negb setp].
  rewrite getp_obj, lookup_update_other by discriminate.
  now rewrite lookup_remove_other, Hb by discriminate.
Qed.

(** [clearCache] on one key that is behind its proxy: the handler is
    registered again with [_cached = false] and its other fields as they
    were. *)
Lemma clear_one_self key st fs b :
  mem key builtins || mem key inherited = false ->
  lookup key (props st) = Some SProxy ->
  lookup key (handlers st) = Some (VObj fs) ->
  lookup "_persisted" fs = Some (VBool b) ->
  exists st',
    clear_one key st = Ok st' tt
    /\ lookup key (props st') = Some SProxy
    /\ lookup key (handlers st') = Some (recached fs)
    /\ storage st' = storage st
    /\ log st' = log st.
Proof.
  intros Hm Hp Hh Hb. unfold clear_one.
  unfold bind at 1. rewrite (view_proxy _ _ _ Hp Hh).
  unfold bind at 1.
  rewrite (root_eq _ _ (VObj fs)) by (now apply root_of_proxy).
  unfold bind at 1. unfold set_root. rewrite Hp.
  unfold bind at 1. unfold modify at 1.
  cbn [delp with_handlers with_props handlers props].
  rewrite lookup_update_same.
  unfold register_obj, store_defined.
  unfold with_props, with_handlers. cbn [props handlers storage log].
  rewrite lookup_remove_same, Hm. cbn [orb].
  rewrite (setupHandler_recached _ _ Hb). cbn [fst snd].
  unfold bind, modify, finish, ret, install, modify.
  eexists. split; [reflexivity|].
  unfold with_handlers. cbn [handlers props storage log].
  rewrite !lookup_update_same. auto.
Qed.

Lemma recached_fields fs :
  lookup "_cached" (update "_cached" (VBool false) (remove "_cached" fs))
  = Some (VBool false)
  /\ forall p, p <> "_cached" ->
       lookup p (update "_cached" (VBool false) (remove "_cached" fs))
       = lookup p fs.
Proof.
  split; [apply lookup_update_same|].
  intros p Hp. rewrite lookup_update_other by exact Hp.
  now apply lookup_remove_other.
Qed.

Lemma clear_all_key key hfs b l :
  mem key builtins || mem key inherited = false ->
  lookup "_persisted" hfs = Some (VBool b) ->
  forall st st2 fs,
    lookup key (props st) = Some SProxy ->
    lookup key (handlers st) = Some (VObj fs) ->
    (forall p, p <> "_cached" -> lookup p fs = lookup p hfs) ->
    forEach l clear_one st = Ok st2 tt ->
    exists fs2,
      lookup key (props st2) = Some SProxy
      /\ lookup key (handlers st2) = Some (VObj fs2)
      /\ (forall p, p <> "_cached" -> lookup p fs2 = lookup p hfs)
      /\ storage st2 = storage st
      /\ log st2 = log st
      /\ (In key l \/ lookup "_cached" fs = Some (VBool false) ->
          lookup "_cached" fs2 = Some (VBool false)).
Proof.
  intros Hm Hb. induction l as [|a l IH]; intros st st2 fs Hp Hh Hsame Hrun.
  - inversion Hrun; subst. exists fs. repeat split; auto.
    intros [[] | H]; exact H.
  - cbn [forEach] in Hrun. unfold bind in Hrun.
    destruct (clear_one a st) as [s1 [] | s1 e |] eqn:Hone;
      try discriminate.
    destruct (String.eqb_spec a key) as [-> | Hne].
    + assert (Hb' : lookup "_persisted" fs = Some (VBool b))
        by (rewrite Hsame; [exact Hb | discriminate]).
      destruct (clear_one_self key st fs b Hm Hp Hh Hb')
        as (st' & Hc & Hp' & Hh' & Hs' & Hl').
      assert (st' = s1) by congruence. subst st'.
      destruct (recached_fields fs) as [Hc1 Hc2].
      assert (Hsame' : forall p, p <> "_cached" ->
                lookup p (update "_cached" (VBool false) (remove "_cached" fs))
                = lookup p hfs).
      { intros p Hpne. rewrite Hc2 by exact Hpne. now apply Hsame. }
      destruct (IH s1 st2 _ Hp' Hh' Hsame' Hrun)
        as (fs2 & A1 & A2 & A3 & A4 & A5 & A6).
      exists fs2. repeat split; auto; try congruence.
    + pose proof (keeps_clear_one key a Hne st) as Hk. rewrite Hone in Hk.
      destruct Hk as (K1 & K2 & K3 & K4).
      assert (Hp1 : lookup key (props s1) = Some SProxy) by congruence.
      assert (Hh1 : lookup key (handlers s1) = Some (VObj fs)) by congruence.
      destruct (IH s1 st2 fs Hp1 Hh1 Hsame Hrun)
        as (fs2 & A1 & A2 & A3 & A4 & A5 & A6).
      exists fs2. repeat split; auto; try congruence.
      intros [[Heq | Hin] | Hc]; [congruence | auto | auto].
Qed.

Lemma clearCache_key key st st2 hfs b :
  mem key builtins || mem key inherited = false ->
  lookup key (props st) = Some SProxy ->
  lookup key (handlers st) = Some (VObj hfs) ->
  lookup "_persisted" hfs = Some (VBool b) ->
  clearCache st = Ok st2 tt ->
  exists fs2,
    lookup key (props st2) = Some SProxy
    /\ lookup key (handlers st2) = Some (VObj fs2)
    /\ lookup "_cached" fs2 = Some (VBool false)
    /\ (forall p, p <> "_cached" -> lookup p fs2 = lookup p hfs)
    /\ storage st2 = storage st
    /\ log st2 = log st.
Proof.
  intros Hm Hp Hh Hb Hrun. unfold clearCache in Hrun.
  destruct (clear_all_key key hfs b (registered_keys st) Hm Hb st st2 hfs
              Hp Hh (fun _ _ => eq_refl) Hrun)
    as (fs2 & A1 & A2 & A3 & A4 & A5 & A6).
  exists fs2. repeat split; auto. apply A6. left.
  unfold registered_keys. apply lookup_In in Hh.
  change key with (fst (key, VObj hfs)). now apply in_map.
Qed.

Lemma reserved_not_cached p : reserved p = false -> p <> "_cached".
Proof.
  unfold reserved. intros H. apply orb_false_elim in H.
  destruct H as [H _]. now apply String.eqb_neq.
Qed.


Lemma getp_absent v n : ~ In n (own_names v) -> getp v n = VUndef.
Proof.
  intros H. unfold getp. apply lookup_None in H. now rewrite H.
Qed.

Lemma getp_present v n x :
  getp v n = x -> x <> VUndef -> In n (own_names v).
Proof.
  intros H Hx. destruct (in_dec string_dec n (own_names v)) as [Hin | Hnin];
    [exact Hin|].
  rewrite (getp_absent _ _ Hnin) in H. congruence.
Qed.

(** What the merger makes of the fields of a non-array object of the
    target, at any depth: a field the source does not name there is left
    alone; a field that holds a scalar or [null] takes what the source has
    for it; an array without object elements becomes the source's array. *)
Lemma assignProps_deep_fields path :
  forall to from r,
    uniq_keys from = true ->
    assignProps to from = (r, Done) ->
    forall fs, sub_at to path = Some (VObj fs) ->
    exists fs',
      sub_at r path = Some (VObj fs')
      /\ (forall n, ~ In n (own_names (src_at from path)) ->
            lookup n fs' = lookup n fs)
      /\ (forall n c, In n (own_names (src_at from path)) ->
            lookup n fs = Some c -> is_object c = false -> c <> VUndef ->
            lookup n fs' = Some (getp (src_at from path) n))
      /\ (forall n xs ys, lookup n fs = Some (VArr xs) ->
            Forall (fun x => is_object x = false) xs ->
            getp (src_at from path) n = VArr ys ->
            lookup n fs' = Some (VArr ys)).
Proof.
  induction path as [|q path IH]; intros to from r Hu H fs Hs.
  - simpl in Hs. inversion Hs; subst.
    destruct (assignProps_obj_level _ _ _ Hu H)
      as (fs' & -> & _ & Hf & Hd & Hsc).
    exists fs'. simpl. split; [reflexivity|]. split; [exact Hf|].
    split; [exact Hsc|].
    intros n xs ys Hl Hxs Hg.
    assert (Hin : In n (own_names from))
      by (eapply getp_present; [exact Hg | discriminate]).
    destruct (Hd n _ Hin Hl eq_refl) as (c' & Hr & Hl').
    rewrite Hg, (assignProps_scalar_array _ _ Hxs) in Hr.
    inversion Hr; subst. exact Hl'.
  - destruct (sub_at_object _ _ _ _ Hs) as (tfs & c & -> & Hl & Hc).
    pose proof (sub_at_head_object _ _ _ Hc) as Ho.
    destruct (assignProps_obj_level _ _ _ Hu H)
      as (tfs' & -> & _ & Hf & Hd & _).
    destruct (in_dec string_dec q (own_names from)) as [Hin | Hnin].
    + destruct (Hd q c Hin Hl Ho) as (c' & Hr & Hl').
      destruct (IH c (getp from q) c' (uniq_keys_getp _ q Hu) Hr fs Hc)
        as (fs' & Hs' & A & B & C).
      exists fs'. simpl. rewrite Hl'. auto.
    + exists fs. cbn [sub_at src_at]. rewrite (Hf q Hnin), Hl.
      split; [exact Hc|].
      rewrite (getp_absent _ _ Hnin), src_at_undefined.
      split; [reflexivity|]. split.
      * intros n c0 [].
      * intros n xs ys _ _ Hg. discriminate Hg.
Qed.

(** Two objects that agree on every field but [_cached] hold the same
    object at every path that does not start at a reserved field. *)
Lemma sub_at_same_first fs fs2 path p tfs m :
  (forall n, n <> "_cached" -> lookup n fs2 = lookup n fs) ->
  reserved (first_name path p) = false ->
  sub_at (VObj fs) path = Some (VObj tfs) ->
  lookup p tfs = Some m ->
  exists tfs2,
    sub_at (VObj fs2) path = Some (VObj tfs2) /\ lookup p tfs2 = Some m.
Proof.
  intros Hsame Hres Hs Hm. destruct path as [|q path]; cbn [first_name] in Hres.
  - simpl in Hs. inversion Hs; subst tfs. exists fs2. split; [reflexivity|].
    rewrite Hsame; [exact Hm | now apply reserved_not_cached].
  - exists tfs. split; [|exact Hm]. cbn [sub_at] in *.
    rewrite Hsame; [exact Hs | now apply reserved_not_cached].
Qed.

(** The first read of a field after a cache clear, at any depth below
    non-array objects. *)
Lemma read_cold_at key path p st fs tfs m st3 v :
  lookup key (props st) = Some SProxy ->
  lookup key (handlers st) = Some (VObj fs) ->
  cold (VObj fs) = true ->
  reserved (first_name path p) = false ->
  uniq_keys (stored key st) = true ->
  sub_at (VObj fs) path = Some (VObj tfs) ->
  lookup p tfs = Some m ->
  view_read key path p st = Ok st3 v ->
  (In p (own_names (src_at (stored key st) path)) ->
   is_object m = false -> m <> VUndef ->
   v = getp (src_at (stored key st) path) p)
  /\ (forall xs ys, m = VArr xs ->
        Forall (fun x => is_object x = false) xs ->
        getp (src_at (stored key st) path) p = VArr ys ->
        v = VArr ys)
  /\ (~ In p (own_names (src_at (stored key st) path)) -> v = m).
Proof.
  intros Hp Hh Hc Hres Hu Hs Hm Hread.
  pose proof (root_of_proxy _ _ _ Hp Hh) as Hr.
  unfold view_read, bind in Hread.
  rewrite (view_proxy _ _ _ Hp Hh) in Hread. cbv beta iota in Hread.
  rewrite (first_trap_proxy _ _ Hp), (load_eq _ _ _ Hr), Hc in Hread.
  cbv beta iota zeta in Hread.
  assert (Hfin : forall fs1 tfs1 s0,
    root_of key s0 = Some (VObj fs) ->
    sub_at (VObj fs1) path = Some (VObj tfs1) ->
    (x <- raw_target key path ;; ret (getp x p))
      (put_root key (VObj (update "_cached" (VBool true) fs1)) s0)
    = Ok st3 v ->
    Some v = lookup p tfs1 \/ (lookup p tfs1 = None /\ v = VUndef)).
  { intros fs1 tfs1 s0 Hr0 Hs1 Hrd.
    destruct (lookup p tfs1) as [m1|] eqn:Hm1.
    - destruct (sub_at_same_first fs1 (update "_cached" (VBool true) fs1)
                  path p tfs1 m1) as (tfs2 & Hs2 & Hm2); auto.
      { intros n Hn. now apply lookup_update_other. }
      unfold raw_target, bind in Hrd.
      erewrite root_eq in Hrd by (eapply root_of_put; exact Hr0).
      rewrite (descend_sub_at _ _ _ _ Hs2) in Hrd. cbn [ret] in Hrd.
      inversion Hrd; subst. left. rewrite getp_obj. now rewrite Hm2.
    - right. split; [reflexivity|].
      destruct path as [|q path]; cbn [first_name] in Hres.
      + simpl in Hs1. inversion Hs1; subst tfs1.
        unfold raw_target, bind in Hrd.
        erewrite root_eq in Hrd by (eapply root_of_put; exact Hr0).
        cbn [descend ret] in Hrd. inversion Hrd; subst.
        rewrite getp_obj.
        rewrite lookup_update_other by (now apply reserved_not_cached).
        now rewrite Hm1.
      + unfold raw_target, bind in Hrd.
        erewrite root_eq in Hrd by (eapply root_of_put; exact Hr0).
        assert (Hs2 : sub_at (VObj (update "_cached" (VBool true) fs1))
                        (q :: path) = Some (VObj tfs1)).
        { cbn [sub_at] in *.
          rewrite lookup_update_other by (now apply reserved_not_cached).
          exact Hs1. }
        rewrite (descend_sub_at _ _ _ _ Hs2) in Hrd. cbn [ret] in Hrd.
        inversion Hrd; subst. rewrite getp_obj. now rewrite Hm1. }
  unfold bind in Hfin.
  destruct (is_undefined (stored key st)) eqn:Hund.
  - cbn [setp] in Hread.
    destruct (Hfin fs tfs (add_log (EvGet key) st) Hr Hs Hread)
      as [Hv | [Hn _]]; [|congruence].
    assert (v = m) by congruence. subst v.
    assert (Hsrc : src_at (stored key st) path = VUndef).
    { destruct (stored key st); try discriminate. apply src_at_undefined. }
    rewrite Hsrc. split; [intros []|]. split; [|reflexivity].
    intros xs ys _ _ Hg. discriminate Hg.
  - destruct (assignProps (VObj fs) (stored key st)) as [h1 [|e|]] eqn:Ha;
      cbn [fst snd] in Hread; try discriminate.
    destruct (assignProps_obj_level _ _ _ Hu Ha) as (fs1 & -> & _).
    destruct (assignProps_deep_fields path _ _ _ Hu Ha tfs Hs)
      as (tfs1 & Hs1 & Hframe & Hscalar & Harr).
    cbn [setp] in Hread.
    assert (Hr0 : root_of key (add_log (EvGet key) (add_log (EvGet key) st))
                  = Some (VObj fs)) by exact Hr.
    destruct (Hfin fs1 tfs1 _ Hr0 Hs1 Hread) as [Hv | [Hn Hv]].
    + split; [|split].
      * intros Hin Ho Hne. rewrite (Hscalar p m Hin Hm Ho Hne) in Hv.
        congruence.
      * intros xs ys -> Hxs Hg. rewrite (Harr p xs ys Hm Hxs Hg) in Hv.
        congruence.
      * intros Hnin. rewrite (Hframe p Hnin), Hm in Hv. congruence.
    + split; [|split].
      * intros Hin Ho Hne. rewrite (Hscalar p m Hin Hm Ho Hne) in Hn.
        discriminate.
      * intros xs ys -> Hxs Hg. rewrite (Harr p xs ys Hm Hxs Hg) in Hn.
        discriminate.
      * intros Hnin. rewrite (Hframe p Hnin), Hm in Hn. discriminate.
Qed.

(** C8, as stated, fails in its last case: [clearCache] registers the same
    handler object again, with the values it holds at that moment, so a
    field for which durable storage has nothing reads the value last
    written, not the default given at registration. After
    [Store.mock.foo = 'x'], [clearPersistentStorage()] and [clearCache()],
    durable storage holds [null] for the key and [Store.mock.foo] reads
    ['x'], where the schema said ['default']. *)
Lemma C8_counterexample :
  stored "mock" st_cleared = VNull
  /\ view_read "mock" [] "foo" st_default
     = Ok (after (view_read "mock" [] "foo") st_default) (VStr "default")
  /\ view_read "mock" [] "foo" st_cleared
     = Ok (after (view_read "mock" [] "foo") st_cleared) (VStr "x")
  /\ VStr "x" <> VStr "default".
Proof. repeat split; try reflexivity. discriminate. Qed.

(** C8, amended. (1) For every registered key and every field reached
    through non-array objects, the access not starting at a reserved field:
    when a write of [v] returns, reading the same place next returns [v].
    (2) For every persisted key behind its proxy and every field the key
    holds, at any depth below non-array objects, the access not starting at
    a reserved field: after a [clearCache] that returns, whatever durable
    storage holds by then, the next read of the field that returns gives
    what durable storage holds for the field, when the field held a scalar
    or [null] in memory, or an array without object elements and storage
    holds an array; and, when storage has nothing for the field, the value
    the field held in memory before the clear (the schema default only if
    it was never written). *)
Theorem C8_round_trip :
  (forall st key hfs st0 rfs tfs path p x st1,
     viewable key st ->
     root_of key st = Some (VObj hfs) ->
     first_trap key st = Ok st0 tt ->
     root_of key st0 = Some (VObj rfs) ->
     sub_at (VObj rfs) path = Some (VObj tfs) ->
     reserved (first_name path p) = false ->
     view_write key path p x st = Ok st1 tt ->
     view_read key path p st1 = Ok st1 x)
  /\ (forall st key hfs st2 sto path tfs p m st3 v,
        mem key builtins || mem key inherited = false ->
        lookup key (props st) = Some SProxy ->
        lookup key (handlers st) = Some (VObj hfs) ->
        lookup "_persisted" hfs = Some (VBool true) ->
        sub_at (VObj hfs) path = Some (VObj tfs) ->
        lookup p tfs = Some m ->
        reserved (first_name path p) = false ->
        clearCache st = Ok st2 tt ->
        uniq_keys (stored key (with_storage st2 sto)) = true ->
        view_read key path p (with_storage st2 sto) = Ok st3 v ->
        (In p (own_names (src_at (stored key (with_storage st2 sto)) path)) ->
         is_object m = false -> m <> VUndef ->
         v = getp (src_at (stored key (with_storage st2 sto)) path) p)
        /\ (forall xs ys, m = VArr xs ->
              Forall (fun x => is_object x = false) xs ->
              getp (src_at (stored key (with_storage st2 sto)) path) p
              = VArr ys ->
              v = VArr ys)
        /\ (~ In p (own_names (src_at (stored key (with_storage st2 sto))
                                 path)) ->
            v = m)).
Proof.
  split.
  - intros st key hfs st0 rfs tfs path p x st1 Hv Hr Ht Hr0 Hs Hres Hw.
    destruct (first_trap_result _ _ _ _ Hv Hr Ht) as (Hv0 & Hw0 & _).
    rewrite (view_write_after_trap _ _ _ _ _ _ Hv Ht Hv0 Hw0) in Hw.
    exact (write_then_read _ _ _ _ _ _ _ _ Hv0 Hw0 Hr0 Hs Hres Hw).
  - intros st key hfs st2 sto path tfs p m st3 v
      Hm Hp Hh Hb Hs Hl Hres Hclear Hu Hread.
    destruct (clearCache_key _ _ _ _ _ Hm Hp Hh Hb Hclear)
      as (fs2 & Hp2 & Hh2 & Hc2 & Hsame & _).
    assert (Hcold : cold (VObj fs2) = true).
    { unfold cold. rewrite !getp_obj, Hc2.
      rewrite Hsame by discriminate. now rewrite Hb. }
    destruct (sub_at_same_first hfs fs2 path p tfs m Hsame Hres Hs Hl)
      as (tfs2 & Hs2 & Hl2).
    exact (read_cold_at key path p (with_storage st2 sto) fs2 tfs2 m st3 v
             Hp2 Hh2 Hcold Hres Hu Hs2 Hl2 Hread).
Qed.

Lemma C8_witness :
  view_read "mock" [] "foo"
    (after (view_write "mock" [] "foo" (VStr "x")) st_default)
  = Ok (after (view_write "mock" [] "foo" (VStr "x")) st_default) (VStr "x")
  /\ view_read "deep" ["sub"] "x" st_deep_cleared
     = Ok (after (view_read "deep" ["sub"] "x") st_deep_cleared) (VStr "s")
  /\ VStr "s" = getp (src_at (stored "deep" st_deep_cleared) ["sub"]) "x"
  /\ view_read "deep" [] "data" st_deep_cleared
     = Ok (after (view_read "deep" [] "data") st_deep_cleared)
          (VArr [VNum 7; VNum 8])
  /\ (forall ys,
        getp (src_at (stored "deep" st_deep_cleared) []) "data" = VArr ys ->
        VArr [VNum 7; VNum 8] = VArr ys).
Proof.
  split; [|split; [reflexivity | split; [|split; [reflexivity|]]]].
  - apply (proj1 C8_round_trip st_default "mock"
             [("foo", VStr "default"); ("_persisted", VBool true);
              ("_cached", VBool false)]
             (after (first_trap "mock") st_default)
             [("foo", VStr "default"); ("_persisted", VBool true);
              ("_cached", VBool true)]
             [("foo", VStr "default"); ("_persisted", VBool true);
              ("_cached", VBool true)]
             [] "foo" (VStr "x")).
    + split; [discriminate | exact I].
    + reflexivity.
    + reflexivity.
    + reflexivity.
    + reflexivity.
    + reflexivity.
    + reflexivity.
  - apply (proj1 (proj2 C8_round_trip st_deep "deep"
             [("sub", VObj [("x", VStr "d")]); ("data", VArr [VNum 1]);
              ("_persisted", VBool true); ("_cached", VBool false)]
             (after clearCache st_deep) (storage st_deep_cleared)
             ["sub"] [("x", VStr "d")] "x" (VStr "d")
             (after (view_read "deep" ["sub"] "x") st_deep_cleared)
             (VStr "s")
             eq_refl eq_refl eq_refl eq_refl eq_refl eq_refl eq_refl eq_refl
             eq_refl eq_refl)).
    + simpl. tauto.
    + reflexivity.
    + discriminate.
  - intros ys.
    apply (proj1 (proj2 (proj2 C8_round_trip st_deep "deep"
             [("sub", VObj [("x", VStr "d")]); ("data", VArr [VNum 1]);
              ("_persisted", VBool true); ("_cached", VBool false)]
             (after clearCache st_deep) (storage st_deep_cleared)
             [] [("sub", VObj [("x", VStr "d")]); ("data", VArr [VNum 1]);
                 ("_persisted", VBool true); ("_cached", VBool false)]
             "data" (VArr [VNum 1])
             (after (view_read "deep" [] "data") st_deep_cleared)
             (VArr [VNum 7; VNum 8])
             eq_refl eq_refl eq_refl eq_refl eq_refl eq_refl eq_refl eq_refl
             eq_refl eq_refl)) [VNum 1] ys eq_refl).
    repeat constructor.
Defined.

(** ** C5: the [_persisted] flag *)



Lemma names_remove {A : Type} k (l : list (string * A)) n :
  In n (map fst (remove k l)) -> In n (map fst l) /\ n <> k.
Proof.
  induction l as [|[k' a] l IH]; simpl; [tauto|].
  destruct (String.eqb_spec k k') as [-> | Hne]; simpl.
  - intros H. destruct (IH H). tauto.
  - intros [<- | H]; [split; [tauto | congruence]|].
    destruct (IH H). tauto.
Qed.






































(** ** C4: what a whole-key assignment checks *)






(** ** Registration: the state it leaves *)

Lemma register_eq key h st :
  store_defined st key = false ->
  register key h st
  = match snd (setupHandler h) with
    | Done =>
        Ok (mkStore (update key (fst (setupHandler h)) (handlers st))
              (update key SProxy (props st)) (storage st) (log st)) tt
    | Thrown e => Throw st e
    | NotModelled => Unmodelled
    end.
Proof.
  intros Hfree. unfold register, register_obj. rewrite Hfree.
  unfold bind, ret. destruct (snd (setupHandler h)); reflexivity.
Qed.

Lemma setupHandler_obj fs :
  setupHandler (VObj fs)
  = if negb (is_undefined (getp (VObj fs) "_cached"))
    then (VObj fs, Thrown ReservedField)
    else
      match getp (VObj fs) "_persisted" with
      | VUndef =>
          (VObj (update "_persisted" (VBool false)
                   (update "_cached" (VBool false) fs)), Done)
      | VBool _ => (VObj (update "_cached" (VBool false) fs), Done)
      | _ => (VObj (update "_cached" (VBool false) fs), Thrown ReservedField)
      end.
Proof.
  unfold setupHandler. cbn [is_object_type typeof jstype_eqb negb is_null].
  destruct (negb (is_undefined (getp (VObj fs) "_cached"))); [reflexivity|].
  rewrite setp_obj. rewrite !getp_obj.
  rewrite lookup_update_other by discriminate.
  destruct (lookup "_persisted" fs) as [[]|]; reflexivity.
Qed.

Lemma is_undefined_eq v : is_undefined v = true <-> v = VUndef.
Proof. destruct v; simpl; split; congruence. Qed.

(** ** C6: hydration *)

Lemma register_persisted_ok key sfs st st0 :
  lookup "_persisted" sfs = Some (VBool true) ->
  register key (VObj sfs) st = Ok st0 tt ->
  is_undefined (getp (VObj sfs) "_cached") = true
  /\ st0 = mkStore
             (update key (VObj (update "_cached" (VBool false) sfs))
                (handlers st))
             (update key SProxy (props st)) (storage st) (log st).
Proof.
  intros Hp H.
  destruct (store_defined st key) eqn:Hfree.
  { unfold register, register_obj in H. rewrite Hfree in H. discriminate. }
  rewrite (register_eq _ _ _ Hfree), setupHandler_obj in H.
  destruct (is_undefined (getp (VObj sfs) "_cached")); [|discriminate].
  cbn [negb] in H. rewrite getp_obj, Hp in H. cbn [fst snd] in H.
  split; [reflexivity | congruence].
Qed.

(** What a successful cache miss makes of the handler [h]: the merged
    object [h1], then [_cached = true]. Every non-array object of the
    handler keeps its fields; the fields the source does not name keep
    their values; the fields that hold a scalar or [null] take what the
    source has for them. *)
Lemma hydrated_fields h from h1 h2 :
  cold h = true ->
  uniq_keys from = true ->
  assignProps h from = (h1, Done) ->
  setp h1 "_cached" (VBool true) = Some h2 ->
  forall path fs, sub_at h path = Some (VObj fs) ->
    exists fs',
      sub_at h2 path = Some (VObj fs')
      /\ map fst fs' = map fst fs
      /\ (forall n, (path = [] -> n <> "_cached") ->
            ~ In n (own_names (src_at from path)) ->
            lookup n fs' = lookup n fs)
      /\ (forall n c, (path = [] -> n <> "_cached") ->
            In n (own_names (src_at from path)) ->
            lookup n fs = Some c -> is_object c = false -> c <> VUndef ->
            lookup n fs' = Some (getp (src_at from path) n)).
Proof.
  intros Hc Hu Ha Hs path fs Hp.
  assert (Hobj : exists hfs, h = VObj hfs).
  { destruct path; simpl in Hp.
    - inversion Hp. eauto.
    - destruct h; try discriminate. eauto. }
  destruct Hobj as [hfs ->].
  pose proof (cold_cached_field _ Hc) as Hcf.
  destruct (assignProps_deep [] _ _ _ Hu Ha hfs eq_refl)
    as (hfs1 & E1 & Hn1 & _).
  simpl in E1. inversion E1; subst h1. simpl in Hs. inversion Hs; subst h2.
  assert (Hc1 : exists c, lookup "_cached" hfs1 = Some c).
  { destruct (lookup "_cached" hfs1) as [c|] eqn:E; [eauto|].
    apply (lookup_names_eq hfs1 hfs) in E; [congruence | now symmetry]. }
  destruct Hc1 as [c1 Hc1].
  destruct (assignProps_deep path _ _ _ Hu Ha fs Hp) as (fs1 & Hs1 & Hnm & _).
  destruct (assignProps_deep_fields path _ _ _ Hu Ha fs Hp)
    as (fs1' & Hs1' & Hf & Hsc & _).
  assert (fs1' = fs1) by congruence. subst fs1'.
  destruct path as [|q path].
  - simpl in Hs1, Hp. inversion Hs1; inversion Hp; subst.
    exists (update "_cached" (VBool true) fs1). simpl.
    split; [reflexivity|].
    split; [rewrite (update_names _ _ _ _ Hc1); exact Hnm|].
    split.
    + intros n Hne Hn. rewrite lookup_update_other by (now apply Hne).
      now apply Hf.
    + intros n c Hne Hin Hl Ho Hu'.
      rewrite lookup_update_other by (now apply Hne).
      now apply (Hsc n c).
  - exists fs1.
    assert (Hq : q <> "_cached").
    { intros ->. simpl in Hp. rewrite Hcf in Hp.
      destruct path; simpl in Hp; discriminate. }
    split.
    + simpl. rewrite lookup_update_other by exact Hq. exact Hs1.
    + split; [exact Hnm|]. split.
      * intros n _ Hn. now apply Hf.
      * intros n c _ Hin Hl Ho Hu'. now apply (Hsc n c).
Qed.

(** The first read of a key whose cache miss is pending: the state it
    leaves and the handler in it. *)
Lemma first_read_hydrates key st hfs p st' x :
  lookup key (props st) = Some SProxy ->
  lookup key (handlers st) = Some (VObj hfs) ->
  cold (VObj hfs) = true ->
  uniq_keys (stored key st) = true ->
  view_read key [] p st = Ok st' x ->
  exists h',
    lookup key (handlers st') = Some h'
    /\ lookup key (props st') = Some SProxy
    /\ cold h' = false
    /\ forall path fs, sub_at (VObj hfs) path = Some (VObj fs) ->
         exists fs',
           sub_at h' path = Some (VObj fs')
           /\ map fst fs' = map fst fs
           /\ (forall n, (path = [] -> n <> "_cached") ->
                 ~ In n (own_names (src_at (stored key st) path)) ->
                 lookup n fs' = lookup n fs)
           /\ (forall n c, (path = [] -> n <> "_cached") ->
                 In n (own_names (src_at (stored key st) path)) ->
                 lookup n fs = Some c -> is_object c = false -> c <> VUndef ->
                 lookup n fs' = Some (getp (src_at (stored key st) path) n)).
Proof.
  intros Hp Hh Hc Hu Hread.
  pose proof (root_of_proxy _ _ _ Hp Hh) as Hr.
  unfold view_read, bind in Hread.
  rewrite (view_proxy _ _ _ Hp Hh) in Hread. cbv beta iota in Hread.
  rewrite (first_trap_proxy _ _ Hp), (load_eq _ _ _ Hr), Hc in Hread.
  cbv beta iota zeta in Hread.
  assert (Hgen : forall from h1fs s0,
    lookup key (props s0) = Some SProxy ->
    uniq_keys from = true ->
    (forall path, own_names (src_at from path)
                  = own_names (src_at (stored key st) path)) ->
    (forall path n, In n (own_names (src_at from path)) ->
       getp (src_at from path) n = getp (src_at (stored key st) path) n) ->
    assignProps (VObj hfs) from = (VObj h1fs, Done) ->
    st' = put_root key (VObj (update "_cached" (VBool true) h1fs)) s0 ->
    exists h',
      lookup key (handlers st') = Some h'
      /\ lookup key (props st') = Some SProxy
      /\ cold h' = false
      /\ forall path fs, sub_at (VObj hfs) path = Some (VObj fs) ->
           exists fs',
             sub_at h' path = Some (VObj fs')
             /\ map fst fs' = map fst fs
             /\ (forall n, (path = [] -> n <> "_cached") ->
                   ~ In n (own_names (src_at (stored key st) path)) ->
                   lookup n fs' = lookup n fs)
             /\ (forall n c, (path = [] -> n <> "_cached") ->
                   In n (own_names (src_at (stored key st) path)) ->
                   lookup n fs = Some c -> is_object c = false ->
                   c <> VUndef ->
                   lookup n fs'
                   = Some (getp (src_at (stored key st) path) n))).
  { intros from h1fs s0 Hp0 Hu0 Hnames Hvals Ha ->.
    exists (VObj (update "_cached" (VBool true) h1fs)).
    split; [now apply handlers_put_proxy|].
    split; [now apply slot_put_proxy|].
    split.
    { unfold cold. rewrite getp_obj. now rewrite lookup_update_same. }
    intros path fs Hs.
    destruct (hydrated_fields (VObj hfs) from (VObj h1fs) _ Hc Hu0 Ha eq_refl
                path fs Hs) as (fs' & A & B & C & D).
    exists fs'. split; [exact A|]. split; [exact B|]. split.
    - intros n Hne Hn. apply C; [exact Hne|]. now rewrite Hnames.
    - intros n c Hne Hin Hl Ho Hu'.
      rewrite <- (Hvals path n) by (now rewrite Hnames).
      apply (D n c); auto. now rewrite Hnames. }
  destruct (is_undefined (stored key st)) eqn:Hund.
  - cbn [setp] in Hread. unfold raw_target, bind in Hread.
    erewrite root_eq in Hread
      by (apply root_of_put with (v0 := VObj hfs);
          rewrite root_of_add_log; exact Hr).
    cbn [descend ret] in Hread. injection Hread as Hst Hx.
    symmetry in Hst.
    apply (Hgen VNull hfs (add_log (EvGet key) st)); auto.
    + intros path. rewrite own_names_src_at_null.
      destruct (stored key st); try discriminate.
      now rewrite src_at_undefined.
    + intros path n. rewrite own_names_src_at_null. intros [].
  - destruct (assignProps (VObj hfs) (stored key st)) as [h1 [|e|]] eqn:Ha;
      cbn [fst snd] in Hread; try discriminate.
    destruct (assignProps_obj_level _ _ _ Hu Ha) as (h1fs & -> & _).
    cbn [setp] in Hread. unfold raw_target, bind in Hread.
    erewrite root_eq in Hread
      by (apply root_of_put with (v0 := VObj hfs);
          rewrite !root_of_add_log; exact Hr).
    cbn [descend ret] in Hread. injection Hread as Hst Hx.
    symmetry in Hst.
    apply (Hgen (stored key st) h1fs
             (add_log (EvGet key) (add_log (EvGet key) st))); auto.
Qed.

(** C6, as stated, fails where the schema leaves a field open: a field that
    holds [null] takes whatever durable storage has for it, whole. With the
    schema [{ a: null, _persisted: true }] and [{ a: { x: 1 } }] in durable
    storage, the schema has no [x] anywhere, and [Store.mock.a.x] reads
    [1]. *)
Lemma C6_counterexample :
  sub_at (VObj [("a", VNull); ("_persisted", VBool true)]) ["a"] = Some VNull
  /\ src_at (stored "mock" st_open) ["a"] = VObj [("x", VNum 1)]
  /\ view_read "mock" ["a"] "x" st_open
     = Ok (after (view_read "mock" ["a"] "x") st_open) (VNum 1).
Proof. repeat split; reflexivity. Qed.

(** C6, amended. A persisted key is registered with an object schema and
    read for the first time, which hydrates its handler from durable
    storage; the stored data names no property that every object inherits
    ([toString], [constructor], ...). Afterwards, in every non-array object
    of the schema, at any depth: a field that the schema object does not
    have is not there, whatever the stored data holds for it, and reads
    [undefined] through the view; a field the stored data does not name at
    that place has the value the schema gave it; and a field for which the
    schema gave [null] has taken what the stored data holds for it, whole,
    with the fields of an object stored there. The store's own [_cached]
    flag, which registration adds and the load sets, is left aside. *)
Theorem C6_hydration_discards_unknown_keeps_defaults :
  forall st key sfs p st' x,
    lookup "_persisted" sfs = Some (VBool true) ->
    uniq_keys (stored key st) = true ->
    plain_names (stored key st) = true ->
    (register key (VObj sfs) ;;; view_read key [] p) st = Ok st' x ->
    exists h',
      lookup key (handlers st') = Some h'
      /\ forall path fs, sub_at (VObj sfs) path = Some (VObj fs) ->
           exists fs',
             sub_at h' path = Some (VObj fs')
             /\ (forall n, (path = [] -> n <> "_cached") ->
                   lookup n fs = None ->
                   lookup n fs' = None
                   /\ (mem n inherited = false ->
                       view_read key path n st' = Ok st' VUndef))
             /\ (forall n, (path = [] -> n <> "_cached") ->
                   ~ In n (own_names (src_at (stored key st) path)) ->
                   lookup n fs' = lookup n fs)
             /\ (forall n, (path = [] -> n <> "_cached") ->
                   In n (own_names (src_at (stored key st) path)) ->
                   lookup n fs = Some VNull ->
                   lookup n fs'
                   = Some (getp (src_at (stored key st) path) n)).
Proof.
  intros st key sfs p st' x Hflag Hu _ Hrun.
  unfold bind in Hrun.
  destruct (register key (VObj sfs) st) as [st0 [] | |] eqn:Hreg;
    try discriminate.
  destruct (register_persisted_ok _ _ _ _ Hflag Hreg) as [Hcu Est0].
  set (hfs := update "_cached" (VBool false) sfs) in *.
  assert (Hp0 : lookup key (props st0) = Some SProxy)
    by (subst st0; simpl; apply lookup_update_same).
  assert (Hh0 : lookup key (handlers st0) = Some (VObj hfs))
    by (subst st0; simpl; apply lookup_update_same).
  assert (Hsto : stored key st0 = stored key st) by (now subst st0).
  assert (Hcold : cold (VObj hfs) = true).
  { unfold cold, hfs. rewrite !getp_obj, lookup_update_same.
    rewrite lookup_update_other by discriminate. now rewrite Hflag. }
  rewrite <- Hsto in Hu.
  destruct (first_read_hydrates key st0 hfs p st' x Hp0 Hh0 Hcold Hu Hrun)
    as (h' & Hh' & Hp' & Hc' & Hall).
  rewrite Hsto in Hall.
  exists h'. split; [exact Hh'|].
  intros path fs Hs.
  assert (Hsh : exists hfs0,
    sub_at (VObj hfs) path = Some (VObj hfs0)
    /\ forall n, (path = [] -> n <> "_cached") ->
         lookup n hfs0 = lookup n fs).
  { destruct path as [|q path].
    - simpl in Hs. inversion Hs; subst fs. exists hfs. split; [reflexivity|].
      intros n Hn. unfold hfs. apply lookup_update_other. now apply Hn.
    - exists fs. split; [|reflexivity]. cbn [sub_at] in *.
      assert (Hq : q <> "_cached").
      { intros ->. rewrite getp_obj in Hcu.
        destruct (lookup "_cached" sfs) as [c|]; [|discriminate].
        destruct c; try discriminate.
        destruct path; simpl in Hs; discriminate. }
      unfold hfs. now rewrite lookup_update_other. }
  destruct Hsh as (hfs0 & Hs0 & Hsame).
  destruct (Hall path hfs0 Hs0) as (fs' & A & B & C & D).
  exists fs'. split; [exact A|]. split; [|split].
  - intros n Hne Hn.
    assert (Hnone : lookup n fs' = None).
    { apply (lookup_names_eq hfs0 fs'); [exact B|].
      rewrite Hsame by exact Hne. exact Hn. }
    split; [exact Hnone|]. intros _.
    assert (Hv' : viewable key st').
    { split; [congruence | now rewrite Hp']. }
    assert (Hw' : warm key st') by (unfold warm; now rewrite Hp', Hh').
    rewrite (view_read_warm key path n st' h' Hv' Hw')
      by (now apply root_of_proxy).
    rewrite (descend_sub_at _ _ _ st' A). rewrite getp_obj. now rewrite Hnone.
  - intros n Hne Hn. rewrite (C n Hne Hn). now apply Hsame.
  - intros n Hne Hin Hl.
    apply (D n VNull Hne Hin); [|reflexivity | discriminate].
    rewrite Hsame by exact Hne. exact Hl.
Qed.

Lemma C6_witness :
  (register "mock" persisted_mock ;;; view_read "mock" [] "foo") st_before
  = Ok (after (register "mock" persisted_mock ;;; view_read "mock" [] "foo")
          st_before) (VStr "")
  /\ exists fs',
       lookup "mock"
         (handlers (after (register "mock" persisted_mock ;;;
                           view_read "mock" [] "foo") st_before))
       = Some (VObj fs')
       /\ lookup "bar" fs' = None
       /\ view_read "mock" [] "bar"
            (after (register "mock" persisted_mock ;;;
                    view_read "mock" [] "foo") st_before)
          = Ok (after (register "mock" persisted_mock ;;;
                       view_read "mock" [] "foo") st_before) VUndef
       /\ lookup "foo" fs' = Some (VStr "").
Proof.
  split; [reflexivity|].
  destruct (C6_hydration_discards_unknown_keeps_defaults st_before "mock"
              [("foo", VStr ""); ("_persisted", VBool true)] "foo"
              (after (register "mock" persisted_mock ;;;
                      view_read "mock" [] "foo") st_before)
              (VStr "") eq_refl eq_refl eq_refl eq_refl)
    as (h' & Hh & Hall).
  destruct (Hall [] [("foo", VStr ""); ("_persisted", VBool true)] eq_refl)
    as (fs' & Hs & Hdiscard & Hkeep & _).
  simpl in Hs. inversion Hs; subst h'.
  exists fs'. split; [exact Hh|].
  destruct (Hdiscard "bar") as [Hnone Hread];
    [discriminate | reflexivity |].
  split; [exact Hnone|]. split; [now apply Hread|].
  apply (Hkeep "foo"); [discriminate|].
  simpl. intros [H | []]. discriminate H.
Defined.

(** * Further properties of the store *)

(** ** Registration: [register] and [_setupHandler] *)

(** X1. On a name the store does not define yet, [register] accepts exactly
    the object schemas that carry no [_cached] and whose [_persisted] is
    absent or a boolean. A handler that is no object is refused as an
    invalid handler; a schema with a [_cached] of its own, or with a
    [_persisted] that is no boolean, is refused as using a reserved field.
    A registration that throws leaves the store as it was. *)
Theorem register_accepts_exactly_valid_schemas :
  forall st key,
    store_defined st key = false ->
    (forall h, is_object_type h = false ->
       register key h st = Throw st InvalidHandler)
    /\ (forall fs, getp (VObj fs) "_cached" <> VUndef ->
          register key (VObj fs) st = Throw st ReservedField)
    /\ (forall fs, getp (VObj fs) "_cached" = VUndef ->
          getp (VObj fs) "_persisted" <> VUndef ->
          (forall b, getp (VObj fs) "_persisted" <> VBool b) ->
          register key (VObj fs) st = Throw st ReservedField)
    /\ (forall fs,
          (exists st', register key (VObj fs) st = Ok st' tt)
          <-> getp (VObj fs) "_cached" = VUndef
              /\ (getp (VObj fs) "_persisted" = VUndef
                  \/ exists b, getp (VObj fs) "_persisted" = VBool b))
    /\ (forall h st' e, register key h st = Throw st' e -> st' = st).
Proof.
  intros st key Hfree.
  split; [|split; [|split; [|split; [intros fs; split|]]]].
  - intros h Hh. rewrite (register_eq _ _ _ Hfree). unfold setupHandler.
    now rewrite Hh.
  - intros fs Hc. rewrite (register_eq _ _ _ Hfree), setupHandler_obj.
    destruct (is_undefined (getp (VObj fs) "_cached")) eqn:E; [|reflexivity].
    apply is_undefined_eq in E. contradiction.
  - intros fs Hc Hp Hb. rewrite (register_eq _ _ _ Hfree), setupHandler_obj.
    rewrite Hc. cbn [is_undefined negb].
    destruct (getp (VObj fs) "_persisted") as [| |b| | | | |];
      try reflexivity; [contradiction | now destruct (Hb b)].
  - intros [st' H]. rewrite (register_eq _ _ _ Hfree), setupHandler_obj in H.
    destruct (is_undefined (getp (VObj fs) "_cached")) eqn:E;
      [|discriminate].
    split; [now apply is_undefined_eq in E|].
    cbn [negb] in H.
    destruct (getp (VObj fs) "_persisted") as [| |b| | | | |];
      try discriminate; eauto.
  - intros [Hc Hp]. rewrite (register_eq _ _ _ Hfree), setupHandler_obj.
    rewrite Hc. cbn [is_undefined negb].
    destruct Hp as [-> | [b ->]]; cbn [fst snd]; eauto.
  - intros h st' e H. rewrite (register_eq _ _ _ Hfree) in H.
    destruct (snd (setupHandler h)); congruence.
Qed.

Lemma register_accepts_exactly_valid_schemas_witness :
  store_defined empty_store "mock" = false
  /\ register "mock" (VStr "value") empty_store
     = Throw empty_store InvalidHandler
  /\ register "mock" (VObj [("_cached", VBool true)]) empty_store
     = Throw empty_store ReservedField
  /\ register "mock" (VObj [("_persisted", VStr "true")]) empty_store
     = Throw empty_store ReservedField
  /\ exists st', register "mock" plain_mock empty_store = Ok st' tt.
Proof.
  pose proof (register_accepts_exactly_valid_schemas empty_store "mock"
                eq_refl) as (H1 & H2 & H3 & H4 & _).
  split; [reflexivity|]. split; [now apply H1|].
  split; [apply H2; discriminate|].
  split.
  - apply H3; [reflexivity | discriminate | discriminate].
  - apply (proj2 (H4 [("foo", VStr "")])). split; [reflexivity|].
    left. reflexivity.
Defined.

Lemma register_ok key fs st st' :
  register key (VObj fs) st = Ok st' tt ->
  store_defined st key = false
  /\ exists hfs,
       st' = mkStore (update key (VObj hfs) (handlers st))
               (update key SProxy (props st)) (storage st) (log st)
       /\ lookup "_cached" hfs = Some (VBool false)
       /\ (exists b, registered_flag fs b
                      /\ lookup "_persisted" hfs = Some (VBool b))
       /\ (forall p, reserved p = false -> lookup p hfs = lookup p fs).
Proof.
  intros H.
  destruct (store_defined st key) eqn:Hfree.
  { unfold register, register_obj in H. rewrite Hfree in H. discriminate. }
  split; [reflexivity|].
  rewrite (register_eq _ _ _ Hfree), setupHandler_obj in H.
  destruct (negb (is_undefined (getp (VObj fs) "_cached"))); [discriminate|].
  unfold registered_flag.
  assert (Hres : forall p, reserved p = false ->
            p <> "_cached" /\ p <> "_persisted").
  { intros p Hp. unfold reserved in Hp. apply orb_false_elim in Hp.
    destruct Hp as [H1 H2]. now apply String.eqb_neq in H1, H2. }
  destruct (getp (VObj fs) "_persisted") as [| |b0| | | | |] eqn:Hp;
    try discriminate; cbn [fst snd] in H; inversion H; subst st';
    eexists; (split; [reflexivity|]); rewrite getp_obj in Hp.
  - split.
    { now rewrite lookup_update_other, lookup_update_same by discriminate. }
    split; [exists false; split; [reflexivity | apply lookup_update_same]|].
    intros p Hr. destruct (Hres p Hr).
    now rewrite !lookup_update_other by congruence.
  - split; [now rewrite lookup_update_same|].
    split.
    + exists b0. split; [reflexivity|].
      rewrite lookup_update_other by discriminate.
      destruct (lookup "_persisted" fs); congruence.
    + intros p Hr. destruct (Hres p Hr).
      now rewrite !lookup_update_other by congruence.
Qed.

Lemma registered_flag_unique fs b b' :
  registered_flag fs b -> registered_flag fs b' -> b = b'.
Proof.
  unfold registered_flag.
  destruct (getp (VObj fs) "_persisted"); congruence.
Qed.

(** X2. A registration that returns has put the key behind its proxy with
    the schema's own fields as they were given, [_cached] set to [false] and
    [_persisted] set to the schema's flag ([false] when the schema gives
    none). It has not called the durable backend, whose contents are
    untouched, and it has left every other key as it was. *)
Theorem register_installs_schema :
  forall st key fs b st',
    register key (VObj fs) st = Ok st' tt ->
    registered_flag fs b ->
    lookup key (props st') = Some SProxy
    /\ (exists hfs,
          lookup key (handlers st') = Some (VObj hfs)
          /\ lookup "_cached" hfs = Some (VBool false)
          /\ lookup "_persisted" hfs = Some (VBool b)
          /\ forall p, reserved p = false -> lookup p hfs = lookup p fs)
    /\ storage st' = storage st
    /\ log st' = log st
    /\ forall k, k <> key ->
         lookup k (handlers st') = lookup k (handlers st)
         /\ lookup k (props st') = lookup k (props st).
Proof.
  intros st key fs b st' Hreg Hflag.
  destruct (register_ok _ _ _ _ Hreg)
    as (_ & hfs & -> & Hc & (b' & Hb' & Hp) & Hf).
  rewrite (registered_flag_unique _ _ _ Hflag Hb').
  cbn [handlers props storage log].
  split; [apply lookup_update_same|].
  split.
  { exists hfs. rewrite lookup_update_same. auto. }
  repeat split; auto; now rewrite lookup_update_other by congruence.
Qed.

Lemma register_installs_schema_witness :
  lookup "mock" (props st_persisted) = Some SProxy
  /\ (exists hfs,
        lookup "mock" (handlers st_persisted) = Some (VObj hfs)
        /\ lookup "_cached" hfs = Some (VBool false)
        /\ lookup "_persisted" hfs = Some (VBool true)
        /\ forall p, reserved p = false ->
             lookup p hfs
             = lookup p [("foo", VStr ""); ("_persisted", VBool true)])
    /\ storage st_persisted = storage empty_store
    /\ log st_persisted = log empty_store
    /\ forall k, k <> "mock" ->
         lookup k (handlers st_persisted) = lookup k (handlers empty_store)
         /\ lookup k (props st_persisted) = lookup k (props empty_store).
Proof.
  apply (register_installs_schema empty_store "mock"
           [("foo", VStr ""); ("_persisted", VBool true)] true st_persisted).
  - reflexivity.
  - reflexivity.
Defined.

(** ** Reading what was registered *)

Lemma view_read_after_trap key path p st st1 :
  viewable key st ->
  first_trap key st = Ok st1 tt ->
  viewable key st1 ->
  warm key st1 ->
  view_read key path p st = view_read key path p st1.
Proof.
  intros Hv Ht Hv1 Hw1. unfold view_read, bind.
  rewrite (view_ok _ _ Hv), Ht, (view_ok _ _ Hv1).
  now rewrite (first_trap_warm _ _ Hw1).
Qed.

(** The first trap of a view when the backend holds nothing for the key:
    the handler keeps its fields, [_cached] apart. *)
Lemma first_trap_nothing_stored key st hfs :
  lookup key (props st) = Some SProxy ->
  lookup key (handlers st) = Some (VObj hfs) ->
  is_undefined (stored key st) || is_null (stored key st) = true ->
  exists st1 rfs,
    first_trap key st = Ok st1 tt
    /\ root_of key st1 = Some (VObj rfs)
    /\ (forall q, q <> "_cached" -> lookup q rfs = lookup q hfs)
    /\ storage st1 = storage st.
Proof.
  intros Hp Hh Hs.
  assert (Hr : root_of key st = Some (VObj hfs))
    by (unfold root_of; now rewrite Hp).
  rewrite (first_trap_proxy _ _ Hp), (load_eq _ _ _ Hr).
  destruct (cold (VObj hfs)); [|exists st, hfs; auto].
  cbv zeta. cbn [setp].
  assert (Hk : forall q, q <> "_cached" ->
            lookup q (update "_cached" (VBool true) hfs) = lookup q hfs)
    by (intros q Hq; now rewrite lookup_update_other).
  destruct (is_undefined (stored key st)) eqn:Hu.
  - eexists _, _. split; [reflexivity|].
    split; [eapply root_of_put; rewrite root_of_add_log; exact Hr|].
    split; [exact Hk|]. now rewrite storage_put.
  - cbn [orb] in Hs. destruct (stored key st); try discriminate.
    cbn [assignProps fst snd setp].
    eexists _, _. split; [reflexivity|].
    split; [eapply root_of_put; rewrite !root_of_add_log; exact Hr|].
    split; [exact Hk|]. now rewrite storage_put.
Qed.

Lemma reserved_cached p : reserved p = false -> p <> "_cached".
Proof.
  intros H ->. discriminate.
Qed.

(** X3. After [register(key, schema)] has returned, and for a persisted key
    as long as the durable backend holds nothing for it, every field of the
    schema, at any depth reached through non-array objects, reads the value
    the schema gave it. *)
Theorem registered_defaults_read_back :
  forall st key fs st' path tfs p,
    register key (VObj fs) st = Ok st' tt ->
    (getp (VObj fs) "_persisted" = VBool true ->
     is_undefined (stored key st) || is_null (stored key st) = true) ->
    sub_at (VObj fs) path = Some (VObj tfs) ->
    reserved (first_name path p) = false ->
    exists st2, view_read key path p st' = Ok st2 (getp (VObj tfs) p).
Proof.
  intros st key fs st' path tfs p Hreg Hsto Hsub Hres.
  destruct (register_ok _ _ _ _ Hreg)
    as (_ & hfs & Hst' & Hc & (b & Hflag & Hb) & Hf).
  assert (Hp : lookup key (props st') = Some SProxy)
    by (subst st'; apply lookup_update_same).
  assert (Hh : lookup key (handlers st') = Some (VObj hfs))
    by (subst st'; apply lookup_update_same).
  assert (Hr : root_of key st' = Some (VObj hfs))
    by (unfold root_of; now rewrite Hp).
  assert (Hv : viewable key st').
  { unfold viewable. rewrite Hp, Hh. split; [discriminate | exact I]. }
  assert (Hdata : forall rfs st1,
    (forall q, q <> "_cached" -> lookup q rfs = lookup q hfs) ->
    match descend (VObj rfs) path st1 with
    | Ok _ tgt => Ok st1 (getp tgt p)
    | Throw _ e => Throw st1 e
    | Unmodelled => Unmodelled
    end = Ok st1 (getp (VObj tfs) p)).
  { intros rfs st1 Hk.
    rewrite (read_same_data fs rfs path p st1).
    - now rewrite (descend_sub_at _ _ _ st1 Hsub).
    - intros q Hq. rewrite Hk by now apply reserved_cached. now apply Hf.
    - exact Hres. }
  destruct (cold (VObj hfs)) eqn:Hcold.
  - assert (Hpers : getp (VObj fs) "_persisted" = VBool true).
    { unfold cold in Hcold. apply andb_prop in Hcold. destruct Hcold as [_ Ht].
      rewrite getp_obj, Hb in Ht. destruct b; [|discriminate].
      unfold registered_flag in Hflag.
      destruct (getp (VObj fs) "_persisted"); congruence. }
    assert (Hsto' : is_undefined (stored key st') || is_null (stored key st')
                    = true).
    { subst st'. now apply Hsto. }
    destruct (first_trap_nothing_stored _ _ _ Hp Hh Hsto')
      as (st1 & rfs & Ht & Hr1 & Hk & _).
    destruct (first_trap_result _ _ _ _ Hv Hr Ht) as (Hv1 & Hw1 & _).
    exists st1.
    rewrite (view_read_after_trap _ _ _ _ _ Hv Ht Hv1 Hw1).
    rewrite (view_read_warm _ _ _ _ _ Hv1 Hw1 Hr1).
    now apply Hdata.
  - assert (Hw : warm key st') by (unfold warm; now rewrite Hp, Hh).
    exists st'. rewrite (view_read_warm _ _ _ _ _ Hv Hw Hr).
    apply Hdata. auto.
Qed.

Lemma registered_defaults_read_back_witness :
  (getp (VObj [("sub", VObj [("x", VStr "")]); ("_persisted", VBool true)])
     "_persisted" = VBool true ->
   is_undefined (stored "cfg" empty_store)
   || is_null (stored "cfg" empty_store) = true)
  /\ exists st2,
       view_read "cfg" ["sub"] "x"
         (after (register "cfg"
                   (VObj [("sub", VObj [("x", VStr "")]);
                          ("_persisted", VBool true)])) empty_store)
       = Ok st2 (getp (VObj [("x", VStr "")]) "x").
Proof.
  split; [reflexivity|].
  apply (registered_defaults_read_back empty_store "cfg"
           [("sub", VObj [("x", VStr "")]); ("_persisted", VBool true)]
           _ ["sub"] [("x", VStr "")] "x").
  - reflexivity.
  - reflexivity.
  - reflexivity.
  - reflexivity.
Defined.

(** ** [reset] and [clearPersistentStorage] *)

Lemma reset_loop l : forall st,
  exists st',
    forEach l
      (fun key =>
         modify (fun s =>
           mkStore (remove key (handlers s)) (remove key (props s))
             (storage s) (log s))) st = Ok st' tt
    /\ storage st' = storage st
    /\ log st' = log st
    /\ (forall k, In k (map fst (handlers st')) ->
          In k (map fst (handlers st)) /\ ~ In k l)
    /\ (forall k, In k l -> lookup k (props st') = None)
    /\ (forall k, ~ In k l -> lookup k (props st') = lookup k (props st)).
Proof.
  induction l as [|key l IH]; intros st.
  - exists st. simpl. unfold ret.
    split; [reflexivity|]. split; [reflexivity|]. split; [reflexivity|].
    split; [tauto|]. split; [tauto | reflexivity].
  - cbn [forEach]. unfold bind at 1, modify at 1.
    set (s1 := mkStore (remove key (handlers st)) (remove key (props st))
                 (storage st) (log st)).
    destruct (IH s1) as (st' & Hrun & Hs & Hl & Hh & Hin & Hout).
    exists st'. split; [exact Hrun|]. split; [exact Hs|]. split; [exact Hl|].
    split; [|split].
    + intros k Hk. destruct (Hh k Hk) as [H1 H2]. cbn [s1 handlers] in H1.
      apply names_remove in H1. destruct H1 as [H1 Hne].
      split; [exact H1|]. intros [<- | Hi]; [now apply Hne | now apply H2].
    + intros k [<- | Hk].
      * destruct (in_dec string_dec key l) as [Hi | Hni]; [now apply Hin|].
        rewrite (Hout key Hni). apply lookup_remove_same.
      * now apply Hin.
    + intros k Hk. simpl in Hk. rewrite Hout by tauto.
      cbn [s1 props]. apply lookup_remove_other. intros ->. tauto.
Qed.

(** X4. [reset] always returns and unregisters every key: the handler map
    is empty afterwards, no registered key names a property of the store any
    more (so each can be registered again), the other properties of the
    store are as they were, and the durable backend is neither called nor
    changed. *)
Theorem reset_unregisters_every_key :
  forall st, exists st',
    reset st = Ok st' tt
    /\ handlers st' = []
    /\ (forall k, In k (registered_keys st) -> lookup k (props st') = None)
    /\ (forall k, In k (registered_keys st) ->
          mem k builtins || mem k inherited = false ->
          store_defined st' k = false)
    /\ (forall k, ~ In k (registered_keys st) ->
          lookup k (props st') = lookup k (props st))
    /\ storage st' = storage st
    /\ log st' = log st.
Proof.
  intros st. unfold reset.
  destruct (reset_loop (registered_keys st) st)
    as (st' & Hrun & Hs & Hl & Hh & Hin & Hout).
  exists st'. split; [exact Hrun|].
  split.
  { destruct (handlers st') as [|[k h] r] eqn:E; [reflexivity|].
    destruct (Hh k) as [H1 H2]; [now left|]. now destruct H2. }
  split; [exact Hin|].
  split.
  { intros k Hk Hb. unfold store_defined. rewrite (Hin k Hk).
    apply orb_false_elim in Hb. destruct Hb as [-> ->]. reflexivity. }
  auto.
Qed.

Lemma sets_app key l1 l2 :
  sets key (l1 ++ l2)%list = sets key l1 + sets key l2.
Proof.
  induction l1 as [|[k | k v] l1 IH]; simpl; [reflexivity | exact IH |].
  rewrite IH. lia.
Qed.

Lemma clear_storage_loop l : forall st,
  exists st',
    forEach l (fun key => setPersistedProperty key VNull) st = Ok st' tt
    /\ handlers st' = handlers st
    /\ props st' = props st
    /\ (forall k, In k l -> lookup k (storage st') = Some VNull)
    /\ (forall k, ~ In k l -> lookup k (storage st') = lookup k (storage st))
    /\ (forall k, gets k (log st') = gets k (log st))
    /\ (forall k, ~ In k l -> sets k (log st') = sets k (log st)).
Proof.
  induction l as [|key l IH]; intros st.
  - exists st. simpl. unfold ret.
    split; [reflexivity|]. split; [reflexivity|]. split; [reflexivity|].
    split; [tauto|]. split; [reflexivity|]. split; reflexivity.
  - cbn [forEach]. unfold bind at 1, setPersistedProperty at 1.
    set (s1 := add_log (EvSet key VNull)
                 (with_storage st (update key VNull (storage st)))).
    destruct (IH s1) as (st' & Hrun & Hh & Hp & Hin & Hout & Hg & Hse).
    exists st'. split; [exact Hrun|].
    split; [now rewrite Hh|]. split; [now rewrite Hp|].
    split; [|split; [|split]].
    + intros k [<- | Hk].
      * destruct (in_dec string_dec key l) as [Hi | Hni]; [now apply Hin|].
        rewrite (Hout key Hni). apply lookup_update_same.
      * now apply Hin.
    + intros k Hk. simpl in Hk. rewrite Hout by tauto.
      cbn [s1 add_log with_storage storage].
      apply lookup_update_other. intros ->. tauto.
    + intros k. rewrite Hg. cbn [s1 add_log with_storage log].
      rewrite gets_app. simpl. lia.
    + intros k Hk. simpl in Hk. rewrite Hse by tauto.
      cbn [s1 add_log with_storage log].
      rewrite sets_app. simpl.
      destruct (String.eqb_spec key k) as [-> | Hne]; [tauto | lia].
Qed.

(** X5. [clearPersistentStorage] always returns and writes [null] to the
    durable backend for every registered key and for no other: entries of
    names that are not registered are as they were and receive no [set];
    the backend's [get] is never called; and the in-memory store (handlers
    and properties, cached values included) is untouched. *)
Theorem clearPersistentStorage_nullifies_registered_keys :
  forall st, exists st',
    clearPersistentStorage st = Ok st' tt
    /\ handlers st' = handlers st
    /\ props st' = props st
    /\ (forall k, In k (registered_keys st) ->
          lookup k (storage st') = Some VNull /\ stored k st' = VNull)
    /\ (forall k, ~ In k (registered_keys st) ->
          lookup k (storage st') = lookup k (storage st)
          /\ sets k (log st') = sets k (log st))
    /\ (forall k, gets k (log st') = gets k (log st)).
Proof.
  intros st. unfold clearPersistentStorage.
  destruct (clear_storage_loop (registered_keys st) st)
    as (st' & Hrun & Hh & Hp & Hin & Hout & Hg & Hse).
  exists st'. split; [exact Hrun|]. split; [exact Hh|]. split; [exact Hp|].
  split; [|split; [|exact Hg]].
  - intros k Hk. unfold stored. rewrite (Hin k Hk). auto.
  - intros k Hk. auto.
Qed.

(** ** Induction on values *)

Lemma value_induction (P : value -> Prop) :
  P VUndef -> P VNull -> (forall b, P (VBool b)) -> (forall n, P (VNum n)) ->
  (forall s, P (VStr s)) -> (forall f, P (VFun f)) ->
  (forall fs, Forall (fun e => P (snd e)) fs -> P (VObj fs)) ->
  (forall xs, Forall P xs -> P (VArr xs)) ->
  forall v, P v.
Proof.
  intros HU HN HB HZ HS HF HO HA. fix IH 1.
  intros [| | b | n | s | f | fs | xs];
    [exact HU | exact HN | apply HB | apply HZ | apply HS | apply HF | |].
  - apply HO. induction fs as [|[k x] fs IHfs]; constructor;
      [apply IH | exact IHfs].
  - apply HA. induction xs as [|x xs IHxs]; constructor;
      [apply IH | exact IHxs].
Qed.

(** ** Writes the [set] trap refuses or lets through *)

Lemma validateStructure_undefined x : validateStructure VUndef x = true.
Proof. destruct x; reflexivity. Qed.

Lemma unknown_field_undefined tgt p :
  unknown_field tgt p = true -> getp tgt p = VUndef.
Proof.
  unfold unknown_field. intros H. apply andb_prop in H. destruct H as [_ H].
  now apply is_undefined_eq.
Qed.

(** X7. A write through the view of a registered key to a property that the
    non-array object at the path does not have, and that is none of the
    names every object inherits ([toString], [constructor], ...), is
    refused with the invalid-assignment error, whatever the value and at
    any depth, the reserved names included; the store is left in the state
    the view's first trap produced (unchanged when no cache miss was
    pending), and durable storage is as it was. An inherited name reads as
    a function, not as [undefined], and is not covered. *)
Theorem unknown_field_write_rejected :
  forall st key hfs st1 rfs path tgt p x,
    viewable key st ->
    root_of key st = Some (VObj hfs) ->
    first_trap key st = Ok st1 tt ->
    root_of key st1 = Some (VObj rfs) ->
    descend (VObj rfs) path st1 = Ok st1 tgt ->
    unknown_field tgt p = true ->
    mem p inherited = false ->
    view_write key path p x st = Throw st1 InvalidAssignment
    /\ storage st1 = storage st
    /\ (warm key st -> st1 = st).
Proof.
  intros st key hfs st1 rfs path tgt p x Hv Hr Ht Hr1 Hd Hu _.
  destruct (first_trap_result _ _ _ _ Hv Hr Ht)
    as (Hv1 & Hw1 & Hp1 & Hs1 & _ & Hsame).
  split; [|split; [exact Hs1 | exact Hsame]].
  rewrite (view_write_after_trap _ _ _ _ _ _ Hv Ht Hv1 Hw1).
  unfold view_write, bind.
  rewrite (view_ok _ _ Hv1), (first_trap_warm _ _ Hw1).
  assert (E : forall assign,
    set_layer key path p x false assign st1 = Throw st1 InvalidAssignment).
  { intros assign. rewrite (set_layer_plain _ _ _ _ _ _ _ Hr1), Hd.
    rewrite (unknown_field_undefined _ _ Hu), validateStructure_undefined.
    cbn [negb]. now rewrite Hu. }
  destruct (lookup key (props st1)) as [[|w]|]; apply E.
Qed.

Lemma unknown_field_write_rejected_witness :
  view_write "mock" [] "bar" (VStr "hello") st_persisted
  = Throw (after (first_trap "mock") st_persisted) InvalidAssignment
  /\ storage (after (first_trap "mock") st_persisted) = storage st_persisted
  /\ (warm "mock" st_persisted ->
      after (first_trap "mock") st_persisted = st_persisted).
Proof.
  apply (unknown_field_write_rejected st_persisted "mock"
           [("foo", VStr ""); ("_persisted", VBool true);
            ("_cached", VBool false)]
           (after (first_trap "mock") st_persisted)
           [("foo", VStr ""); ("_persisted", VBool true);
            ("_cached", VBool true)]
           []
           (VObj [("foo", VStr ""); ("_persisted", VBool true);
                  ("_cached", VBool true)])
           "bar" (VStr "hello")).
  - split; [discriminate | exact I].
  - reflexivity.
  - reflexivity.
  - reflexivity.
  - reflexivity.
  - reflexivity.
  - reflexivity.
Defined.

(** ** Arrays behind a view *)











(** ** What [_persist] writes *)















(** ** Objects the validator refuses *)

Lemma field_clash_objects a b :
  field_clash a b -> is_object a = true /\ is_object b = true.
Proof. destruct 1; auto. Qed.

Lemma validateStructure_field_clash a b :
  field_clash a b -> validateStructure a b = false.
Proof.
  induction 1 as [fs b p bv Hb Hin _ Hu
                 | a gs p av Ha Hin _ Hu
                 | fs b p bv av Hb Hin Hl Hc IH].
  - rewrite validateStructure_entries by auto.
    apply andb_false_intro1.
    apply (forallb_false _ _ (p, bv) Hin). cbn [fst snd].
    unfold check_prop. cbn [is_object_type typeof jstype_eqb isArray negb andb].
    now rewrite Hu.
  - rewrite validateStructure_entries by auto.
    apply andb_false_intro2.
    apply (forallb_false _ _ (p, av) Hin). cbn [fst snd].
    unfold check_prop. cbn [is_object_type typeof jstype_eqb isArray negb andb].
    now rewrite Hu.
  - destruct (field_clash_objects _ _ Hc) as (Hoa & Hob).
    rewrite validateStructure_entries by auto.
    apply andb_false_intro1.
    apply (forallb_false _ _ (p, bv) Hin). cbn [fst snd].
    unfold check_prop. cbn [is_object_type typeof jstype_eqb isArray negb andb].
    rewrite getp_obj, Hl.
    destruct av; try discriminate; destruct bv; try discriminate;
      cbn; exact IH.
Qed.

(** X10. An object assigned through the view must have the fields of the
    object it replaces. With no cache miss pending, a write of an object or
    an array is refused with the structure error when the value has a
    property that the current non-array object lacks, or lacks a property
    of the current object, be it at the assigned place or at any depth
    below it reached through fields that hold non-array objects; the store
    is left as it was. The property that makes the difference is none of
    the names every object inherits ([toString], [constructor], ...):
    those are found on either side. *)
Theorem object_with_other_fields_rejected :
  forall st key rfs path tgt p x,
    viewable key st ->
    warm key st ->
    root_of key st = Some (VObj rfs) ->
    descend (VObj rfs) path st = Ok st tgt ->
    field_clash (getp tgt p) x ->
    view_write key path p x st = Throw st SchemaMismatch.
Proof.
  intros st key rfs path tgt p x Hv Hw Hr Hd Hc.
  unfold view_write, bind.
  rewrite (view_ok _ _ Hv), (first_trap_warm _ _ Hw).
  assert (E : forall assign,
    set_layer key path p x false assign st = Throw st SchemaMismatch).
  { intros assign. rewrite (set_layer_plain _ _ _ _ _ _ _ Hr), Hd.
    now rewrite (validateStructure_field_clash _ _ Hc). }
  destruct (lookup key (props st)) as [[|w]|]; apply E.
Qed.

Lemma object_with_other_fields_rejected_witness :
  view_write "cfg" [] "sub" (VObj [("x", VStr "a"); ("y", VStr "b")]) st_nested
  = Throw st_nested SchemaMismatch.
Proof.
  apply (object_with_other_fields_rejected st_nested "cfg"
           [("sub", VObj [("x", VStr "")]); ("_cached", VBool false);
            ("_persisted", VBool false)]
           []
           (VObj [("sub", VObj [("x", VStr "")]); ("_cached", VBool false);
                  ("_persisted", VBool false)])
           "sub" (VObj [("x", VStr "a"); ("y", VStr "b")])).
  - split; [discriminate | exact I].
  - reflexivity.
  - reflexivity.
  - reflexivity.
  - apply (clash_extra [("x", VStr "")] _ "y" (VStr "b")).
    + reflexivity.
    + simpl. tauto.
    + reflexivity.
    + reflexivity.
Defined.

(** ** Values the validator accepts *)






(** ** Stored data the merger refuses *)

(** The loop of the merger does not get past a property whose merge does
    not complete. *)
Lemma assign_all_fails rec l p fv tv :
  NoDup (map fst l) ->
  In (p, fv) l ->
  (forall tfs, lookup p tfs = Some tv ->
     snd (assign_prop (VObj tfs) p fv (rec fv)) <> Done) ->
  forall tfs, lookup p tfs = Some tv ->
    snd (assign_all rec l (VObj tfs)) <> Done.
Proof.
  intros Hnd Hin Hp. induction l as [|[q fq] l IH]; [destruct Hin|].
  intros tfs Hl. cbn [assign_all].
  inversion Hnd as [|? ? Hnot Hnd']; subst.
  destruct Hin as [Hin | Hin].
  - inversion Hin; subst q fq.
    pose proof (Hp tfs Hl) as Hs.
    destruct (assign_prop (VObj tfs) p fv (rec fv)) as [to1 s1].
    destruct s1; simpl in *; congruence.
  - assert (Hne : p <> q).
    { intros ->. apply Hnot. change q with (fst (q, fv)). now apply in_map. }
    destruct (assign_prop (VObj tfs) q fq (rec fq)) as [to1 s1] eqn:E.
    destruct (assign_prop_obj _ _ _ _ _ _ E) as (tfs1 & -> & _ & Hk & _).
    destruct s1; simpl; try discriminate.
    apply (IH Hnd' Hin). now rewrite Hk.
Qed.

(** A type clash between the registered object and the stored data stops
    the merger. *)
Lemma assignProps_clash a b :
  type_clash a b -> uniq_keys b = true -> snd (assignProps a b) <> Done.
Proof.
  induction 1 as [fs b p bv av Hb Hin Hl Hu Hna Hnb Ht
                 | fs b p bv av Hb Hin Hl Hc IH]; intros Huq.
  - pose proof (assignProps_entries (VObj fs) b) as E.
    destruct b; try discriminate; rewrite E;
      apply (assign_all_fails _ _ p bv av (uniq_keys_names _ Huq) Hin);
      try exact Hl; intros tfs Hl';
      unfold assign_prop;
      cbn [is_object_type typeof jstype_eqb isArray negb andb];
      rewrite getp_obj, Hl', Hu, Hna, Hnb; cbn [negb andb];
      rewrite (jstype_eqb_neq _ _ Ht); discriminate.
  - destruct (type_clash_objects _ _ Hc) as (Hoa & _ & Hob).
    pose proof (IH (uniq_keys_entry _ _ _ Huq Hin)) as IH'.
    pose proof (assignProps_entries (VObj fs) b) as E.
    assert (Hstep : forall tfs, lookup p tfs = Some av ->
      snd (assign_prop (VObj tfs) p bv (rec_of b bv)) <> Done).
    { intros tfs Hl'. unfold assign_prop.
      cbn [is_object_type typeof jstype_eqb isArray negb andb].
      rewrite getp_obj, Hl'.
      assert (Hrec : rec_of b bv av = assignProps av bv)
        by (destruct b; try reflexivity; destruct bv; try discriminate;
            reflexivity).
      rewrite Hrec.
      destruct av; try discriminate; destruct bv; try discriminate;
        cbn [is_undefined is_null negb andb typeof jstype_eqb is_object];
        match goal with
        | |- snd (let (_, _) := ?m in _) <> Done =>
            destruct m as [tv' s]; cbn [snd] in IH';
            destruct (setp _ p tv'); cbn [snd]; congruence
        end. }
    destruct b; try discriminate; rewrite E;
      apply (assign_all_fails _ _ p bv av (uniq_keys_names _ Huq) Hin);
      auto.
Qed.

(** Decoded JSON holds decoded JSON. *)
Lemma json_fixed_fields fs :
  json (VObj fs) = Some (VObj fs) ->
  Forall (fun e => json (snd e) = Some (snd e)) fs.
Proof.
  simpl. intros [= H].
  assert (Hlen : forall l,
    (List.length
       ((fix fields (l : list (string * value)) : list (string * value) :=
           match l with
           | [] => []
           | (k, x) :: r =>
               match json x with
               | Some y => (k, y) :: fields r
               | None => fields r
               end
           end) l) <= List.length l)%nat).
  { induction l as [|[k x] l IH]; simpl; [lia|].
    destruct (json x); simpl; lia. }
  induction fs as [|[k x] fs IH]; [constructor|].
  simpl in H. destruct (json x) as [y|] eqn:E.
  - inversion H as [[Hy Hr]]. subst y. constructor; [exact E|].
    rewrite Hr. now apply IH.
  - pose proof (Hlen fs) as Hl. rewrite H in Hl. simpl in Hl. lia.
Qed.

Lemma json_fixed_elems xs :
  json (VArr xs) = Some (VArr xs) -> Forall (fun x => json x = Some x) xs.
Proof.
  simpl. intros [= H].
  induction xs as [|x xs IH]; [constructor|].
  simpl in H. destruct (json x) as [y|] eqn:E.
  - inversion H as [[Hy Hr]]. subst y. constructor; [exact E|].
    rewrite Hr. now apply IH.
  - inversion H as [[Hy Hr]]. subst x. discriminate.
Qed.

Lemma assign_prop_thrown to p fv rec e :
  snd (assign_prop to p fv rec) = Thrown e ->
  e = TypeMismatch \/ exists tv, snd (rec tv) = Thrown e.
Proof.
  unfold assign_prop.
  destruct (is_object_type to && negb (isArray to) && is_undefined (getp to p));
    [discriminate|].
  destruct (_ && negb (jstype_eqb _ _)).
  - simpl. intros [= <-]. now left.
  - destruct (is_object (getp to p)).
    + destruct (rec (getp to p)) as [tv' s] eqn:E.
      destruct (setp to p tv'); simpl; [|discriminate].
      intros ->. right. exists (getp to p). now rewrite E.
    + destruct (setp to p fv); discriminate.
Qed.

Lemma assign_all_thrown rec l e :
  (forall p fv tv, In (p, fv) l -> snd (rec fv tv) = Thrown e ->
     e = TypeMismatch) ->
  forall to, snd (assign_all rec l to) = Thrown e -> e = TypeMismatch.
Proof.
  induction l as [|[p fv] l IH]; intros Hrec to; simpl; [discriminate|].
  destruct (assign_prop to p fv (rec fv)) as [to1 s1] eqn:E.
  destruct s1; simpl.
  - apply IH. intros q fq tv Hin. apply (Hrec q fq tv). now right.
  - intros [= ->].
    assert (Hs : snd (assign_prop to p fv (rec fv)) = Thrown e)
      by now rewrite E.
    apply assign_prop_thrown in Hs. destruct Hs as [Hs | [tv Hs]]; [exact Hs|].
    apply (Hrec p fv tv); [now left | exact Hs].
  - discriminate.
Qed.

(** Merging decoded JSON throws nothing but the mismatch error. *)
Lemma assignProps_thrown from :
  json from = Some from ->
  forall to e, snd (assignProps to from) = Thrown e -> e = TypeMismatch.
Proof.
  induction from as [| | b | n | s | f | fs IH | xs IH]
    using value_induction; intros Hj to e; try discriminate.
  - pose proof (assignProps_entries to (VStr s)) as E. cbv beta iota in E.
    rewrite E. apply assign_all_thrown.
    intros p fv tv Hin. cbn [entries] in Hin.
    apply in_app_or in Hin. destruct Hin as [Hin | [Hin | []]].
    + apply indexed_from_values, chars_of_strings in Hin.
      destruct Hin as [c ->]. discriminate.
    + inversion Hin; subst. discriminate.
  - pose proof (assignProps_entries to (VObj fs)) as E. cbv beta iota in E.
    rewrite E. apply assign_all_thrown.
    intros p fv tv Hin. cbn [entries] in Hin.
    pose proof (json_fixed_fields _ Hj) as Hf.
    rewrite Forall_forall in Hf, IH.
    change (rec_of (VObj fs) fv tv) with (assignProps tv fv).
    apply (IH (p, fv) Hin). exact (Hf (p, fv) Hin).
  - pose proof (assignProps_entries to (VArr xs)) as E. cbv beta iota in E.
    rewrite E. apply assign_all_thrown.
    intros p fv tv Hin. cbn [entries] in Hin.
    change (rec_of (VArr xs) fv tv) with (assignProps tv fv).
    apply in_app_or in Hin. destruct Hin as [Hin | [Hin | []]].
    + apply indexed_from_values in Hin.
      pose proof (json_fixed_elems _ Hj) as Hf.
      rewrite Forall_forall in Hf, IH.
      apply (IH fv Hin). exact (Hf fv Hin).
    + inversion Hin; subst. discriminate.
Qed.

(** X12. Stored data that clashes in type with the registered object blocks
    the key. For a persisted key before its first access, when the decoded
    JSON the backend holds for it has, at any depth reached through
    non-array objects of the handler, a field whose [typeof] differs from
    that of the handler's field (neither being [null] or absent), every
    access through the view, read or write, throws the persistent-structure
    mismatch error: none returns. The cache miss has then called the
    backend's [get] twice and has left durable storage as it was. *)
Theorem clashing_stored_data_blocks_the_key :
  forall st key hfs a,
    lookup key (props st) = Some SProxy ->
    lookup key (handlers st) = Some (VObj hfs) ->
    cold (VObj hfs) = true ->
    json (stored key st) = Some (stored key st) ->
    uniq_keys (stored key st) = true ->
    type_clash (VObj hfs) (stored key st) ->
    match run_access key a st with
    | Ok _ _ => False
    | Throw st' e =>
        e = TypeMismatch
        /\ storage st' = storage st
        /\ gets key (log st') = gets key (log st) + 2
    | Unmodelled => True
    end.
Proof.
  intros st key hfs a Hp Hh Hcold Hj Hu Hc.
  assert (Hr : root_of key st = Some (VObj hfs))
    by (unfold root_of; now rewrite Hp).
  assert (Hv : viewable key st).
  { unfold viewable. rewrite Hp, Hh. split; [discriminate | exact I]. }
  destruct (type_clash_objects _ _ Hc) as (_ & _ & Hobj).
  pose proof (first_trap_proxy _ _ Hp) as Ht.
  rewrite (load_eq _ _ _ Hr), Hcold in Ht. cbv zeta in Ht.
  replace (is_undefined (stored key st)) with false in Ht
    by (destruct (stored key st); try reflexivity; discriminate).
  pose proof (assignProps_clash _ _ Hc Hu) as Hfail.
  destruct (snd (assignProps (VObj hfs) (stored key st))) as [|e|] eqn:Es.
  - now destruct Hfail.
  - rewrite (run_access_trap_throws _ _ _ _ _ Hv Ht).
    split; [exact (assignProps_thrown _ Hj _ _ Es)|].
    split; [now rewrite storage_put|].
    rewrite log_put. cbn [add_log log]. rewrite !gets_app. simpl.
    rewrite String.eqb_refl. lia.
  - now rewrite (run_access_trap_unmodelled _ _ _ Hv Ht).
Qed.

Lemma clashing_stored_data_blocks_the_key_witness :
  match run_access "mock" (Read [] "foo") st_clash with
  | Ok _ _ => False
  | Throw st' e =>
      e = TypeMismatch
      /\ storage st' = storage st_clash
      /\ gets "mock" (log st') = gets "mock" (log st_clash) + 2
  | Unmodelled => True
  end.
Proof.
  apply (clashing_stored_data_blocks_the_key st_clash "mock"
           [("foo", VStr ""); ("_persisted", VBool true);
            ("_cached", VBool false)]
           (Read [] "foo")).
  - reflexivity.
  - reflexivity.
  - reflexivity.
  - reflexivity.
  - reflexivity.
  - apply (clash_here _ _ "foo" (VNum 5) (VStr "")).
    + reflexivity.
    + simpl. tauto.
    + reflexivity.
    + reflexivity.
    + reflexivity.
    + reflexivity.
    + discriminate.
Defined.

(** ** [clearCache] after a whole-key reassignment *)

(** The key was reassigned as a whole: an installed value is in place of
    its proxy, and its handler still carries the [_cached] that
    registration gave it. *)
Lemma clear_one_reassigned key st hfs r :
  let w := VObj r in
  lookup key (handlers st) = Some (VObj hfs) ->
  getp (VObj hfs) "_cached" <> VUndef ->
  lookup key (props st) = Some (SRaw w) ->
  match clear_one key st with
  | Ok _ _ => False
  | Throw st2 e =>
      mem key builtins || mem key inherited = false ->
      is_object w = true ->
      e = ReservedField
      /\ lookup key (props st2) = None
      /\ lookup key (handlers st2) = Some (VObj hfs)
  | Unmodelled => False
  end.
Proof.
  intros w Hh Hc Hp. unfold clear_one.
  unfold bind at 1. unfold view. rewrite Hh, Hp.
  cbn [w is_object].
  unfold bind at 1. unfold root at 1. rewrite Hp.
  unfold bind at 1. unfold set_root. rewrite Hp.
  unfold bind at 1. unfold modify at 1.
  cbn [with_handlers with_props handlers props].
  rewrite Hh.
  unfold register_obj, store_defined.
  unfold with_props. cbn [props handlers storage log].
  rewrite lookup_remove_same.
  destruct (mem key builtins || mem key inherited); [intros; discriminate|].
  cbn [orb]. rewrite setupHandler_obj.
  replace (is_undefined (getp (VObj hfs) "_cached")) with false
    by (destruct (getp (VObj hfs) "_cached"); try reflexivity; congruence).
  cbn [negb fst snd].
  unfold bind, modify, finish, throw. intros _ _.
  unfold with_handlers. cbn [handlers props storage log].
  split; [reflexivity|].
  split; [apply lookup_remove_same | apply lookup_update_same].
Qed.

Lemma clear_all_reassigned key hfs l : forall st r,
  In key l ->
  lookup key (handlers st) = Some (VObj hfs) ->
  getp (VObj hfs) "_cached" <> VUndef ->
  lookup key (props st) = Some (SRaw (VObj r)) ->
  forall st', forEach l clear_one st <> Ok st' tt.
Proof.
  induction l as [|k l IH]; intros st w Hin Hh Hc Hp st'; [destruct Hin|].
  cbn [forEach]. unfold bind.
  destruct (string_dec k key) as [-> | Hne].
  - pose proof (clear_one_reassigned _ _ _ _ Hh Hc Hp) as H.
    destruct (clear_one key st); [destruct H | discriminate | destruct H].
  - pose proof (keeps_clear_one key k Hne st) as Hk.
    destruct (clear_one k st) as [st1 [] | |]; try discriminate.
    destruct Hk as (Hh1 & Hp1 & _).
    apply (IH st1 w).
    + destruct Hin as [-> | Hin]; [now destruct Hne | exact Hin].
    + now rewrite Hh1.
    + exact Hc.
    + now rewrite Hp1.
Qed.

(** What a whole-key reassignment that returns leaves, with no cache miss
    pending: the handler map as it was and an installed object in place of
    the proxy. *)
Lemma facade_set_installs key st hfs xfs st1 :
  mem key builtins || mem key inherited = false ->
  lookup key (props st) = Some SProxy ->
  lookup key (handlers st) = Some (VObj hfs) ->
  cold (VObj hfs) = false ->
  facade_set key (VObj xfs) st = Ok st1 tt ->
  handlers st1 = handlers st
  /\ exists r, lookup key (props st1) = Some (SRaw (VObj r)).
Proof.
  intros Hm Hp Hh Hc Hset.
  rewrite (facade_set_flag _ _ _ (VObj xfs) Hm Hp Hh Hc eq_refl) in Hset.
  cbv zeta in Hset. unfold bind at 1 in Hset.
  assert (Hchk : forall (m : M unit) s,
    m = ret tt \/ m = throw ImmutableField \/ m = unmodelled ->
    match m s with
    | Ok s' _ => s' = s
    | _ => True
    end).
  { intros m s [-> | [-> | ->]]; reflexivity. }
  match type of Hset with
  | match ?m st with _ => _ end = _ =>
      pose proof (Hchk m st) as Hst; destruct (m st) as [s' [] | |];
        try discriminate
  end.
  assert (s' = st).
  { apply Hst. destruct (is_undefined _); [now left|].
    destruct (loose_eq _ _) as [[|]|]; auto. }
  subst s'.
  destruct (truthy (getp (VObj hfs) "_persisted")).
  - rewrite install_persisted in Hset.
    pose proof (persist_installed key (VObj xfs) st) as H.
    cbv zeta beta iota in H.
    destruct H as (data & r & Hpers & Hslot & Hhs & _).
    rewrite Hpers in Hset. inversion Hset; subst st1.
    split; [exact Hhs | eauto].
  - unfold modify in Hset. inversion Hset; subst st1.
    unfold with_props. cbn [handlers props].
    split; [reflexivity|]. exists xfs. apply lookup_update_same.
Qed.

(** X13. After a whole-key reassignment, [clearCache] throws. When
    [Store.key = object] has returned for a registered key (no cache miss
    pending), the handler that [clearCache] would register again still
    carries [_cached], so no later [clearCache] returns; and when the key is
    the only one registered, [clearCache] throws the reserved-field error
    and leaves the key without its property on the store, so that every
    later read through [Store.key] throws a [TypeError]. *)
Theorem clearCache_fails_after_reassignment :
  forall st key hfs xfs st1,
    mem key builtins || mem key inherited = false ->
    lookup key (props st) = Some SProxy ->
    lookup key (handlers st) = Some (VObj hfs) ->
    getp (VObj hfs) "_cached" <> VUndef ->
    cold (VObj hfs) = false ->
    facade_set key (VObj xfs) st = Ok st1 tt ->
    (forall st', clearCache st1 <> Ok st' tt)
    /\ (registered_keys st = [key] ->
        exists st2,
          clearCache st1 = Throw st2 ReservedField
          /\ lookup key (props st2) = None
          /\ forall path p, view_read key path p st2 = Throw st2 JsTypeError).
Proof.
  intros st key hfs xfs st1 Hm Hp Hh Hcd Hc Hset.
  destruct (facade_set_installs _ _ _ _ _ Hm Hp Hh Hc Hset) as (Hhs & r & Hp1).
  assert (Hh1 : lookup key (handlers st1) = Some (VObj hfs))
    by now rewrite Hhs.
  split.
  - intros st'. unfold clearCache.
    apply (clear_all_reassigned key hfs _ st1 r); auto.
    unfold registered_keys. apply lookup_In in Hh1.
    change key with (fst (key, VObj hfs)). now apply in_map.
  - intros Hkeys. unfold clearCache, registered_keys. rewrite Hhs.
    unfold registered_keys in Hkeys. rewrite Hkeys.
    cbn [forEach]. unfold bind.
    pose proof (clear_one_reassigned _ _ _ _ Hh1 Hcd Hp1) as H.
    destruct (clear_one key st1) as [|st2 e|]; [destruct H | | destruct H].
    destruct (H Hm eq_refl) as (-> & Hp2 & Hh2).
    exists st2. split; [reflexivity|]. split; [exact Hp2|].
    intros path p. unfold view_read, bind, view. now rewrite Hh2, Hp2.
Qed.

Lemma clearCache_fails_after_reassignment_witness :
  (forall st', clearCache st_reassigned <> Ok st' tt)
  /\ (registered_keys st_plain = ["mock"] ->
      exists st2,
        clearCache st_reassigned = Throw st2 ReservedField
        /\ lookup "mock" (props st2) = None
        /\ forall path p,
             view_read "mock" path p st2 = Throw st2 JsTypeError).
Proof.
  apply (clearCache_fails_after_reassignment st_plain "mock"
           [("foo", VStr ""); ("_cached", VBool false);
            ("_persisted", VBool false)]
           [("foo", VStr "y")] st_reassigned).
  - reflexivity.
  - reflexivity.
  - reflexivity.
  - discriminate.
  - reflexivity.
  - reflexivity.
Defined.

(** ** What every access through a view keeps *)

(** A relation between the state before and the state after that is kept
    by the assignments to the object behind [key] and by the calls to the
    backend about [key] is kept by every access through the view of
    [key]. *)
Section Frame.
Variable R : store -> store -> Prop.
Variable key : string.
Hypothesis R_refl : forall st, R st st.
Hypothesis R_trans : forall a b c, R a b -> R b c -> R a c.
Hypothesis R_set_root : forall v, keeps R (set_root key v).
Hypothesis R_get : keeps R (getPersistedProperty key).
Hypothesis R_set : forall v, keeps R (setPersistedProperty key v).

Lemma keeps_seq {A B : Type} (m : M A) (f : A -> M B) :
  keeps R m -> (forall a, keeps R (f a)) -> keeps R (bind m f).
Proof.
  intros Hm Hf st. unfold bind. specialize (Hm st).
  destruct (m st) as [st1 a | st1 e |]; auto.
  specialize (Hf a st1). destruct (f a st1); eauto.
Qed.

Lemma keeps_still {A : Type} (m : M A) :
  (forall st, match m st with
              | Ok st' _ | Throw st' _ => st' = st
              | Unmodelled => True
              end) ->
  keeps R m.
Proof.
  intros H st. specialize (H st). destruct (m st); subst; auto.
Qed.

Lemma frame_root : keeps R (root key).
Proof.
  apply keeps_still. intros st. unfold root.
  destruct (lookup key (props st)) as [[|w]|]; auto.
  destruct (lookup key (handlers st)); auto.
Qed.

Lemma frame_view : keeps R (view key).
Proof.
  apply keeps_still. intros st. unfold view.
  destruct (lookup key (handlers st)); auto.
  destruct (lookup key (props st)) as [[|w]|]; auto.
  destruct w; cbn [is_object]; auto.
Qed.

Lemma frame_descend v path : keeps R (descend v path).
Proof.
  apply keeps_still. intros st.
  pose proof (descend_state v path st) as H.
  destruct (descend v path st); tauto.
Qed.

Lemma frame_of_option {A : Type} (o : option A) : keeps R (of_option o).
Proof. apply keeps_still. intros st. destruct o; reflexivity. Qed.

Lemma frame_finish s : keeps R (finish tt s).
Proof. apply keeps_still. intros st. destruct s; reflexivity. Qed.

Lemma frame_load : keeps R (load key).
Proof.
  unfold load. apply keeps_seq; [apply frame_root|]. intros h.
  destruct (cold h); [|apply keeps_still; reflexivity].
  apply keeps_seq; [apply R_get|]. intros v1.
  apply keeps_seq.
  { destruct (is_undefined v1); [apply keeps_still; reflexivity|].
    apply keeps_seq; [apply R_get|]. intros v2.
    apply keeps_seq; [apply R_set_root|]. intros _.
    apply frame_finish. }
  intros _. apply keeps_seq; [apply frame_root|]. intros h2.
  apply keeps_seq; [apply frame_of_option|]. intros h3.
  apply R_set_root.
Qed.

Lemma frame_first_trap : keeps R (first_trap key).
Proof.
  intros st. unfold first_trap.
  destruct (lookup key (props st)) as [[|w]|]; try apply R_refl.
  apply frame_load.
Qed.

Lemma frame_store_get p : keeps R (store_get key p).
Proof.
  intros st. unfold store_get.
  destruct (lookup key (props st)) as [[|w]|]; try apply R_refl.
  - revert st. apply keeps_seq; [apply frame_load|]. intros _.
    apply keeps_seq; [apply frame_root|]. intros h.
    apply keeps_still. reflexivity.
  - destruct (is_undefined w || is_null w); apply R_refl.
Qed.

Lemma frame_persist : keeps R (persist key).
Proof.
  unfold persist. apply keeps_seq; [apply frame_store_get|]. intros x.
  destruct (is_true x); [|apply keeps_still; reflexivity].
  apply keeps_seq; [apply frame_root|]. intros r.
  apply keeps_seq; [apply R_set_root|]. intros _.
  apply keeps_seq; [apply frame_root|]. intros r0.
  apply keeps_seq; [apply frame_of_option|]. intros data.
  apply keeps_seq; [apply R_set|]. intros _.
  apply keeps_seq; [apply frame_root|]. intros r1.
  apply keeps_seq; [apply frame_of_option|]. intros r2.
  apply keeps_seq; [apply frame_of_option|]. intros r3.
  apply R_set_root.
Qed.

Lemma frame_raw_target path : keeps R (raw_target key path).
Proof.
  unfold raw_target. apply keeps_seq; [apply frame_root|]. intros r.
  apply frame_descend.
Qed.

Lemma frame_raw_set path p x : keeps R (raw_set key path p x).
Proof.
  unfold raw_set. apply keeps_seq; [apply frame_root|]. intros r.
  apply keeps_seq; [apply frame_of_option|]. intros r'.
  apply R_set_root.
Qed.

Lemma frame_set_layer path p x is_handler assign :
  keeps R assign -> keeps R (set_layer key path p x is_handler assign).
Proof.
  intros Ha. unfold set_layer.
  apply keeps_seq; [apply frame_raw_target|]. intros tgt.
  destruct (negb (validateStructure (getp tgt p) x));
    [apply keeps_still; reflexivity|].
  destruct (is_handler && reserved p); [apply frame_raw_set|].
  apply keeps_seq.
  { destruct (is_handler && is_true (getp tgt "_persisted"));
      [apply frame_raw_set | apply keeps_still; reflexivity]. }
  intros _. apply keeps_seq; [apply frame_raw_target|]. intros tgt'.
  destruct (unknown_field tgt' p); [apply keeps_still; reflexivity|].
  apply keeps_seq; [exact Ha|]. intros _. apply frame_persist.
Qed.

Lemma frame_view_read path p : keeps R (view_read key path p).
Proof.
  unfold view_read. apply keeps_seq; [apply frame_view|]. intros _.
  apply keeps_seq; [apply frame_first_trap|]. intros _.
  apply keeps_seq; [apply frame_raw_target|]. intros tgt.
  apply keeps_still. reflexivity.
Qed.

Lemma frame_view_write path p x : keeps R (view_write key path p x).
Proof.
  unfold view_write. apply keeps_seq; [apply frame_view|]. intros _.
  apply keeps_seq; [apply frame_first_trap|]. intros _ st.
  destruct (lookup key (props st)) as [[|w]|];
    apply frame_set_layer; try apply frame_raw_set.
  apply frame_set_layer. apply frame_raw_set.
Qed.

Lemma frame_run_access a : keeps R (run_access key a).
Proof.
  destruct a as [path p | path p x]; cbn [run_access].
  - apply keeps_seq; [apply frame_view_read|]. intros _.
    apply keeps_still. reflexivity.
  - apply frame_view_write.
Qed.

(** The whole-key assignment moreover installs a value in place of the
    proxy. *)
Lemma frame_facade_set x :
  (forall w,
     keeps R (modify (fun s => with_props s (update key w (props s))))) ->
  keeps R (facade_set key x).
Proof.
  intros R_install st. unfold facade_set.
  destruct (mem key builtins || mem key inherited); [exact I|].
  destruct (lookup key (handlers st)).
  - revert st. apply keeps_seq; [apply frame_store_get|].
    intros persisted. apply keeps_seq.
    { destruct (is_undefined x || is_null x); apply keeps_still;
        reflexivity. }
    intros _. apply keeps_seq.
    { destruct (is_undefined (getp x "_persisted"));
        [apply keeps_still; reflexivity|].
      destruct (loose_eq _ _) as [[|]|]; apply keeps_still; reflexivity. }
    intros _. destruct (truthy persisted).
    + apply keeps_seq; [apply frame_of_option|]. intros x1.
      apply keeps_seq; [apply frame_of_option|]. intros x2.
      apply keeps_seq; [apply R_install|]. intros _.
      apply frame_persist.
    + apply R_install.
  - apply (R_install (SRaw x) st).
Qed.

End Frame.

Lemma backend_confined_refl key st : backend_confined key st st.
Proof.
  split; [auto|]. exists []. split; [now rewrite app_nil_r | constructor].
Qed.

Lemma backend_confined_trans key a b c :
  backend_confined key a b -> backend_confined key b c ->
  backend_confined key a c.
Proof.
  intros [H1 (l1 & E1 & F1)] [H2 (l2 & E2 & F2)]. split.
  - intros k Hk. now rewrite (H2 k Hk), (H1 k Hk).
  - exists (l1 ++ l2)%list. split.
    + now rewrite E2, E1, app_assoc.
    + apply Forall_app. auto.
Qed.

Lemma backend_confined_set_root key v :
  keeps (backend_confined key) (set_root key v).
Proof.
  intros st. unfold set_root.
  destruct (lookup key (props st)) as [[|w]|];
    (split; [auto|]; exists []; split; [now rewrite app_nil_r | constructor]).
Qed.

Lemma backend_confined_get key :
  keeps (backend_confined key) (getPersistedProperty key).
Proof.
  intros st. unfold getPersistedProperty. split; [auto|].
  exists [EvGet key]. split; [reflexivity|]. now constructor.
Qed.

Lemma backend_confined_set key v :
  keeps (backend_confined key) (setPersistedProperty key v).
Proof.
  intros st. unfold setPersistedProperty. split.
  - intros k Hk. simpl. now rewrite lookup_update_other.
  - exists [EvSet key v]. split; [reflexivity|]. now constructor.
Qed.

Lemma backend_confined_install key w :
  keeps (backend_confined key)
    (modify (fun s => with_props s (update key w (props s)))).
Proof.
  intros st. unfold modify. split; [auto|].
  exists []. split; [now rewrite app_nil_r | constructor].
Qed.

(** X14. The store talks to the durable backend about one key at a time.
    Whatever a property read or write through the view of a key does, and
    whatever a whole-key assignment to it does, whether they return or
    throw: every call the durable backend has received in the meantime is
    a [get] or a [set] for that key, and the durable entry of every other
    name is as before. The values written are plain data, as [value] has
    them, not views that the store has handed out for another key. *)
Theorem backend_calls_are_about_the_key :
  forall key st,
    (forall a,
       match run_access key a st with
       | Ok st' _ | Throw st' _ => backend_confined key st st'
       | Unmodelled => True
       end)
    /\ (forall x,
          match facade_set key x st with
          | Ok st' _ | Throw st' _ => backend_confined key st st'
          | Unmodelled => True
          end).
Proof.
  intros key st. split.
  - intros a.
    exact (frame_run_access (backend_confined key) key
             (backend_confined_refl key) (backend_confined_trans key)
             (backend_confined_set_root key) (backend_confined_get key)
             (backend_confined_set key) a st).
  - intros x.
    exact (frame_facade_set (backend_confined key) key
             (backend_confined_refl key) (backend_confined_trans key)
             (backend_confined_set_root key) (backend_confined_get key)
             (backend_confined_set key) x (backend_confined_install key) st).
Qed.

(** ** Registering twice *)

(** No access through the view of a key takes the key's proxy away. *)
Lemma run_access_keeps_proxy key a st :
  lookup key (props st) = Some SProxy ->
  match run_access key a st with
  | Ok st' _ | Throw st' _ => lookup key (props st') = Some SProxy
  | Unmodelled => True
  end.
Proof.
  intros Hp.
  pose proof (frame_run_access
    (fun s s' => lookup key (props s) = Some SProxy ->
                 lookup key (props s') = Some SProxy) key) as H.
  cbv beta in H.
  assert (Hk : keeps
    (fun s s' => lookup key (props s) = Some SProxy ->
                 lookup key (props s') = Some SProxy) (run_access key a)).
  { apply H; clear H.
    - auto.
    - auto.
    - intros v s. unfold set_root.
      destruct (lookup key (props s)) as [[|w]|] eqn:E; simpl; auto;
        discriminate.
    - intros s. unfold getPersistedProperty. simpl. auto.
    - intros v s. unfold setPersistedProperty. simpl. auto. }
  specialize (Hk st). destruct (run_access key a st); auto.
Qed.

(** X15. A registered key cannot be registered a second time. After
    [register(key, schema)] has returned, and after any sequence of
    property reads and writes through the view of the key, returning or
    throwing, [register(key, anything)] throws the already-defined error
    and leaves the store as it is. *)
Theorem registered_key_cannot_be_registered_again :
  forall st key fs st1 accesses st2 h,
    register key (VObj fs) st = Ok st1 tt ->
    run_all key accesses st1 = Some st2 ->
    register key h st2 = Throw st2 AlreadyRegistered.
Proof.
  intros st key fs st1 accesses st2 h Hreg Hrun.
  destruct (register_ok _ _ _ _ Hreg) as (_ & hfs & Hst1 & _).
  assert (Hp : lookup key (props st1) = Some SProxy)
    by (subst st1; apply lookup_update_same).
  clear Hreg Hst1.
  assert (Hp2 : lookup key (props st2) = Some SProxy).
  { revert st1 Hp Hrun. induction accesses as [|a l IH]; intros st1 Hp Hrun.
    - simpl in Hrun. now inversion Hrun; subst.
    - simpl in Hrun. pose proof (run_access_keeps_proxy key a st1 Hp) as Hk.
      destruct (run_access key a st1) as [s u | s e |]; try discriminate;
        now apply (IH s). }
  unfold register, register_obj, store_defined. rewrite Hp2.
  now rewrite orb_true_r.
Qed.

Lemma registered_key_cannot_be_registered_again_witness :
  register "mock" (VObj [("foo", VStr "")])
    (match run_all "mock" plain_session st_plain with
     | Some s => s
     | None => st_plain
     end)
  = Throw (match run_all "mock" plain_session st_plain with
           | Some s => s
           | None => st_plain
           end) AlreadyRegistered.
Proof.
  apply (registered_key_cannot_be_registered_again empty_store "mock"
           [("foo", VStr "")] st_plain plain_session).
  - reflexivity.
  - vm_compute. reflexivity.
Defined.

(** ** [clearCache] on keys that are behind their proxies *)

Lemma clear_all_ok l : forall st,
  (forall k, In k l ->
     mem k builtins || mem k inherited = false
     /\ lookup k (props st) = Some SProxy
     /\ exists fs b, lookup k (handlers st) = Some (VObj fs)
                     /\ lookup "_persisted" fs = Some (VBool b)) ->
  exists st2, forEach l clear_one st = Ok st2 tt.
Proof.
  induction l as [|k l IH]; intros st Hgood.
  - exists st. reflexivity.
  - destruct (Hgood k (or_introl eq_refl)) as (Hm & Hp & fs & b & Hh & Hb).
    destruct (clear_one_self _ _ _ _ Hm Hp Hh Hb)
      as (st1 & Hrun & Hp1 & Hh1 & _).
    cbn [forEach]. unfold bind. rewrite Hrun. apply IH.
    intros k' Hin.
    destruct (Hgood k' (or_intror Hin)) as (Hm' & Hp' & fs' & b' & Hh' & Hb').
    split; [exact Hm'|].
    destruct (string_dec k k') as [<- | Hne].
    + split; [exact Hp1|]. exists (update "_cached" (VBool false)
                                      (remove "_cached" fs)), b.
      split; [exact Hh1|].
      rewrite lookup_update_other by discriminate.
      now rewrite lookup_remove_other by discriminate.
    + pose proof (keeps_clear_one k' k Hne st) as Hk. rewrite Hrun in Hk.
      destruct Hk as (E1 & E2 & _). rewrite E1, E2. eauto.
Qed.

(** X16. [clearCache] only makes the keys cold again. When every
    registered key is still behind its registration proxy, with an object
    handler carrying a boolean [_persisted], [clearCache] returns; it calls
    the durable backend not at all and leaves durable storage as it was;
    and every key is behind a proxy again, its handler holding
    [_cached = false] and, in every other field, the value it held before:
    what was written or loaded earlier stays in memory. *)
Theorem clearCache_only_resets_cached :
  forall st,
    (forall k, In k (registered_keys st) ->
       mem k builtins || mem k inherited = false
       /\ lookup k (props st) = Some SProxy
       /\ exists fs b, lookup k (handlers st) = Some (VObj fs)
                       /\ lookup "_persisted" fs = Some (VBool b)) ->
    exists st2,
      clearCache st = Ok st2 tt
      /\ storage st2 = storage st
      /\ log st2 = log st
      /\ forall k fs, lookup k (handlers st) = Some (VObj fs) ->
           lookup k (props st2) = Some SProxy
           /\ exists fs2,
                lookup k (handlers st2) = Some (VObj fs2)
                /\ lookup "_cached" fs2 = Some (VBool false)
                /\ forall p, p <> "_cached" -> lookup p fs2 = lookup p fs.
Proof.
  intros st Hgood.
  destruct (clear_all_ok _ st Hgood) as [st2 Hrun].
  assert (Hcc : clearCache st = Ok st2 tt) by exact Hrun.
  exists st2. split; [exact Hcc|].
  assert (Hall : forall k fs, lookup k (handlers st) = Some (VObj fs) ->
    exists fs2,
      lookup k (props st2) = Some SProxy
      /\ lookup k (handlers st2) = Some (VObj fs2)
      /\ lookup "_cached" fs2 = Some (VBool false)
      /\ (forall p, p <> "_cached" -> lookup p fs2 = lookup p fs)
      /\ storage st2 = storage st
      /\ log st2 = log st).
  { intros k fs Hh.
    assert (Hin : In k (registered_keys st)).
    { unfold registered_keys. apply lookup_In in Hh.
      change k with (fst (k, VObj fs)). now apply in_map. }
    destruct (Hgood k Hin) as (Hm & Hp & fs' & b & Hh' & Hb).
    assert (fs' = fs) by congruence. subst fs'.
    exact (clearCache_key _ _ _ _ _ Hm Hp Hh Hb Hcc). }
  assert (Hsl : storage st2 = storage st /\ log st2 = log st).
  { destruct (handlers st) as [|[k h] r] eqn:E.
    - unfold clearCache, registered_keys in Hcc. rewrite E in Hcc.
      simpl in Hcc. inversion Hcc. auto.
    - destruct (Hgood k) as (_ & _ & fs & b & Hh & _).
      { unfold registered_keys. rewrite E. now left. }
      destruct (Hall k fs Hh) as (fs2 & _ & _ & _ & _ & H1 & H2). auto. }
  destruct Hsl as [Hs Hl]. split; [exact Hs|]. split; [exact Hl|].
  intros k fs Hh. destruct (Hall k fs Hh) as (fs2 & H1 & H2 & H3 & H4 & _).
  split; [exact H1|]. exists fs2. auto.
Qed.

Lemma clearCache_only_resets_cached_witness :
  exists st2,
    clearCache st_written = Ok st2 tt
    /\ storage st2 = storage st_written
    /\ log st2 = log st_written
    /\ forall k fs, lookup k (handlers st_written) = Some (VObj fs) ->
         lookup k (props st2) = Some SProxy
         /\ exists fs2,
              lookup k (handlers st2) = Some (VObj fs2)
              /\ lookup "_cached" fs2 = Some (VBool false)
              /\ forall p, p <> "_cached" -> lookup p fs2 = lookup p fs.
Proof.
  apply (clearCache_only_resets_cached st_written).
  intros k [<- | []].
  split; [reflexivity|]. split; [reflexivity|].
  exists [("foo", VStr "x"); ("_cached", VBool true);
          ("_persisted", VBool true)], true.
  split; reflexivity.
Defined.

(** ** Assigning to a name that is not registered *)

(** X17. An assignment [Store.name = value] to a name that is neither
    registered nor a member of the store object is not checked against
    anything: it returns, stores the value as a plain property of the
    store, registers nothing and calls the durable backend not at all. A
    value other than [undefined] stored this way makes every later
    [register(name, schema)] throw the already-defined error. *)
Theorem assignment_to_unregistered_name_blocks_registration :
  forall st key x,
    mem key builtins || mem key inherited = false ->
    lookup key (handlers st) = None ->
    exists st1,
      facade_set key x st = Ok st1 tt
      /\ lookup key (props st1) = Some (SRaw x)
      /\ handlers st1 = handlers st
      /\ storage st1 = storage st
      /\ log st1 = log st
      /\ (x <> VUndef ->
          forall h, register key h st1 = Throw st1 AlreadyRegistered).
Proof.
  intros st key x Hm Hh. unfold facade_set. rewrite Hm, Hh.
  eexists. split; [reflexivity|].
  unfold with_props. cbn [handlers props storage log].
  rewrite lookup_update_same. repeat split.
  intros Hx h. unfold register, register_obj, store_defined.
  cbn [props]. rewrite lookup_update_same.
  replace (is_undefined x) with false
    by (destruct x; try reflexivity; congruence).
  now rewrite orb_true_r.
Qed.

Lemma assignment_to_unregistered_name_blocks_registration_witness :
  exists st1,
    facade_set "temp" (VNum 5) empty_store = Ok st1 tt
    /\ lookup "temp" (props st1) = Some (SRaw (VNum 5))
    /\ handlers st1 = handlers empty_store
    /\ storage st1 = storage empty_store
    /\ log st1 = log empty_store
    /\ (VNum 5 <> VUndef ->
        forall h, register "temp" h st1 = Throw st1 AlreadyRegistered).
Proof.
  apply (assignment_to_unregistered_name_blocks_registration
           empty_store "temp" (VNum 5)).
  - reflexivity.
  - reflexivity.
Defined.

(** ** Surviving a restart *)
















(** ** Whole-key reassignment of a persisted key *)





(** ** [null] and [undefined] under the validator *)




(** A write to a defined field of a non-array object that the validator
    lets through returns. *)
Lemma write_accepted key path p x st rfs tfs v :
  viewable key st ->
  warm key st ->
  root_of key st = Some (VObj rfs) ->
  sub_at (VObj rfs) path = Some (VObj tfs) ->
  reserved (first_name path p) = false ->
  lookup p tfs = Some v ->
  v <> VUndef ->
  validateStructure v x = true ->
  exists st1, view_write key path p x st = Ok st1 tt.
Proof.
  intros Hv Hw Hr Hs Hres Hl Hne Hval.
  pose proof (first_name_plain _ _ Hres) as Hpl.
  rewrite (view_write_warm _ _ _ _ _ _ Hv Hw Hr Hpl).
  rewrite (descend_sub_at _ _ _ st Hs). rewrite getp_obj, Hl, Hval.
  cbn [negb]. unfold unknown_field. rewrite getp_obj, Hl.
  replace (is_undefined v) with false
    by (destruct v; try reflexivity; congruence).
  rewrite andb_false_r.
  destruct (touch_sub_at _ _ _ Hs) as (fs1 & tfs1 & Ht & Hs1).
  rewrite Ht.
  destruct (set_in_sub_at path fs1 tfs1 p x Hs1) as (fs2 & -> & _).
  destruct (set_in_sub_at path rfs tfs p x Hs) as (fs3 & -> & _).
  destruct (lookup key (props st)) as [[|w]|]; eauto.
Qed.







(** ** A restart of a key that is not persisted *)

(** Registering, on a name the store does not define, a schema that is not
    persisted. *)
Lemma register_plain key fs st :
  store_defined st key = false ->
  lookup "_cached" fs = None ->
  lookup "_persisted" fs = None
  \/ lookup "_persisted" fs = Some (VBool false) ->
  exists hfs,
    register key (VObj fs) st
    = Ok (mkStore (update key (VObj hfs) (handlers st))
            (update key SProxy (props st)) (storage st) (log st)) tt
    /\ lookup "_persisted" hfs = Some (VBool false)
    /\ cold (VObj hfs) = false
    /\ forall q, reserved q = false -> lookup q hfs = lookup q fs.
Proof.
  intros Hfree Hc Hp. rewrite (register_eq _ _ _ Hfree), setupHandler_obj.
  rewrite !getp_obj, Hc. cbn [is_undefined negb].
  assert (Hres : forall q, reserved q = false ->
            q <> "_cached" /\ q <> "_persisted").
  { intros q Hq. unfold reserved in Hq. apply orb_false_elim in Hq.
    destruct Hq as [H1 H2]. now apply String.eqb_neq in H1, H2. }
  destruct Hp as [Hp | Hp]; rewrite Hp; cbn [fst snd];
    eexists; (split; [reflexivity|]).
  - split; [apply lookup_update_same|]. split.
    + unfold cold. rewrite !getp_obj, lookup_update_same.
      apply andb_false_r.
    + intros q Hq. destruct (Hres q Hq).
      now rewrite !lookup_update_other by assumption.
  - split; [now rewrite lookup_update_other by discriminate|]. split.
    + unfold cold. rewrite !getp_obj.
      rewrite (lookup_update_other "_cached" "_persisted") by discriminate.
      rewrite Hp. apply andb_false_r.
    + intros q Hq. destruct (Hres q Hq).
      now rewrite lookup_update_other by assumption.
Qed.

(** X22. A value written to a key that is not persisted is lost on a
    restart. On a name the store does not define, with a schema that is not
    persisted: register the schema, write through the view to one of its
    fields a value the validator accepts, [reset] the store and register
    the same schema again; the field then reads the schema's default, and
    through all of it the durable backend has not been called and holds
    what it held. *)
Theorem unpersisted_value_is_lost_on_restart :
  forall st key fs p d x,
    store_defined st key = false ->
    lookup "_cached" fs = None ->
    lookup "_persisted" fs = None
    \/ lookup "_persisted" fs = Some (VBool false) ->
    reserved p = false ->
    lookup p fs = Some d ->
    d <> VUndef ->
    validateStructure d x = true ->
    exists st',
      (register key (VObj fs) ;;; view_write key [] p x ;;; reset ;;;
       register key (VObj fs) ;;; view_read key [] p) st
      = Ok st' d
      /\ storage st' = storage st
      /\ log st' = log st.
Proof.
  intros st key fs p d x Hfree Hc Hp Hres Hd Hdu Hval.
  destruct (register_plain key fs st Hfree Hc Hp)
    as (hfs & Hreg & Hf & Hcold & Hsame).
  unfold bind at 1. rewrite Hreg.
  set (s1 := mkStore (update key (VObj hfs) (handlers st))
               (update key SProxy (props st)) (storage st) (log st)).
  assert (Hplain : plain_key key s1).
  { split; [apply lookup_update_same|]. exists hfs.
    split; [apply lookup_update_same|]. rewrite getp_obj. now rewrite Hf. }
  destruct (plain_key_facts _ _ Hplain) as (h & Hv1 & Hw1 & Hr1 & Hp1 & _).
  assert (h = hfs).
  { unfold root_of in Hr1. rewrite Hp1 in Hr1. cbn [s1 handlers] in Hr1.
    rewrite lookup_update_same in Hr1. congruence. }
  subst h.
  destruct (write_accepted key [] p x s1 hfs hfs d Hv1 Hw1 Hr1 eq_refl Hres)
    as [s2 Hwrite]; [now rewrite (Hsame p Hres) | exact Hdu | exact Hval |].
  unfold bind at 1. rewrite Hwrite.
  pose proof (plain_access_step key (Write [] p x) s1 Hplain) as Hstep.
  cbn [run_access spares_flag is_nil andb] in Hstep. rewrite Hwrite in Hstep.
  destruct Hstep as (Hplain2 & Hl2 & Hs2).
  { apply negb_true_iff. apply String.eqb_neq. intros ->. discriminate. }
  destruct Hplain2 as (_ & h2 & Hh2 & _).
  destruct (reset_loop (registered_keys s2) s2)
    as (s3 & Hreset & Hs3 & Hl3 & _ & Hgone & _).
  unfold bind at 1. unfold reset. rewrite Hreset.
  assert (Hfree3 : store_defined s3 key = false).
  { unfold store_defined in *. rewrite Hgone.
    - apply orb_false_elim in Hfree. destruct Hfree as [-> _]. reflexivity.
    - unfold registered_keys. apply lookup_In in Hh2.
      change key with (fst (key, VObj h2)). now apply in_map. }
  destruct (register_plain key fs s3 Hfree3 Hc Hp)
    as (hfs' & Hreg' & Hf' & Hcold' & Hsame').
  unfold bind at 1. rewrite Hreg'.
  set (s4 := mkStore (update key (VObj hfs') (handlers s3))
               (update key SProxy (props s3)) (storage s3) (log s3)).
  assert (Hp4 : lookup key (props s4) = Some SProxy)
    by apply lookup_update_same.
  assert (Hh4 : lookup key (handlers s4) = Some (VObj hfs'))
    by apply lookup_update_same.
  assert (Hv4 : viewable key s4).
  { unfold viewable. rewrite Hp4, Hh4. split; [discriminate | exact I]. }
  assert (Hw4 : warm key s4) by (unfold warm; now rewrite Hp4, Hh4).
  assert (Hr4 : root_of key s4 = Some (VObj hfs'))
    by now apply root_of_proxy.
  exists s4. rewrite (view_read_warm _ _ _ _ _ Hv4 Hw4 Hr4).
  cbn [descend ret]. rewrite getp_obj, (Hsame' p Hres), Hd.
  split; [reflexivity|].
  cbn [s4 storage log]. rewrite Hs3, Hl3, Hs2, Hl2. auto.
Qed.

Lemma unpersisted_value_is_lost_on_restart_witness :
  exists st',
    (register "mock" (VObj [("foo", VStr "default")]) ;;;
     view_write "mock" [] "foo" (VStr "hello") ;;; reset ;;;
     register "mock" (VObj [("foo", VStr "default")]) ;;;
     view_read "mock" [] "foo") empty_store
    = Ok st' (VStr "default")
    /\ storage st' = storage empty_store
    /\ log st' = log empty_store.
Proof.
  apply (unpersisted_value_is_lost_on_restart empty_store "mock"
           [("foo", VStr "default")] "foo" (VStr "default") (VStr "hello")).
  - reflexivity.
  - reflexivity.
  - left. reflexivity.
  - reflexivity.
  - reflexivity.
  - discriminate.
  - reflexivity.
Defined.

(** ** Reads *)

(** X23. A read never writes. In every state of the store, a property read
    through the view of a key, at any depth, whether it returns or throws,
    leaves durable storage as it was and makes no [set] call to the
    backend; and when no cache miss is pending for the key it leaves the
    whole state of the store as it was. *)
Theorem reads_never_write :
  forall key path p st,
    match view_read key path p st with
    | Ok st' _ | Throw st' _ =>
        storage st' = storage st
        /\ (forall k, sets k (log st') = sets k (log st))
        /\ (warm key st -> st' = st)
    | Unmodelled => True
    end.
Proof.
  intros key path p st.
  assert (H1 : keeps (fun s s' => storage s' = storage s
                        /\ forall k, sets k (log s') = sets k (log s))
                 (view_read key path p)).
  { apply frame_view_read.
    - auto.
    - intros a b c [A1 A2] [B1 B2]. split; [congruence|].
      intros k. now rewrite B2.
    - intros v s. unfold set_root.
      destruct (lookup key (props s)) as [[|w]|]; simpl; auto.
    - intros s. unfold getPersistedProperty. simpl. split; [reflexivity|].
      intros k. rewrite sets_app. simpl. lia. }
  assert (H2 : warm key st ->
    match view_read key path p st with
    | Ok st' _ | Throw st' _ => st' = st
    | Unmodelled => True
    end).
  { intros Hw. unfold view_read, bind.
    pose proof (frame_view (fun s s' => s' = s) key (fun s => eq_refl) st)
      as Hv.
    destruct (view key st) as [s1 u | s1 e |]; auto. subst s1.
    rewrite (first_trap_warm _ _ Hw).
    pose proof (frame_raw_target (fun s s' => s' = s) key (fun s => eq_refl)
                  (fun a b c (H : b = a) (H' : c = b) => eq_trans H' H)
                  path st) as Hr.
    destruct (raw_target key path st) as [s2 tgt | s2 e |]; auto. }
  specialize (H1 st).
  destruct (view_read key path p st) as [st' v | st' e |]; [| |exact I];
    destruct H1 as [A B]; auto.
Qed.

(** ** What the validator does not compare *)



